(** * Smart-contract audit bot: structural extractor, ingestion pipeline and
      conversational orchestrator

    A shallow embedding of [app/ingestion_sol.py] and [app/chatbot_sol.py].

    Conventions of the embedding
    - A Python [str] is a list of characters; a character is a code point
      below 256 (Rocq's [ascii]).  Whitespace and word characters are the
      ones CPython's [str.isspace] and [re] use on that range.  The
      security patterns, which are searched ignoring case, are also given
      on text of arbitrary code points (module [Unicode]), where
      [re.IGNORECASE] compares more than letter case.
    - A Python exception is the value [Raise msg], [msg] being [str(e)].
      Code that can raise returns a [Result]; the stateful methods run in
      the monad [M] over the process state [World], and a raise keeps the
      mutations made before it.
    - The third-party collaborators (the text splitter, the MD5 digest, the
      embedding similarity, the chat model, the clock and the Pinecone
      index) are not part of the repository; their behaviour is the record
      [Env] and the [Pinecone] component of the state. *)

From Stdlib Require Import Ascii String DecimalString Bool Arith NArith Lia List.
Import ListNotations.

Set Implicit Arguments.

(** ** Text *)

Definition str := list ascii.

(** A literal of the source. *)
Definition txt (s : string) : str := list_ascii_of_string s.

Definition code (c : ascii) : nat := nat_of_ascii c.

Definition in_range (lo hi n : nat) : bool := (lo <=? n) && (n <=? hi).

(** [str.isspace] on one character; also the class [\s] of [re]. *)
Definition isspace (c : ascii) : bool :=
  let n := code c in
  in_range 9 13 n || in_range 28 32 n || (n =? 133) || (n =? 160).

(** The class [\w] of [re]: alphanumeric (in the Unicode sense) or [_]. *)
Definition isword (c : ascii) : bool :=
  let n := code c in
  in_range 48 57 n || in_range 65 90 n || in_range 97 122 n || (n =? 95)
  || (n =? 170) || (n =? 178) || (n =? 179) || (n =? 181)
  || (n =? 185) || (n =? 186) || in_range 188 190 n
  || in_range 192 214 n || in_range 216 246 n || in_range 248 255 n.

Definition is_upper (c : ascii) : bool := in_range 65 90 (code c).
Definition is_lower (c : ascii) : bool := in_range 97 122 (code c).

(** Case folding of the ASCII letters, the only cased characters on which
    the patterns of the source depend. *)
Definition lower (c : ascii) : ascii :=
  if is_upper c then ascii_of_nat (code c + 32) else c.

Definition swapcase (c : ascii) : ascii :=
  if is_upper c then ascii_of_nat (code c + 32)
  else if is_lower c then ascii_of_nat (code c - 32)
  else c.

Definition lower_str (s : str) : str := map lower s.

Definition ascii_eqb (a b : ascii) : bool := Ascii.eqb a b.

Fixpoint str_eqb (a b : str) : bool :=
  match a, b with
  | [], [] => true
  | x :: a', y :: b' => ascii_eqb x y && str_eqb a' b'
  | _, _ => false
  end.

(** [s.lstrip()], [s.rstrip()], [s.strip()]. *)
Fixpoint lstrip (s : str) : str :=
  match s with
  | c :: s' => if isspace c then lstrip s' else s
  | [] => []
  end.

Definition rstrip (s : str) : str := rev (lstrip (rev s)).

Definition strip (s : str) : str := rstrip (lstrip s).

(** [s.replace(old, new)] for a one-character [old]. *)
Fixpoint replace (old : ascii) (new : str) (s : str) : str :=
  match s with
  | [] => []
  | c :: s' => (if ascii_eqb c old then new else [c]) ++ replace old new s'
  end.

(** [sep.join(parts)]. *)
Fixpoint join (sep : str) (parts : list str) : str :=
  match parts with
  | [] => []
  | [p] => p
  | p :: ps => p ++ sep ++ join sep ps
  end.

(** [str(n)] for a non-negative [int]. *)
Definition str_of_nat (n : nat) : str :=
  txt (NilEmpty.string_of_uint (Nat.to_uint n)).

(** [l[-n:]] *)
Definition last_n {A} (n : nat) (l : list A) : list A :=
  skipn (length l - n) l.

(** ** Exceptions *)

Inductive Result (A : Type) : Type :=
| Ok (a : A)
| Raise (msg : str).

Arguments Ok {A} a.
Arguments Raise {A} msg.

(** ** The subset of [re] the program uses

    Every repetition in the patterns of the source is applied to a single
    character or class ([\s+], [\w+], [[^;]+], [.*?]), and no pattern has
    more than one capturing group.  The matcher is the backtracking one of
    [re]: alternatives left to right, greedy repetition longest first, lazy
    repetition shortest first. *)

Module Re.

Inductive citem : Type :=
| IChar (c : ascii)
| ISpace
| IWord.

Inductive atom : Type :=
| Lit (c : ascii)
| Dot
| Cls (negated : bool) (items : list citem).

Inductive regex : Type :=
| Eps
| Atom (a : atom)
| Seq (r1 r2 : regex)
| Alt (r1 r2 : regex)
| Star (greedy : bool) (a : atom)
| Opt (r : regex)
| Group (r : regex).

Record flags : Type := { IGNORECASE : bool; DOTALL : bool }.

Definition no_flags : flags := {| IGNORECASE := false; DOTALL := false |}.
Definition ignorecase : flags := {| IGNORECASE := true; DOTALL := false |}.
Definition dotall : flags := {| IGNORECASE := false; DOTALL := true |}.

Definition Plus (a : atom) : regex := Seq (Atom a) (Star true a).

Fixpoint Lits (s : str) : regex :=
  match s with
  | [] => Eps
  | [c] => Atom (Lit c)
  | c :: s' => Seq (Atom (Lit c)) (Lits s')
  end.

Definition space : atom := Cls false [ISpace].
Definition word : atom := Cls false [IWord].
Definition not_char (c : ascii) : atom := Cls true [IChar c].

Definition item_matches (i : citem) (c : ascii) : bool :=
  match i with
  | IChar x => ascii_eqb c x
  | ISpace => isspace c
  | IWord => isword c
  end.

Definition atom_matches (fl : flags) (a : atom) (c : ascii) : bool :=
  match a with
  | Lit x =>
      ascii_eqb c x || (IGNORECASE fl && ascii_eqb (swapcase c) x)
  | Dot => DOTALL fl || negb (ascii_eqb c "010"%char)
  | Cls neg items =>
      xorb neg
        (existsb (fun i => item_matches i c
                           || (IGNORECASE fl && item_matches i (swapcase c)))
                 items)
  end.

Section Matcher.
Variable fl : flags.
Variable A : Type.

Fixpoint star_greedy (p : ascii -> bool) (s : str)
         (k : str -> option A) : option A :=
  match s with
  | c :: s' =>
      if p c then
        match star_greedy p s' k with
        | Some x => Some x
        | None => k s
        end
      else k s
  | [] => k s
  end.

Fixpoint star_lazy (p : ascii -> bool) (s : str)
         (k : str -> option A) : option A :=
  match k s with
  | Some x => Some x
  | None =>
      match s with
      | c :: s' => if p c then star_lazy p s' k else None
      | [] => None
      end
  end.

(** [run r s g k]: match [r] at the head of [s] with capture state [g],
    then continue with [k] on what is left; [None] makes the matcher
    backtrack. *)
Fixpoint run (r : regex) (s : str) (g : option str)
         (k : str -> option str -> option A) : option A :=
  match r with
  | Eps => k s g
  | Atom a =>
      match s with
      | c :: s' => if atom_matches fl a c then k s' g else None
      | [] => None
      end
  | Seq r1 r2 => run r1 s g (fun s' g' => run r2 s' g' k)
  | Alt r1 r2 =>
      match run r1 s g k with
      | Some x => Some x
      | None => run r2 s g k
      end
  | Star true a => star_greedy (atom_matches fl a) s (fun s' => k s' g)
  | Star false a => star_lazy (atom_matches fl a) s (fun s' => k s' g)
  | Opt r1 =>
      match run r1 s g k with
      | Some x => Some x
      | None => k s g
      end
  | Group r1 =>
      run r1 s g
          (fun s' _ => k s' (Some (firstn (length s - length s') s)))
  end.
End Matcher.

(** A match object: the text matched and group 1 ([None] when the group
    did not take part in the match). *)
Record Match : Type := { group0 : str; group1 : option str }.

Definition span (m : Match) : nat := length (group0 m).

(** One attempt at the head of [s]; with [must_advance] an empty match
    is refused. *)
Definition match_at (fl : flags) (must_advance : bool) (r : regex)
           (s : str) : option Match :=
  run fl r s None
      (fun s' g =>
         let n := length s - length s' in
         if must_advance && (n =? 0) then None
         else Some {| group0 := firstn n s; group1 := g |}).

(** [re.search(r, s, flags)]: the match at the leftmost position that
    has one. *)
Fixpoint search (fl : flags) (r : regex) (s : str) : option Match :=
  match match_at fl false r s with
  | Some m => Some m
  | None =>
      match s with
      | _ :: s' => search fl r s'
      | [] => None
      end
  end.

Fixpoint has_group (r : regex) : bool :=
  match r with
  | Eps | Atom _ | Star _ _ => false
  | Seq r1 r2 | Alt r1 r2 => has_group r1 || has_group r2
  | Opt r1 => has_group r1
  | Group _ => true
  end.

(** What [findall] reports for one match: group 1 when the pattern has a
    group (the empty string when it did not take part), the whole match
    otherwise. *)
Definition findall_item (r : regex) (m : Match) : str :=
  if has_group r then
    match group1 m with Some g => g | None => [] end
  else group0 m.

(** The matches [findall] takes at one position, and how far the scan
    moves on.  After an empty match the same position is tried once more
    for a non-empty one. *)
Definition matches_here (fl : flags) (r : regex) (s : str)
  : list Match * nat :=
  match match_at fl false r s with
  | None => ([], 1)
  | Some m =>
      if span m =? 0 then
        match match_at fl true r s with
        | Some m' => ([m; m'], span m')
        | None => ([m], 1)
        end
      else ([m], span m)
  end.

(** The scan of [findall]: [skip] characters are still covered by the
    previous match. *)
Fixpoint scan (fl : flags) (r : regex) (s : str) (skip : nat)
  : list Match :=
  match skip with
  | S n =>
      match s with
      | [] => []
      | _ :: s' => scan fl r s' n
      end
  | O =>
      let (found, adv) := matches_here fl r s in
      found ++ match s with
               | [] => []
               | _ :: s' => scan fl r s' (adv - 1)
               end
  end.

(** [re.findall(r, s, flags)] *)
Definition findall (fl : flags) (r : regex) (s : str) : list str :=
  map (findall_item r) (scan fl r s 0).

(** *** What a pattern denotes

    [Matches fl r s g g']: [r] matches exactly the text [s] and turns the
    capture state [g] into [g']. *)
Inductive Matches (fl : flags) : regex -> str -> option str -> option str -> Prop :=
| MEps g : Matches fl Eps [] g g
| MAtom a c g : atom_matches fl a c = true -> Matches fl (Atom a) [c] g g
| MSeq r1 r2 s1 s2 g g1 g2 :
    Matches fl r1 s1 g g1 -> Matches fl r2 s2 g1 g2 ->
    Matches fl (Seq r1 r2) (s1 ++ s2) g g2
| MAltL r1 r2 s g g' : Matches fl r1 s g g' -> Matches fl (Alt r1 r2) s g g'
| MAltR r1 r2 s g g' : Matches fl r2 s g g' -> Matches fl (Alt r1 r2) s g g'
| MStar b a s g :
    forallb (atom_matches fl a) s = true -> Matches fl (Star b a) s g g
| MOptSome r s g g' : Matches fl r s g g' -> Matches fl (Opt r) s g g'
| MOptNone r g : Matches fl (Opt r) [] g g
| MGroup r s g g' : Matches fl r s g g' -> Matches fl (Group r) s g (Some s).

(** The pattern occurs somewhere in the text. *)
Definition occurs (fl : flags) (r : regex) (s : str) : Prop :=
  exists pre mid post g,
    s = pre ++ mid ++ post /\ Matches fl r mid None g.

End Re.

(** ** [class SolidityParser] *)

Module SolidityParser.
Import Re.

Fixpoint seqs (rs : list regex) : regex :=
  match rs with
  | [] => Eps
  | [r] => r
  | r :: rs' => Seq r (seqs rs')
  end.

Fixpoint alts (r : regex) (rs : list regex) : regex :=
  match rs with
  | [] => r
  | r' :: rs' => Alt r (alts r' rs')
  end.

Definition L (s : string) : regex := Lits (txt s).
Definition C (s : string) : regex :=
  match txt s with
  | c :: _ => Atom (Lit c)
  | [] => Eps
  end.
Definition space_star : regex := Star true space.
Definition space_plus : regex := Plus space.

(** [\([^)]*\)] *)
Definition parens : regex :=
  seqs [C "("; Star true (not_char ")"%char); C ")"].

(** [contract\s+(\w+).*?\{], compiled with [re.DOTALL] *)
Definition contract_pattern : regex :=
  seqs [L "contract"; space_plus; Group (Plus word); Star false Dot; C "{"].

(** [function\s+(\w+)\s*\([^)]*\)\s*(?:public|private|internal|external)?\s*(?:view|pure|payable)?\s*(?:returns\s*\([^)]*\))?\s*\{],
    compiled with [re.DOTALL] *)
Definition function_pattern : regex :=
  seqs [L "function"; space_plus; Group (Plus word); space_star; parens;
        space_star;
        Opt (alts (L "public") [L "private"; L "internal"; L "external"]);
        space_star;
        Opt (alts (L "view") [L "pure"; L "payable"]);
        space_star;
        Opt (seqs [L "returns"; space_star; parens]);
        space_star; C "{"].

(** [modifier\s+(\w+)\s*\([^)]*\)\s*\{], compiled with [re.DOTALL] *)
Definition modifier_pattern : regex :=
  seqs [L "modifier"; space_plus; Group (Plus word); space_star; parens;
        space_star; C "{"].

(** [event\s+(\w+)\s*\([^)]*\);] *)
Definition event_pattern : regex :=
  seqs [L "event"; space_plus; Group (Plus word); space_star; parens; C ";"].

(** [pragma\s+solidity\s+([^;]+);] *)
Definition pragma_pattern : regex :=
  seqs [L "pragma"; space_plus; L "solidity"; space_plus;
        Group (Plus (not_char ";"%char)); C ";"].

(** [import\s+[^;]+;] *)
Definition import_pattern : regex :=
  seqs [L "import"; space_plus; Plus (not_char ";"%char); C ";"].

Record Metadata : Type := {
  contracts : list str;
  functions : list str;
  modifiers : list str;
  events : list str;
  imports : list str;
  pragma : option str
}.

(** [m.group(1).strip()]: [group(1)] is [None] when the group did not
    take part in the match, and [None] has no [strip]. *)
Definition group1_strip (m : Match) : Result str :=
  match group1 m with
  | Some g => Ok (strip g)
  | None => Raise (txt "'NoneType' object has no attribute 'strip'")
  end.

(** [extract_metadata] (ingestion_sol.py, lines 27-63) *)
Definition extract_metadata (content : str) : Result Metadata :=
  let pragma_match := search no_flags pragma_pattern content in
  match
    match pragma_match with
    | Some m =>
        match group1_strip m with
        | Ok p => Ok (Some p)
        | Raise e => Raise e
        end
    | None => Ok None
    end
  with
  | Raise e => Raise e
  | Ok pragma_value =>
      let import_matches := findall no_flags import_pattern content in
      let contract_matches := findall dotall contract_pattern content in
      let function_matches := findall dotall function_pattern content in
      let modifier_matches := findall dotall modifier_pattern content in
      let event_matches := findall no_flags event_pattern content in
      Ok {| contracts := contract_matches;
            functions := function_matches;
            modifiers := modifier_matches;
            events := event_matches;
            imports := map strip import_matches;
            pragma := pragma_value |}
  end.

(** [onlyOwner|onlyAdmin|require\s*\(\s*msg\.sender] *)
Definition access_control_pattern : regex :=
  alts (L "onlyOwner")
       [L "onlyAdmin";
        seqs [L "require"; space_star; C "("; space_star; L "msg.sender"]].

(** The [patterns] dict of [identify_security_patterns], in insertion
    order. *)
Definition patterns : list (str * regex) :=
  [ (txt "reentrancy_guard", alts (L "nonReentrant") [L "ReentrancyGuard"]);
    (txt "access_control", access_control_pattern);
    (txt "safe_math",
     alts (L "SafeMath") [L ".add("; L ".sub("; L ".mul("; L ".div("]);
    (txt "external_calls",
     alts (L ".call(") [L ".delegatecall("; L ".staticcall("]);
    (txt "time_dependency",
     alts (L "block.timestamp") [seqs [L "now"; Atom space]]);
    (txt "randomness", alts (L "block.difficulty") [L "blockhash("]);
    (txt "overflow_checks",
     alts (seqs [L "require"; space_star; C "(";
                 Star true (not_char ")"%char); C "+"])
          [seqs [L "require"; space_star; C "(";
                 Star true (not_char ")"%char); C "-"]]) ].

Definition found (r : regex) (content : str) : bool :=
  match search ignorecase r content with
  | Some _ => true
  | None => false
  end.

(** [identify_security_patterns] (lines 65-84): the names of the
    patterns found, in the order of the dict. *)
Definition identify_security_patterns (content : str) : list str :=
  map fst (filter (fun p => found (snd p) content) patterns).

End SolidityParser.

(** ** The security patterns on arbitrary text

    An uploaded file is decoded from UTF-8, so the text that
    [identify_security_patterns] is given can hold any code point, not
    only those below 256.  [re.IGNORECASE] on a [str] pattern does not
    compare letter case alone: it compares the lower-case mappings of the
    Unicode database and knows further code points with the same upper
    case.  This module gives the matcher of [re] on code points, with the
    tables of CPython 3.11 (Unicode 14.0.0).  On code points below 256 it
    finds what the matcher of the module [Re] finds. *)

Module Unicode.
Import Re.

(** A Python [str] as the list of its code points. *)
Definition ustr : Type := list N.

Definition point (c : ascii) : N := N_of_ascii c.

(** A text of code points below 256. *)
Definition of_str (s : str) : ustr := map point s.

(** [_sre.unicode_tolower]: the code points that have a lower-case
    mapping, in runs [(first, last, step, image of first)]; inside a run
    every [step]-th code point is mapped, at a constant distance. *)
Definition lower_runs : list (N * N * N * N) :=
  [
   (65, 90, 1, 97); (192, 214, 1, 224); (216, 222, 1, 248);
   (256, 302, 2, 257); (304, 304, 1, 105); (306, 310, 2, 307);
   (313, 327, 2, 314); (330, 374, 2, 331); (376, 376, 1, 255);
   (377, 381, 2, 378); (385, 385, 1, 595); (386, 388, 2, 387);
   (390, 390, 1, 596); (391, 391, 1, 392); (393, 394, 1, 598);
   (395, 395, 1, 396); (398, 398, 1, 477); (399, 399, 1, 601);
   (400, 400, 1, 603); (401, 401, 1, 402); (403, 403, 1, 608);
   (404, 404, 1, 611); (406, 406, 1, 617); (407, 407, 1, 616);
   (408, 408, 1, 409); (412, 412, 1, 623); (413, 413, 1, 626);
   (415, 415, 1, 629); (416, 420, 2, 417); (422, 422, 1, 640);
   (423, 423, 1, 424); (425, 425, 1, 643); (428, 428, 1, 429);
   (430, 430, 1, 648); (431, 431, 1, 432); (433, 434, 1, 650);
   (435, 437, 2, 436); (439, 439, 1, 658); (440, 440, 1, 441);
   (444, 444, 1, 445); (452, 452, 1, 454); (453, 453, 1, 454);
   (455, 455, 1, 457); (456, 456, 1, 457); (458, 458, 1, 460);
   (459, 475, 2, 460); (478, 494, 2, 479); (497, 497, 1, 499);
   (498, 500, 2, 499); (502, 502, 1, 405); (503, 503, 1, 447);
   (504, 542, 2, 505); (544, 544, 1, 414); (546, 562, 2, 547);
   (570, 570, 1, 11365); (571, 571, 1, 572); (573, 573, 1, 410);
   (574, 574, 1, 11366); (577, 577, 1, 578); (579, 579, 1, 384);
   (580, 580, 1, 649); (581, 581, 1, 652); (582, 590, 2, 583);
   (880, 882, 2, 881); (886, 886, 1, 887); (895, 895, 1, 1011);
   (902, 902, 1, 940); (904, 906, 1, 941); (908, 908, 1, 972);
   (910, 911, 1, 973); (913, 929, 1, 945); (931, 939, 1, 963);
   (975, 975, 1, 983); (984, 1006, 2, 985); (1012, 1012, 1, 952);
   (1015, 1015, 1, 1016); (1017, 1017, 1, 1010); (1018, 1018, 1, 1019);
   (1021, 1023, 1, 891); (1024, 1039, 1, 1104); (1040, 1071, 1, 1072);
   (1120, 1152, 2, 1121); (1162, 1214, 2, 1163); (1216, 1216, 1, 1231);
   (1217, 1229, 2, 1218); (1232, 1326, 2, 1233); (1329, 1366, 1, 1377);
   (4256, 4293, 1, 11520); (4295, 4295, 1, 11559); (4301, 4301, 1, 11565);
   (5024, 5103, 1, 43888); (5104, 5109, 1, 5112); (7312, 7354, 1, 4304);
   (7357, 7359, 1, 4349); (7680, 7828, 2, 7681); (7838, 7838, 1, 223);
   (7840, 7934, 2, 7841); (7944, 7951, 1, 7936); (7960, 7965, 1, 7952);
   (7976, 7983, 1, 7968); (7992, 7999, 1, 7984); (8008, 8013, 1, 8000);
   (8025, 8031, 2, 8017); (8040, 8047, 1, 8032); (8072, 8079, 1, 8064);
   (8088, 8095, 1, 8080); (8104, 8111, 1, 8096); (8120, 8121, 1, 8112);
   (8122, 8123, 1, 8048); (8124, 8124, 1, 8115); (8136, 8139, 1, 8050);
   (8140, 8140, 1, 8131); (8152, 8153, 1, 8144); (8154, 8155, 1, 8054);
   (8168, 8169, 1, 8160); (8170, 8171, 1, 8058); (8172, 8172, 1, 8165);
   (8184, 8185, 1, 8056); (8186, 8187, 1, 8060); (8188, 8188, 1, 8179);
   (8486, 8486, 1, 969); (8490, 8490, 1, 107); (8491, 8491, 1, 229);
   (8498, 8498, 1, 8526); (8544, 8559, 1, 8560); (8579, 8579, 1, 8580);
   (9398, 9423, 1, 9424); (11264, 11311, 1, 11312); (11360, 11360, 1, 11361);
   (11362, 11362, 1, 619); (11363, 11363, 1, 7549); (11364, 11364, 1, 637);
   (11367, 11371, 2, 11368); (11373, 11373, 1, 593); (11374, 11374, 1, 625);
   (11375, 11375, 1, 592); (11376, 11376, 1, 594); (11378, 11378, 1, 11379);
   (11381, 11381, 1, 11382); (11390, 11391, 1, 575);
   (11392, 11490, 2, 11393); (11499, 11501, 2, 11500);
   (11506, 11506, 1, 11507); (42560, 42604, 2, 42561);
   (42624, 42650, 2, 42625); (42786, 42798, 2, 42787);
   (42802, 42862, 2, 42803); (42873, 42875, 2, 42874);
   (42877, 42877, 1, 7545); (42878, 42886, 2, 42879);
   (42891, 42891, 1, 42892); (42893, 42893, 1, 613);
   (42896, 42898, 2, 42897); (42902, 42920, 2, 42903);
   (42922, 42922, 1, 614); (42923, 42923, 1, 604); (42924, 42924, 1, 609);
   (42925, 42925, 1, 620); (42926, 42926, 1, 618); (42928, 42928, 1, 670);
   (42929, 42929, 1, 647); (42930, 42930, 1, 669); (42931, 42931, 1, 43859);
   (42932, 42946, 2, 42933); (42948, 42948, 1, 42900);
   (42949, 42949, 1, 642); (42950, 42950, 1, 7566); (42951, 42953, 2, 42952);
   (42960, 42960, 1, 42961); (42966, 42968, 2, 42967);
   (42997, 42997, 1, 42998); (65313, 65338, 1, 65345);
   (66560, 66599, 1, 66600); (66736, 66771, 1, 66776);
   (66928, 66938, 1, 66967); (66940, 66954, 1, 66979);
   (66956, 66962, 1, 66995); (66964, 66965, 1, 67003);
   (68736, 68786, 1, 68800); (71840, 71871, 1, 71872);
   (93760, 93791, 1, 93792); (125184, 125217, 1, 125218)
  ]%N.

Definition in_run (r : N * N * N * N) (c : N) : bool :=
  let '(first, last, step, _) := r in
  ((first <=? c) && (c <=? last) && ((c - first) mod step =? 0))%N.

Definition unicode_tolower (c : N) : N :=
  match find (fun r => in_run r c) lower_runs with
  | Some (first, _, _, image) => (image + (c - first))%N
  | None => c
  end.

(** [_sre.unicode_iscased] on the characters a pattern of the source can
    hold: the ones below 256 that differ from their lower case or from
    their upper case. *)
Definition unicode_iscased (x : ascii) : bool :=
  let n := code x in
  in_range 65 90 n || in_range 97 122 n || (n =? 181)
  || in_range 192 214 n || in_range 216 246 n || in_range 248 255 n.

(** [re._casefix._EXTRA_CASES]: the other lower-case code points with the
    upper case of [lo], for the [lo] below 256. *)
Definition extra_cases (lo : N) : list N :=
  (if lo =? 105 then [305]
   else if lo =? 115 then [383]
   else if lo =? 181 then [956]
   else [])%N.

(** [str.isspace] on one code point; also the class [\s] of [re]. *)
Definition unicode_isspace (c : N) : bool :=
  existsb (N.eqb c)
    [9; 10; 11; 12; 13; 28; 29; 30; 31; 32; 133; 160; 5760;
     8192; 8193; 8194; 8195; 8196; 8197; 8198; 8199; 8200; 8201; 8202;
     8232; 8233; 8239; 8287; 12288]%N.

(** [str.isalnum] on one code point: the ranges of the alphanumeric code
    points.  The class [\w] of [re] is these and the underscore. *)
Definition alnum_ranges : list (N * N) :=
  [
   (48, 57); (65, 90); (97, 122); (170, 170); (178, 179); (181, 181);
   (185, 186); (188, 190); (192, 214); (216, 246); (248, 705); (710, 721);
   (736, 740); (748, 748); (750, 750); (880, 884); (886, 887); (890, 893);
   (895, 895); (902, 902); (904, 906); (908, 908); (910, 929); (931, 1013);
   (1015, 1153); (1162, 1327); (1329, 1366); (1369, 1369); (1376, 1416);
   (1488, 1514); (1519, 1522); (1568, 1610); (1632, 1641); (1646, 1647);
   (1649, 1747); (1749, 1749); (1765, 1766); (1774, 1788); (1791, 1791);
   (1808, 1808); (1810, 1839); (1869, 1957); (1969, 1969); (1984, 2026);
   (2036, 2037); (2042, 2042); (2048, 2069); (2074, 2074); (2084, 2084);
   (2088, 2088); (2112, 2136); (2144, 2154); (2160, 2183); (2185, 2190);
   (2208, 2249); (2308, 2361); (2365, 2365); (2384, 2384); (2392, 2401);
   (2406, 2415); (2417, 2432); (2437, 2444); (2447, 2448); (2451, 2472);
   (2474, 2480); (2482, 2482); (2486, 2489); (2493, 2493); (2510, 2510);
   (2524, 2525); (2527, 2529); (2534, 2545); (2548, 2553); (2556, 2556);
   (2565, 2570); (2575, 2576); (2579, 2600); (2602, 2608); (2610, 2611);
   (2613, 2614); (2616, 2617); (2649, 2652); (2654, 2654); (2662, 2671);
   (2674, 2676); (2693, 2701); (2703, 2705); (2707, 2728); (2730, 2736);
   (2738, 2739); (2741, 2745); (2749, 2749); (2768, 2768); (2784, 2785);
   (2790, 2799); (2809, 2809); (2821, 2828); (2831, 2832); (2835, 2856);
   (2858, 2864); (2866, 2867); (2869, 2873); (2877, 2877); (2908, 2909);
   (2911, 2913); (2918, 2927); (2929, 2935); (2947, 2947); (2949, 2954);
   (2958, 2960); (2962, 2965); (2969, 2970); (2972, 2972); (2974, 2975);
   (2979, 2980); (2984, 2986); (2990, 3001); (3024, 3024); (3046, 3058);
   (3077, 3084); (3086, 3088); (3090, 3112); (3114, 3129); (3133, 3133);
   (3160, 3162); (3165, 3165); (3168, 3169); (3174, 3183); (3192, 3198);
   (3200, 3200); (3205, 3212); (3214, 3216); (3218, 3240); (3242, 3251);
   (3253, 3257); (3261, 3261); (3293, 3294); (3296, 3297); (3302, 3311);
   (3313, 3314); (3332, 3340); (3342, 3344); (3346, 3386); (3389, 3389);
   (3406, 3406); (3412, 3414); (3416, 3425); (3430, 3448); (3450, 3455);
   (3461, 3478); (3482, 3505); (3507, 3515); (3517, 3517); (3520, 3526);
   (3558, 3567); (3585, 3632); (3634, 3635); (3648, 3654); (3664, 3673);
   (3713, 3714); (3716, 3716); (3718, 3722); (3724, 3747); (3749, 3749);
   (3751, 3760); (3762, 3763); (3773, 3773); (3776, 3780); (3782, 3782);
   (3792, 3801); (3804, 3807); (3840, 3840); (3872, 3891); (3904, 3911);
   (3913, 3948); (3976, 3980); (4096, 4138); (4159, 4169); (4176, 4181);
   (4186, 4189); (4193, 4193); (4197, 4198); (4206, 4208); (4213, 4225);
   (4238, 4238); (4240, 4249); (4256, 4293); (4295, 4295); (4301, 4301);
   (4304, 4346); (4348, 4680); (4682, 4685); (4688, 4694); (4696, 4696);
   (4698, 4701); (4704, 4744); (4746, 4749); (4752, 4784); (4786, 4789);
   (4792, 4798); (4800, 4800); (4802, 4805); (4808, 4822); (4824, 4880);
   (4882, 4885); (4888, 4954); (4969, 4988); (4992, 5007); (5024, 5109);
   (5112, 5117); (5121, 5740); (5743, 5759); (5761, 5786); (5792, 5866);
   (5870, 5880); (5888, 5905); (5919, 5937); (5952, 5969); (5984, 5996);
   (5998, 6000); (6016, 6067); (6103, 6103); (6108, 6108); (6112, 6121);
   (6128, 6137); (6160, 6169); (6176, 6264); (6272, 6276); (6279, 6312);
   (6314, 6314); (6320, 6389); (6400, 6430); (6470, 6509); (6512, 6516);
   (6528, 6571); (6576, 6601); (6608, 6618); (6656, 6678); (6688, 6740);
   (6784, 6793); (6800, 6809); (6823, 6823); (6917, 6963); (6981, 6988);
   (6992, 7001); (7043, 7072); (7086, 7141); (7168, 7203); (7232, 7241);
   (7245, 7293); (7296, 7304); (7312, 7354); (7357, 7359); (7401, 7404);
   (7406, 7411); (7413, 7414); (7418, 7418); (7424, 7615); (7680, 7957);
   (7960, 7965); (7968, 8005); (8008, 8013); (8016, 8023); (8025, 8025);
   (8027, 8027); (8029, 8029); (8031, 8061); (8064, 8116); (8118, 8124);
   (8126, 8126); (8130, 8132); (8134, 8140); (8144, 8147); (8150, 8155);
   (8160, 8172); (8178, 8180); (8182, 8188); (8304, 8305); (8308, 8313);
   (8319, 8329); (8336, 8348); (8450, 8450); (8455, 8455); (8458, 8467);
   (8469, 8469); (8473, 8477); (8484, 8484); (8486, 8486); (8488, 8488);
   (8490, 8493); (8495, 8505); (8508, 8511); (8517, 8521); (8526, 8526);
   (8528, 8585); (9312, 9371); (9450, 9471); (10102, 10131); (11264, 11492);
   (11499, 11502); (11506, 11507); (11517, 11517); (11520, 11557);
   (11559, 11559); (11565, 11565); (11568, 11623); (11631, 11631);
   (11648, 11670); (11680, 11686); (11688, 11694); (11696, 11702);
   (11704, 11710); (11712, 11718); (11720, 11726); (11728, 11734);
   (11736, 11742); (11823, 11823); (12293, 12295); (12321, 12329);
   (12337, 12341); (12344, 12348); (12353, 12438); (12445, 12447);
   (12449, 12538); (12540, 12543); (12549, 12591); (12593, 12686);
   (12690, 12693); (12704, 12735); (12784, 12799); (12832, 12841);
   (12872, 12879); (12881, 12895); (12928, 12937); (12977, 12991);
   (13312, 19903); (19968, 42124); (42192, 42237); (42240, 42508);
   (42512, 42539); (42560, 42606); (42623, 42653); (42656, 42735);
   (42775, 42783); (42786, 42888); (42891, 42954); (42960, 42961);
   (42963, 42963); (42965, 42969); (42994, 43009); (43011, 43013);
   (43015, 43018); (43020, 43042); (43056, 43061); (43072, 43123);
   (43138, 43187); (43216, 43225); (43250, 43255); (43259, 43259);
   (43261, 43262); (43264, 43301); (43312, 43334); (43360, 43388);
   (43396, 43442); (43471, 43481); (43488, 43492); (43494, 43518);
   (43520, 43560); (43584, 43586); (43588, 43595); (43600, 43609);
   (43616, 43638); (43642, 43642); (43646, 43695); (43697, 43697);
   (43701, 43702); (43705, 43709); (43712, 43712); (43714, 43714);
   (43739, 43741); (43744, 43754); (43762, 43764); (43777, 43782);
   (43785, 43790); (43793, 43798); (43808, 43814); (43816, 43822);
   (43824, 43866); (43868, 43881); (43888, 44002); (44016, 44025);
   (44032, 55203); (55216, 55238); (55243, 55291); (63744, 64109);
   (64112, 64217); (64256, 64262); (64275, 64279); (64285, 64285);
   (64287, 64296); (64298, 64310); (64312, 64316); (64318, 64318);
   (64320, 64321); (64323, 64324); (64326, 64433); (64467, 64829);
   (64848, 64911); (64914, 64967); (65008, 65019); (65136, 65140);
   (65142, 65276); (65296, 65305); (65313, 65338); (65345, 65370);
   (65382, 65470); (65474, 65479); (65482, 65487); (65490, 65495);
   (65498, 65500); (65536, 65547); (65549, 65574); (65576, 65594);
   (65596, 65597); (65599, 65613); (65616, 65629); (65664, 65786);
   (65799, 65843); (65856, 65912); (65930, 65931); (66176, 66204);
   (66208, 66256); (66273, 66299); (66304, 66339); (66349, 66378);
   (66384, 66421); (66432, 66461); (66464, 66499); (66504, 66511);
   (66513, 66517); (66560, 66717); (66720, 66729); (66736, 66771);
   (66776, 66811); (66816, 66855); (66864, 66915); (66928, 66938);
   (66940, 66954); (66956, 66962); (66964, 66965); (66967, 66977);
   (66979, 66993); (66995, 67001); (67003, 67004); (67072, 67382);
   (67392, 67413); (67424, 67431); (67456, 67461); (67463, 67504);
   (67506, 67514); (67584, 67589); (67592, 67592); (67594, 67637);
   (67639, 67640); (67644, 67644); (67647, 67669); (67672, 67702);
   (67705, 67742); (67751, 67759); (67808, 67826); (67828, 67829);
   (67835, 67867); (67872, 67897); (67968, 68023); (68028, 68047);
   (68050, 68096); (68112, 68115); (68117, 68119); (68121, 68149);
   (68160, 68168); (68192, 68222); (68224, 68255); (68288, 68295);
   (68297, 68324); (68331, 68335); (68352, 68405); (68416, 68437);
   (68440, 68466); (68472, 68497); (68521, 68527); (68608, 68680);
   (68736, 68786); (68800, 68850); (68858, 68899); (68912, 68921);
   (69216, 69246); (69248, 69289); (69296, 69297); (69376, 69415);
   (69424, 69445); (69457, 69460); (69488, 69505); (69552, 69579);
   (69600, 69622); (69635, 69687); (69714, 69743); (69745, 69746);
   (69749, 69749); (69763, 69807); (69840, 69864); (69872, 69881);
   (69891, 69926); (69942, 69951); (69956, 69956); (69959, 69959);
   (69968, 70002); (70006, 70006); (70019, 70066); (70081, 70084);
   (70096, 70106); (70108, 70108); (70113, 70132); (70144, 70161);
   (70163, 70187); (70272, 70278); (70280, 70280); (70282, 70285);
   (70287, 70301); (70303, 70312); (70320, 70366); (70384, 70393);
   (70405, 70412); (70415, 70416); (70419, 70440); (70442, 70448);
   (70450, 70451); (70453, 70457); (70461, 70461); (70480, 70480);
   (70493, 70497); (70656, 70708); (70727, 70730); (70736, 70745);
   (70751, 70753); (70784, 70831); (70852, 70853); (70855, 70855);
   (70864, 70873); (71040, 71086); (71128, 71131); (71168, 71215);
   (71236, 71236); (71248, 71257); (71296, 71338); (71352, 71352);
   (71360, 71369); (71424, 71450); (71472, 71483); (71488, 71494);
   (71680, 71723); (71840, 71922); (71935, 71942); (71945, 71945);
   (71948, 71955); (71957, 71958); (71960, 71983); (71999, 71999);
   (72001, 72001); (72016, 72025); (72096, 72103); (72106, 72144);
   (72161, 72161); (72163, 72163); (72192, 72192); (72203, 72242);
   (72250, 72250); (72272, 72272); (72284, 72329); (72349, 72349);
   (72368, 72440); (72704, 72712); (72714, 72750); (72768, 72768);
   (72784, 72812); (72818, 72847); (72960, 72966); (72968, 72969);
   (72971, 73008); (73030, 73030); (73040, 73049); (73056, 73061);
   (73063, 73064); (73066, 73097); (73112, 73112); (73120, 73129);
   (73440, 73458); (73648, 73648); (73664, 73684); (73728, 74649);
   (74752, 74862); (74880, 75075); (77712, 77808); (77824, 78894);
   (82944, 83526); (92160, 92728); (92736, 92766); (92768, 92777);
   (92784, 92862); (92864, 92873); (92880, 92909); (92928, 92975);
   (92992, 92995); (93008, 93017); (93019, 93025); (93027, 93047);
   (93053, 93071); (93760, 93846); (93952, 94026); (94032, 94032);
   (94099, 94111); (94176, 94177); (94179, 94179); (94208, 100343);
   (100352, 101589); (101632, 101640); (110576, 110579); (110581, 110587);
   (110589, 110590); (110592, 110882); (110928, 110930); (110948, 110951);
   (110960, 111355); (113664, 113770); (113776, 113788); (113792, 113800);
   (113808, 113817); (119520, 119539); (119648, 119672); (119808, 119892);
   (119894, 119964); (119966, 119967); (119970, 119970); (119973, 119974);
   (119977, 119980); (119982, 119993); (119995, 119995); (119997, 120003);
   (120005, 120069); (120071, 120074); (120077, 120084); (120086, 120092);
   (120094, 120121); (120123, 120126); (120128, 120132); (120134, 120134);
   (120138, 120144); (120146, 120485); (120488, 120512); (120514, 120538);
   (120540, 120570); (120572, 120596); (120598, 120628); (120630, 120654);
   (120656, 120686); (120688, 120712); (120714, 120744); (120746, 120770);
   (120772, 120779); (120782, 120831); (122624, 122654); (123136, 123180);
   (123191, 123197); (123200, 123209); (123214, 123214); (123536, 123565);
   (123584, 123627); (123632, 123641); (124896, 124902); (124904, 124907);
   (124909, 124910); (124912, 124926); (124928, 125124); (125127, 125135);
   (125184, 125251); (125259, 125259); (125264, 125273); (126065, 126123);
   (126125, 126127); (126129, 126132); (126209, 126253); (126255, 126269);
   (126464, 126467); (126469, 126495); (126497, 126498); (126500, 126500);
   (126503, 126503); (126505, 126514); (126516, 126519); (126521, 126521);
   (126523, 126523); (126530, 126530); (126535, 126535); (126537, 126537);
   (126539, 126539); (126541, 126543); (126545, 126546); (126548, 126548);
   (126551, 126551); (126553, 126553); (126555, 126555); (126557, 126557);
   (126559, 126559); (126561, 126562); (126564, 126564); (126567, 126570);
   (126572, 126578); (126580, 126583); (126585, 126588); (126590, 126590);
   (126592, 126601); (126603, 126619); (126625, 126627); (126629, 126633);
   (126635, 126651); (127232, 127244); (130032, 130041); (131072, 173791);
   (173824, 177976); (177984, 178205); (178208, 183969); (183984, 191456);
   (194560, 195101); (196608, 201546)
  ]%N.

Definition unicode_isalnum (c : N) : bool :=
  existsb (fun r => (fst r <=? c) && (c <=? snd r))%N alnum_ranges.

Section Matcher.
Variable fl : flags.

(** What a literal [x] of the pattern is compiled to under
    [re.IGNORECASE]: its lower case and the extra cases of that. *)
Definition lit_set (x : ascii) : list N :=
  let lo := unicode_tolower (point x) in lo :: extra_cases lo.

(** One member of a set against [ch], the code point of the text, lowered
    when the set is matched ignoring case. *)
Definition item_matches (i : citem) (ch : N) : bool :=
  match i with
  | IChar x =>
      if IGNORECASE fl then existsb (N.eqb ch) (lit_set x)
      else N.eqb ch (point x)
  | ISpace => unicode_isspace ch
  | IWord => unicode_isalnum ch || N.eqb ch 95
  end.

(** A set is matched ignoring case only when it has a cased literal. *)
Definition hascased (items : list citem) : bool :=
  existsb (fun i => match i with
                    | IChar x => unicode_iscased x
                    | ISpace | IWord => false
                    end) items.

Definition atom_matches (a : atom) (c : N) : bool :=
  match a with
  | Lit x =>
      if IGNORECASE fl && unicode_iscased x
      then existsb (N.eqb (unicode_tolower c)) (lit_set x)
      else N.eqb c (point x)
  | Dot => DOTALL fl || negb (N.eqb c 10)
  | Cls neg items =>
      let ch :=
        if IGNORECASE fl && hascased items then unicode_tolower c else c in
      xorb neg (existsb (fun i => item_matches i ch) items)
  end.

Variable A : Type.

Fixpoint star_greedy (p : N -> bool) (s : ustr)
         (k : ustr -> option A) : option A :=
  match s with
  | c :: s' =>
      if p c then
        match star_greedy p s' k with
        | Some x => Some x
        | None => k s
        end
      else k s
  | [] => k s
  end.

Fixpoint star_lazy (p : N -> bool) (s : ustr)
         (k : ustr -> option A) : option A :=
  match k s with
  | Some x => Some x
  | None =>
      match s with
      | c :: s' => if p c then star_lazy p s' k else None
      | [] => None
      end
  end.

(** The backtracking matcher of [Re.run], on code points. *)
Fixpoint run (r : regex) (s : ustr) (g : option ustr)
         (k : ustr -> option ustr -> option A) : option A :=
  match r with
  | Eps => k s g
  | Atom a =>
      match s with
      | c :: s' => if atom_matches a c then k s' g else None
      | [] => None
      end
  | Seq r1 r2 => run r1 s g (fun s' g' => run r2 s' g' k)
  | Alt r1 r2 =>
      match run r1 s g k with
      | Some x => Some x
      | None => run r2 s g k
      end
  | Star true a => star_greedy (atom_matches a) s (fun s' => k s' g)
  | Star false a => star_lazy (atom_matches a) s (fun s' => k s' g)
  | Opt r1 =>
      match run r1 s g k with
      | Some x => Some x
      | None => k s g
      end
  | Group r1 =>
      run r1 s g
          (fun s' _ => k s' (Some (firstn (length s - length s') s)))
  end.
End Matcher.

Record Match : Type := { group0 : ustr; group1 : option ustr }.

(** One attempt at the head of [s]. *)
Definition match_at (fl : flags) (r : regex) (s : ustr) : option Match :=
  run fl r s None
      (fun s' g =>
         Some {| group0 := firstn (length s - length s') s; group1 := g |}).

(** [re.search(r, s, flags)]: the match at the leftmost position that
    has one. *)
Fixpoint search (fl : flags) (r : regex) (s : ustr) : option Match :=
  match match_at fl r s with
  | Some m => Some m
  | None =>
      match s with
      | _ :: s' => search fl r s'
      | [] => None
      end
  end.

Definition found (r : regex) (content : ustr) : bool :=
  match search ignorecase r content with
  | Some _ => true
  | None => false
  end.

(** [identify_security_patterns] (ingestion_sol.py, lines 65-84) on
    arbitrary text: the dict of patterns of [SolidityParser], each
    searched with [re.IGNORECASE]; the names of the patterns found, in
    the order of the dict. *)
Definition identify_security_patterns (content : ustr) : list str :=
  map fst (filter (fun p => found (snd p) content) SolidityParser.patterns).

(** *** What a pattern denotes on code points *)
Inductive Matches (fl : flags)
  : regex -> ustr -> option ustr -> option ustr -> Prop :=
| MEps g : Matches fl Eps [] g g
| MAtom a c g : atom_matches fl a c = true -> Matches fl (Atom a) [c] g g
| MSeq r1 r2 s1 s2 g g1 g2 :
    Matches fl r1 s1 g g1 -> Matches fl r2 s2 g1 g2 ->
    Matches fl (Seq r1 r2) (s1 ++ s2) g g2
| MAltL r1 r2 s g g' : Matches fl r1 s g g' -> Matches fl (Alt r1 r2) s g g'
| MAltR r1 r2 s g g' : Matches fl r2 s g g' -> Matches fl (Alt r1 r2) s g g'
| MStar b a s g :
    forallb (atom_matches fl a) s = true -> Matches fl (Star b a) s g g
| MOptSome r s g g' : Matches fl r s g g' -> Matches fl (Opt r) s g g'
| MOptNone r g : Matches fl (Opt r) [] g g
| MGroup r s g g' : Matches fl r s g g' -> Matches fl (Group r) s g (Some s).

(** The pattern occurs somewhere in the text. *)
Definition occurs (fl : flags) (r : regex) (s : ustr) : Prop :=
  exists pre mid post g,
    s = pre ++ mid ++ post /\ Matches fl r mid None g.

End Unicode.


(** ** The f-string templates of LangChain's prompt classes

    [str.format] syntax as [string.Formatter] parses it: a doubled brace is
    a literal brace, [{name}] is replaced by the keyword argument [name].
    The program only ever builds templates with plain names; a replacement
    field with a conversion, a format specification, an attribute or an
    index is outside the embedding and is reported as an error. *)

Module Template.

Definition lbrace : ascii := "{"%char.
Definition rbrace : ascii := "}"%char.

Inductive piece : Type :=
| PChar (c : ascii)
| PField (name : str).

Inductive mode : Type :=
| Text
| Field (acc : str).

Definition field_special (c : ascii) : bool :=
  ascii_eqb c ":"%char || ascii_eqb c "!"%char
  || ascii_eqb c "."%char || ascii_eqb c "["%char.

Definition emit (p : piece) (r : Result (list piece)) : Result (list piece) :=
  match r with
  | Ok ps => Ok (p :: ps)
  | Raise e => Raise e
  end.

(** [Formatter().parse(template)], one character at a time; in mode
    [Field acc] the scan is inside a replacement field whose name so far
    is [rev acc]. *)
Fixpoint parse (s : str) (md : mode) : Result (list piece) :=
  match md with
  | Text =>
      match s with
      | [] => Ok []
      | c :: s' =>
          if ascii_eqb c lbrace then
            match s' with
            | [] => Raise (txt "Single '{' encountered in format string")
            | c2 :: s'' =>
                if ascii_eqb c2 lbrace then emit (PChar lbrace) (parse s'' Text)
                else parse s' (Field [])
            end
          else if ascii_eqb c rbrace then
            match s' with
            | [] => Raise (txt "Single '}' encountered in format string")
            | c2 :: s'' =>
                if ascii_eqb c2 rbrace then emit (PChar rbrace) (parse s'' Text)
                else Raise (txt "Single '}' encountered in format string")
            end
          else emit (PChar c) (parse s' Text)
      end
  | Field acc =>
      match s with
      | [] => Raise (txt "expected '}' before end of string")
      | c :: s' =>
          if ascii_eqb c rbrace then emit (PField (rev acc)) (parse s' Text)
          else if ascii_eqb c lbrace then
            Raise (txt "unexpected '{' in field name")
          else if field_special c then
            Raise (txt "replacement field outside the embedding")
          else parse s' (Field (c :: acc))
      end
  end.

Definition kwargs := list (str * str).

Fixpoint get_value (name : str) (kw : kwargs) : Result str :=
  match kw with
  | [] => Raise (txt "'" ++ name ++ txt "'")
  | (k, v) :: kw' => if str_eqb k name then Ok v else get_value name kw'
  end.

Definition is_digit (c : ascii) : bool := in_range 48 57 (code c).

(** [Formatter.get_field]: an empty or numeric name indexes the
    positional arguments, of which there are none. *)
Definition get_field (name : str) (kw : kwargs) : Result str :=
  if forallb is_digit name then
    Raise (txt "Replacement index " ++ (match name with [] => txt "0" | _ => name end)
           ++ txt " out of range for positional args tuple")
  else get_value name kw.

Fixpoint render (ps : list piece) (kw : kwargs) : Result str :=
  match ps with
  | [] => Ok []
  | PChar c :: ps' =>
      match render ps' kw with
      | Ok s => Ok (c :: s)
      | Raise e => Raise e
      end
  | PField name :: ps' =>
      match get_field name kw with
      | Raise e => Raise e
      | Ok v =>
          match render ps' kw with
          | Ok s => Ok (v ++ s)
          | Raise e => Raise e
          end
      end
  end.

(** A message prompt template: [from_template] parses the text to find
    its input variables, [format] parses it again and substitutes. *)
Record PromptTemplate : Type := { template : str }.

Definition from_template (t : str) : Result PromptTemplate :=
  match parse t Text with
  | Ok _ => Ok {| template := t |}
  | Raise e => Raise e
  end.

Definition format (p : PromptTemplate) (kw : kwargs) : Result str :=
  match parse (template p) Text with
  | Ok ps => render ps kw
  | Raise e => Raise e
  end.

End Template.

(** ** Messages, documents and the collaborators *)

Inductive Message : Type :=
| SystemMessage (content : str)
| HumanMessage (content : str)
| AIMessage (content : str).

Definition message_content (m : Message) : str :=
  match m with
  | SystemMessage c | HumanMessage c | AIMessage c => c
  end.

(** The metadata dict stored with a chunk.  The entries the chatbot reads
    with [dict.get] and a default are optional. *)
Record DocMetadata : Type := {
  file_path : option str;
  file_hash : option str;
  chunk_index : nat;
  total_chunks : nat;
  contracts : option (list str);
  functions : option (list str);
  security_patterns : option (list str);
  pragma : option str;
  content_type : str
}.

Record Document : Type := {
  page_content : str;
  metadata : DocMetadata
}.

(** The behaviour of the collaborators that hold no state of their own. *)
Record Env : Type := {
  (** [RecursiveCharacterTextSplitter(chunk_size, chunk_overlap,
      separators).split_text] *)
  split_text : str -> list str;
  (** [hashlib.md5(content.encode()).hexdigest()] *)
  md5_hexdigest : str -> str;
  (** how close a stored text is to a query under the embedding *)
  similarity : str -> str -> nat;
  (** [self.llm.ainvoke]: the content of the reply, or the failure *)
  ainvoke : list Message -> Result str;
  (** [datetime.now().isoformat()] *)
  now_isoformat : str;
  (** [settings.top_k_results] and [settings.pinecone_index_name] *)
  top_k_results : nat;
  pinecone_index_name : str
}.

Inductive Api : Type := ListIndexes | CreateIndex | SimilaritySearch | AddTexts.

(** The Pinecone side: the indexes, the vectors of the index the program
    uses, and which requests currently fail and with what message. *)
Record Pinecone : Type := {
  indexes : list str;
  vectors : list Document;
  failing : Api -> option str
}.

(** One request to a collaborator. *)
Inductive Call : Type :=
| CallListIndexes
| CallCreateIndex (name : str)
| CallSimilaritySearch (query : str) (k : nat) (filter : option str)
| CallAddTexts (texts : list str)
| CallAinvoke (messages : list Message).

(** The state of the process: the module-level [ingestion_service] and
    [audit_bot], the remote index, and the requests made so far. *)
Record World : Type := {
  pc : Pinecone;
  vector_store : bool;
  conversation_history : list Message;
  calls : list Call
}.

Definition M (A : Type) : Type := World -> Result A * World.

Definition ret {A} (a : A) : M A := fun w => (Ok a, w).

Definition raise {A} (e : str) : M A := fun w => (Raise e, w).

Definition bind {A B} (m : M A) (f : A -> M B) : M B :=
  fun w =>
    match m w with
    | (Ok a, w') => f a w'
    | (Raise e, w') => (Raise e, w')
    end.

(** [try: m  except Exception as e: h(str(e))] *)
Definition try_except {A} (m : M A) (h : str -> M A) : M A :=
  fun w =>
    match m w with
    | (Ok a, w') => (Ok a, w')
    | (Raise e, w') => h e w'
    end.

Definition lift {A} (r : Result A) : M A := fun w => (r, w).

Declare Scope monad_scope.
Delimit Scope monad_scope with monad.
Notation "x <- m ;; k" := (bind m (fun x => k))
  (at level 100, m at next level, right associativity) : monad_scope.
Notation "m ;;; k" := (bind m (fun _ => k))
  (at level 100, right associativity) : monad_scope.
Open Scope monad_scope.

Definition system_prompt : str := txt
"You are an expert Smart Contract Security Auditor with deep knowledge of Solidity, blockchain security, and common vulnerabilities. Your role is to help users analyze smart contracts for security issues, best practices, and potential improvements.

CORE CAPABILITIES:
1. Security Vulnerability Detection (Reentrancy, Integer Overflow/Underflow, Access Control, etc.)
2. Gas Optimization Analysis
3. Code Quality Assessment
4. Best Practices Recommendations
5. Compliance Checking (ERC standards, etc.)

AUDIT METHODOLOGY:
- Always provide specific line references when discussing code
- Categorize findings by severity: CRITICAL, HIGH, MEDIUM, LOW, INFORMATIONAL
- Explain the potential impact and exploitation scenarios
- Suggest specific remediation steps
- Consider both automated and manual testing approaches

RESPONSE FORMAT:
- Start with a brief summary of findings
- Provide detailed analysis with code references
- Include severity ratings and risk assessments
- Offer concrete remediation suggestions
- Mention relevant tools and testing strategies

SECURITY FOCUS AREAS:
- Reentrancy attacks and state changes
- Access control and authorization
- Integer arithmetic and overflow protection
- External call safety
- Randomness and timestamp dependencies
- Front-running and MEV considerations
- Gas limit and DoS vulnerabilities
- Upgrade patterns and proxy security

Always be thorough, precise, and educational in your responses. When analyzing provided contract code, reference specific functions, variables, and patterns you observe.".

Definition nl : str := ["010"%char].

Section Program.
Variable E : Env.

(** *** The collaborators' requests *)

Definition record_call (c : Call) : M unit :=
  fun w =>
    (Ok tt,
     {| pc := pc w; vector_store := vector_store w;
        conversation_history := conversation_history w;
        calls := calls w ++ [c] |}).

Definition request {A} (api : Api) (c : Call) (answer : Pinecone -> A) : M A :=
  record_call c ;;;
  fun w =>
    match failing (pc w) api with
    | Some e => (Raise e, w)
    | None => (Ok (answer (pc w)), w)
    end.

Definition update_pc (f : Pinecone -> Pinecone) : M unit :=
  fun w =>
    (Ok tt,
     {| pc := f (pc w); vector_store := vector_store w;
        conversation_history := conversation_history w;
        calls := calls w |}).

(** [self.pc.list_indexes()] *)
Definition list_indexes : M (list str) :=
  request ListIndexes CallListIndexes indexes.

(** [self.pc.create_index(name=..., ...)] *)
Definition create_index (name : str) : M unit :=
  request CreateIndex (CallCreateIndex name) (fun _ => tt) ;;;
  update_pc (fun p => {| indexes := indexes p ++ [name];
                         vectors := vectors p;
                         failing := failing p |}).

Definition has_hash (h : str) (d : Document) : bool :=
  match file_hash (metadata d) with
  | Some h' => str_eqb h' h
  | None => false
  end.

Fixpoint insert_ranked (q : str) (d : Document) (l : list Document)
  : list Document :=
  match l with
  | [] => [d]
  | x :: l' =>
      if similarity E q (page_content x) <? similarity E q (page_content d)
      then d :: l
      else x :: insert_ranked q d l'
  end.

Definition ranked (q : str) (l : list Document) : list Document :=
  fold_right (insert_ranked q) [] l.

(** [self.vector_store.similarity_search(query, k=k, filter={"file_hash": h})]:
    the [k] stored documents closest to the query among those that pass
    the filter. *)
Definition similarity_search (query : str) (k : nat) (filter_hash : option str)
  : M (list Document) :=
  request SimilaritySearch (CallSimilaritySearch query k filter_hash)
    (fun p =>
       let candidates :=
         match filter_hash with
         | Some h => filter (has_hash h) (vectors p)
         | None => vectors p
         end in
       firstn k (ranked query candidates)).

(** [self.vector_store.add_texts(texts=..., metadatas=...)] *)
Definition add_texts (texts : list str) (metadatas : list DocMetadata) : M unit :=
  request AddTexts (CallAddTexts texts) (fun _ => tt) ;;;
  update_pc (fun p =>
    {| indexes := indexes p;
       vectors := vectors p
                  ++ map (fun tm => {| page_content := fst tm; metadata := snd tm |})
                         (combine texts metadatas);
       failing := failing p |}).

(** ** [class ContractIngestionService] *)

Definition set_vector_store : M unit :=
  fun w =>
    (Ok tt,
     {| pc := pc w; vector_store := true;
        conversation_history := conversation_history w;
        calls := calls w |}).

Definition get_vector_store : M bool := fun w => (Ok (vector_store w), w).

(** [initialize_vector_store] (ingestion_sol.py, lines 106-131): create
    the index when it is missing, then make the store handle; any failure
    is raised again as [Failed to initialize vector store: ...]. *)
Definition initialize_vector_store : M unit :=
  try_except
    (existing_indexes <- list_indexes ;;
     (if existsb (str_eqb (pinecone_index_name E)) existing_indexes
      then ret tt
      else create_index (pinecone_index_name E)) ;;;
     set_vector_store)
    (fun e => raise (txt "Failed to initialize vector store: " ++ e)).

(** [generate_file_hash] (lines 133-135) *)
Definition generate_file_hash (content : str) : str := md5_hexdigest E content.

Inductive ProcessResult : Type :=
| Processed (path hash : str) (chunks_count : nat)
            (md : SolidityParser.Metadata) (patterns : list str)
            (documents : list Document)
| ProcessFailed (path error : str).

(** [enumerate(chunks)] from index [i] on *)
Fixpoint documents_from (path hash : str) (md : SolidityParser.Metadata)
         (patterns : list str) (total : nat) (i : nat) (chunks : list str)
  : list Document :=
  match chunks with
  | [] => []
  | chunk :: rest =>
      {| page_content := chunk;
         metadata :=
           {| file_path := Some path;
              file_hash := Some hash;
              chunk_index := i;
              total_chunks := total;
              contracts := Some (SolidityParser.contracts md);
              functions := Some (firstn 10 (SolidityParser.functions md));
              security_patterns := Some patterns;
              pragma := SolidityParser.pragma md;
              content_type := txt "solidity_contract" |} |}
      :: documents_from path hash md patterns total (S i) rest
  end.

(** [process_contract_file] (lines 137-184); its [try] covers the whole
    body, so a failure of the parser becomes the failure dict. *)
Definition process_contract_file (path content : str) : ProcessResult :=
  match SolidityParser.extract_metadata content with
  | Raise e => ProcessFailed path e
  | Ok md =>
      let patterns := SolidityParser.identify_security_patterns content in
      let hash := generate_file_hash content in
      let chunks := split_text E content in
      let documents :=
        documents_from path hash md patterns (length chunks) 0 chunks in
      Processed path hash (length chunks) md patterns documents
  end.

(** The dicts [ingest_contract] returns, by shape. *)
Inductive IngestResult : Type :=
| Skipped (message hash : str)
| Ingested (message path hash : str) (chunks_added : nat)
           (md : SolidityParser.Metadata) (patterns : list str)
| IngestFailed (path : option str) (error : str).

Definition ingest_success (r : IngestResult) : bool :=
  match r with
  | Skipped _ _ | Ingested _ _ _ _ _ _ => true
  | IngestFailed _ _ => false
  end.

Definition ingest_action (r : IngestResult) : option str :=
  match r with
  | Skipped _ _ => Some (txt "skipped")
  | Ingested _ _ _ _ _ _ => Some (txt "ingested")
  | IngestFailed _ _ => None
  end.

(** [if not self.vector_store: await self.initialize_vector_store()] *)
Definition ensure_vector_store : M unit :=
  vs <- get_vector_store ;;
  if vs then ret tt else initialize_vector_store.

(** [ingest_contract] (lines 186-237).  The initialisation and the
    processing come before the [try]; the lookup by hash and the insertion
    are inside it. *)
Definition ingest_contract (path content : str) : M IngestResult :=
  ensure_vector_store ;;;
  match process_contract_file path content with
  | ProcessFailed p e => ret (IngestFailed (Some p) e)
  | Processed _ hash _ md patterns documents =>
      try_except
        (existing_docs <-
           similarity_search (txt "file_hash:" ++ hash) 1 (Some hash) ;;
         match existing_docs with
         | _ :: _ =>
             ret (Skipped (txt "Contract already exists in database") hash)
         | [] =>
             let texts := map page_content documents in
             let metadatas := map metadata documents in
             add_texts texts metadatas ;;;
             ret (Ingested (txt "Contract successfully ingested") path hash
                           (length texts) md patterns)
         end)
        (fun e => ret (IngestFailed None (txt "Failed to ingest contract: " ++ e)))
  end.

Record SearchHit : Type := {
  hit_content : str;
  hit_metadata : DocMetadata;
  relevance_score : option nat
}.

(** [k or self.settings.top_k_results] *)
Definition k_or_default (k : option nat) : nat :=
  match k with
  | Some (S n) => S n
  | Some O | None => top_k_results E
  end.

(** [search_contracts] (lines 252-273); the handler raises again. *)
Definition search_contracts (query : str) (k : option nat) : M (list SearchHit) :=
  ensure_vector_store ;;;
  let k' := k_or_default k in
  try_except
    (docs <- similarity_search query k' None ;;
     ret (map (fun doc => {| hit_content := page_content doc;
                             hit_metadata := metadata doc;
                             relevance_score := None |}) docs))
    (fun e => raise (txt "Search failed: " ++ e)).

(** ** [class SmartContractAuditBot] *)

Definition NO_CONTEXT : str :=
  txt "No relevant contract context found in the database.".

Definition escape_braces (s : str) : str :=
  replace "}"%char (txt "}}") (replace "{"%char (txt "{{") s).

Definition system_template_of (safe_context : str) : str :=
  system_prompt ++ nl ++ nl
  ++ txt "RELEVANT CONTRACT CONTEXT:" ++ nl
  ++ safe_context ++ nl ++ nl
  ++ txt "Based on the above context and your expertise, provide a comprehensive audit response to the user's query.".

Definition human_template : str :=
  txt "User Query: {query}" ++ nl ++ nl
  ++ txt "Please analyze the provided smart contract context and address the user's specific question or concern."
  ++ nl
  ++ txt "Focus on security implications, best practices, and actionable recommendations.".

(** [ChatPromptTemplate.from_messages([System..., Human...])] *)
Record ChatPromptTemplate : Type := {
  system_message_prompt : Template.PromptTemplate;
  human_message_prompt : Template.PromptTemplate
}.

(** [_create_audit_prompt] (lines 75-97).  [safe_user_query] is computed
    and not used: the human template keeps its [{query}] field and the
    query is given to [format_messages]. *)
Definition _create_audit_prompt (user_query context : str)
  : Result ChatPromptTemplate :=
  let safe_user_query := escape_braces user_query in
  let safe_context := escape_braces context in
  match Template.from_template (system_template_of safe_context) with
  | Raise e => Raise e
  | Ok sys =>
      match Template.from_template human_template with
      | Raise e => Raise e
      | Ok hum =>
          Ok {| system_message_prompt := sys; human_message_prompt := hum |}
      end
  end.

(** [prompt.format_messages] with keyword arguments [kw] *)
Definition format_messages (p : ChatPromptTemplate) (kw : Template.kwargs)
  : Result (list Message) :=
  match Template.format (system_message_prompt p) kw with
  | Raise e => Raise e
  | Ok s =>
      match Template.format (human_message_prompt p) kw with
      | Raise e => Raise e
      | Ok h => Ok [SystemMessage s; HumanMessage h]
      end
  end.

Definition get_or {A} (o : option A) (d : A) : A :=
  match o with Some a => a | None => d end.

Definition context_part (i : nat) (result : SearchHit) : str :=
  let md := hit_metadata result in
  nl ++ txt "--- Contract Context " ++ str_of_nat i ++ txt " ---" ++ nl
  ++ txt "File: " ++ get_or (file_path md) (txt "Unknown") ++ nl
  ++ txt "Contracts: " ++ join (txt ", ") (get_or (contracts md) []) ++ nl
  ++ txt "Functions: " ++ join (txt ", ") (firstn 5 (get_or (functions md) [])) ++ nl
  ++ txt "Security Patterns: "
  ++ join (txt ", ") (get_or (security_patterns md) []) ++ nl
  ++ nl
  ++ txt "Code:" ++ nl
  ++ hit_content result ++ nl.

(** [enumerate(search_results, i)] mapped to the context parts *)
Fixpoint context_parts (i : nat) (results : list SearchHit) : list str :=
  match results with
  | [] => []
  | r :: rest => context_part i r :: context_parts (S i) rest
  end.

(** [get_relevant_context] (chatbot_sol.py, lines 99-131); the handler
    returns the error text as the context. *)
Definition get_relevant_context (query : str) : M str :=
  try_except
    (search_results <- search_contracts query (Some (top_k_results E)) ;;
     match search_results with
     | [] => ret NO_CONTEXT
     | _ :: _ => ret (join nl (context_parts 1 search_results))
     end)
    (fun e => ret (txt "Error retrieving context: " ++ e)).

(** The dicts [chat] returns, by shape. *)
Inductive ChatResult : Type :=
| ChatOk (response : str) (context_used : bool) (timestamp : str)
| ChatFailed (error : str).


Definition get_history : M (list Message) :=
  fun w => (Ok (conversation_history w), w).

(** [self.conversation_history.append(m)] *)
Definition append_history (m : Message) : M unit :=
  fun w =>
    (Ok tt,
     {| pc := pc w; vector_store := vector_store w;
        conversation_history := conversation_history w ++ [m];
        calls := calls w |}).

(** [await self.llm.ainvoke(messages)] *)
Definition llm_ainvoke (messages : list Message) : M str :=
  record_call (CallAinvoke messages) ;;;
  lift (ainvoke E messages).

(** [context and context != "No relevant ..."] *)
Definition has_context (context : str) : bool :=
  match context with
  | [] => false
  | _ :: _ => negb (str_eqb context NO_CONTEXT)
  end.

(** The [if]/[else] of [chat] that builds [messages_to_send]. *)
Definition messages_to_send (user_message context : str)
  : Result (list Message) :=
  if has_context context then
    match _create_audit_prompt user_message context with
    | Raise e => Raise e
    | Ok prompt => format_messages prompt [(txt "query", user_message)]
    end
  else Ok [SystemMessage system_prompt; HumanMessage user_message].

(** [chat] (lines 133-170) *)
Definition chat (user_message : str) (include_context : bool) : M ChatResult :=
  try_except
    (context <- (if include_context then get_relevant_context user_message
                 else ret []) ;;
     messages <- lift (messages_to_send user_message context) ;;
     history <- get_history ;;
     let full_messages := last_n 10 history ++ messages in
     response <- llm_ainvoke full_messages ;;
     append_history (HumanMessage user_message) ;;;
     append_history (AIMessage response) ;;;
     ret (ChatOk response (has_context context) (now_isoformat E)))
    (fun e => ret (ChatFailed (txt "Chat failed: " ++ e))).

(** [clear_conversation] (lines 282-284) *)
Definition clear_conversation : M unit :=
  fun w =>
    (Ok tt,
     {| pc := pc w; vector_store := vector_store w;
        conversation_history := [];
        calls := calls w |}).

End Program.

(** ** Vocabulary of the statements *)

(** The requests made to the chat model, oldest first. *)
Fixpoint llm_requests (cs : list Call) : list (list Message) :=
  match cs with
  | [] => []
  | CallAinvoke ms :: cs' => ms :: llm_requests cs'
  | _ :: cs' => llm_requests cs'
  end.

(** The requests made to the vector store's search, oldest first. *)
Fixpoint search_requests (cs : list Call) : list (str * nat * option str) :=
  match cs with
  | [] => []
  | CallSimilaritySearch q k f :: cs' => (q, k, f) :: search_requests cs'
  | _ :: cs' => search_requests cs'
  end.

(** The texts handed to the vector store for insertion, oldest first. *)
Fixpoint add_requests (cs : list Call) : list (list str) :=
  match cs with
  | [] => []
  | CallAddTexts ts :: cs' => ts :: add_requests cs'
  | _ :: cs' => add_requests cs'
  end.

(** No request to Pinecone fails. *)
Definition healthy (w : World) : Prop :=
  forall api, failing (pc w) api = None.

(** Some stored vector carries the hash. *)
Definition hash_stored (h : str) (w : World) : bool :=
  existsb (has_hash h) (vectors (pc w)).

Definition all_space (s : str) : Prop := forallb isspace s = true.

(** The code points [re.IGNORECASE] takes for the ASCII character [x] of
    a pattern: the character itself and, for a letter, the letter in the
    other case; beyond these, LATIN CAPITAL LETTER I WITH DOT ABOVE
    (U+0130) and LATIN SMALL LETTER DOTLESS I (U+0131) for [i], LATIN
    SMALL LETTER LONG S (U+017F) for [s] and KELVIN SIGN (U+212A) for
    [k]. *)
Definition variants (x : ascii) : list N :=
  [Unicode.point x]
  ++ (if is_upper x then [Unicode.point x + 32] else [])%N
  ++ (if is_lower x then [Unicode.point x - 32] else [])%N
  ++ (if ascii_eqb (lower x) "i"%char then [304; 305] else [])%N
  ++ (if ascii_eqb (lower x) "s"%char then [383] else [])%N
  ++ (if ascii_eqb (lower x) "k"%char then [8490] else [])%N.

Definition same_letter (x : ascii) (c : N) : bool :=
  existsb (N.eqb c) (variants x).

(** [s] spells the ASCII word [word], each letter in one of its
    variants. *)
Definition spelled (word : str) (s : Unicode.ustr) : Prop :=
  Forall2 (fun x c => same_letter x c = true) word s.

(** [needle] occurs in [text], as [re.IGNORECASE] compares. *)
Definition contains_ci (needle : str) (text : Unicode.ustr) : Prop :=
  exists pre mid post, text = pre ++ mid ++ post /\ spelled needle mid.

Definition all_unicode_space (s : Unicode.ustr) : Prop :=
  forallb Unicode.unicode_isspace s = true.

(** [require], optional whitespace, [(], optional whitespace, [msg.sender]
    occurs in [text], as [re.IGNORECASE] compares. *)
Definition contains_require_sender (text : Unicode.ustr) : Prop :=
  exists pre kw ws1 ws2 who post,
    text = pre ++ kw ++ ws1 ++ [40%N] ++ ws2 ++ who ++ post
    /\ spelled (txt "require") kw
    /\ all_unicode_space ws1 /\ all_unicode_space ws2
    /\ spelled (txt "msg.sender") who.

(** The access-control pattern as the specification words it: only
    [onlyOwner] and [require(msg.sender], whitespace allowed around the
    parenthesis and the dot. *)
Definition spec_access_control : Re.regex :=
  SolidityParser.alts (SolidityParser.L "onlyOwner")
    [SolidityParser.seqs
       [SolidityParser.L "require"; SolidityParser.space_star;
        SolidityParser.C "("; SolidityParser.space_star;
        SolidityParser.L "msg"; SolidityParser.space_star;
        SolidityParser.C "."; SolidityParser.space_star;
        SolidityParser.L "sender"]].

(** [rest] starts with a statement [pragma solidity X;]. *)
Definition pragma_line (X rest : str) : Prop :=
  exists ws1 ws2 post,
    rest = txt "pragma" ++ ws1 ++ txt "solidity" ++ ws2 ++ X ++ txt ";" ++ post
    /\ ws1 <> [] /\ all_space ws1
    /\ ws2 <> [] /\ all_space ws2
    /\ X <> [] /\ ~ In ";"%char X.

(** The first statement [pragma solidity X;] of [text] starts after [pre]. *)
Definition first_pragma_line (text pre X : str) : Prop :=
  exists rest,
    text = pre ++ rest /\ pragma_line X rest
    /\ forall pre' rest' X',
         text = pre' ++ rest' -> length pre' < length pre ->
         ~ pragma_line X' rest'.

Definition no_pragma_line (text : str) : Prop :=
  forall pre rest X, text = pre ++ rest -> ~ pragma_line X rest.

(** *** A small environment to run the program in *)

(** Chunks of four characters; like the splitter of the program it gives
    no chunk for the empty text. *)
Fixpoint chunks_of_four (fuel : nat) (s : str) : list str :=
  match fuel with
  | O => []
  | S f =>
      match s with
      | [] => []
      | _ :: _ => firstn 4 s :: chunks_of_four f (skipn 4 s)
      end
  end.

Definition demo_env : Env :=
  {| split_text := fun s => chunks_of_four (length s) s;
     md5_hexdigest := fun s => txt "digest-" ++ s;
     similarity := fun _ d => length d;
     ainvoke := fun ms => Ok (txt "reply #" ++ str_of_nat (length ms));
     now_isoformat := txt "2024-01-01T00:00:00";
     top_k_results := 5;
     pinecone_index_name := txt "solidity-analyzer-v1" |}.

(** The same, with a chat model that is down. *)
Definition demo_env_llm_down : Env :=
  {| split_text := split_text demo_env;
     md5_hexdigest := md5_hexdigest demo_env;
     similarity := similarity demo_env;
     ainvoke := fun _ => Raise (txt "Connection error.");
     now_isoformat := now_isoformat demo_env;
     top_k_results := top_k_results demo_env;
     pinecone_index_name := pinecone_index_name demo_env |}.

Definition no_failure : Api -> option str := fun _ => None.

Definition search_down : Api -> option str :=
  fun api =>
    match api with
    | SimilaritySearch => Some (txt "503 Service Unavailable")
    | _ => None
    end.

(** A started process over an empty index. *)
Definition demo_world : World :=
  {| pc := {| indexes := [txt "solidity-analyzer-v1"];
              vectors := [];
              failing := no_failure |};
     vector_store := true;
     conversation_history := [];
     calls := [] |}.

Definition demo_world_search_down : World :=
  {| pc := {| indexes := [txt "solidity-analyzer-v1"];
              vectors := [];
              failing := search_down |};
     vector_store := true;
     conversation_history := [];
     calls := [] |}.


(** ** Vocabulary of the proofs *)

(** A check of all 256 characters. *)
Definition all_ascii (f : ascii -> bool) : bool :=
  forallb (fun n => f (ascii_of_nat n)) (seq 0 256).

Definition is_ascii (x : ascii) : bool := code x <? 128.

(** Where a code point with the lower case [l] can be: [l] itself, or in
    a run of the table, at the distance of the run. *)
Definition candidates (l : N) : list N :=
  l :: map (fun r => let '(first, _, _, image) := r in first + (l - image))%N
           Unicode.lower_runs.

(** The code points with the lower case [l]. *)
Definition preimage (l : N) : list N :=
  filter (fun c => N.eqb (Unicode.unicode_tolower c) l) (candidates l).

(** The check of [same_letter] against the matcher, for one character of
    a pattern. *)
Definition lit_checked (x : ascii) : bool :=
  (if Unicode.unicode_iscased x
   then forallb (same_letter x)
                (flat_map preimage (Unicode.lit_set x))
   else match variants x with
        | [c] => N.eqb c (Unicode.point x)
        | _ => false
        end)
  && forallb (Unicode.atom_matches Re.ignorecase (Re.Lit x)) (variants x).

(** The atoms of a pattern. *)
Fixpoint atoms (r : Re.regex) : list Re.atom :=
  match r with
  | Re.Eps => []
  | Re.Atom a | Re.Star _ a => [a]
  | Re.Seq r1 r2 | Re.Alt r1 r2 => atoms r1 ++ atoms r2
  | Re.Opt r1 | Re.Group r1 => atoms r1
  end.

(** On every character the two matchers agree about the atom. *)
Definition agree_below_256 (a : Re.atom) : bool :=
  all_ascii (fun c => Bool.eqb (Unicode.atom_matches Re.ignorecase a
                                  (Unicode.point c))
                               (Re.atom_matches Re.ignorecase a c)).

Definition is_found {A} (o : option A) : bool :=
  match o with
  | Some _ => true
  | None => false
  end.

(** The pattern denotes a prefix of the text. *)
Definition matches_prefix (fl : Re.flags) (r : Re.regex) (s : str) : Prop :=
  exists s1 s2 g, s = s1 ++ s2 /\ Re.Matches fl r s1 None g.

(** The patterns all of whose matches set group 1. *)
Fixpoint always_captures (r : Re.regex) : bool :=
  match r with
  | Re.Eps | Re.Atom _ | Re.Star _ _ | Re.Opt _ => false
  | Re.Seq r1 r2 => always_captures r1 || always_captures r2
  | Re.Alt r1 r2 => always_captures r1 && always_captures r2
  | Re.Group _ => true
  end.

Definition not_semicolon (c : ascii) : bool := negb (ascii_eqb c ";"%char).

Definition not_brace (c : ascii) : bool :=
  negb (ascii_eqb c Template.lbrace) && negb (ascii_eqb c Template.rbrace).

(** The pieces of a run of literal characters, put before a result. *)
Definition emits (s : str) (r : Result (list Template.piece))
  : Result (list Template.piece) :=
  match r with
  | Ok ps => Ok (map Template.PChar s ++ ps)
  | Raise e => Raise e
  end.

(** The fixed text around the context in the system template, and after
    the query in the human template. *)
Definition context_heading : str :=
  system_prompt ++ nl ++ nl ++ txt "RELEVANT CONTRACT CONTEXT:" ++ nl.

Definition context_closing : str :=
  nl ++ nl
  ++ txt "Based on the above context and your expertise, provide a comprehensive audit response to the user's query.".

Definition human_closing : str :=
  nl ++ nl
  ++ txt "Please analyze the provided smart contract context and address the user's specific question or concern."
  ++ nl
  ++ txt "Focus on security implications, best practices, and actionable recommendations.".

(** The human message with the query in place. *)
Definition human_message_of (user_query : str) : str :=
  txt "User Query: " ++ user_query ++ human_closing.

(** The two messages [chat] composes for a query and a context. *)
Definition prompt_messages (user_message context : str) : list Message :=
  if has_context context then
    [SystemMessage (system_template_of context);
     HumanMessage (human_message_of user_message)]
  else [SystemMessage system_prompt; HumanMessage user_message].

(** The first step of [chat]: the context, when one is asked for. *)
Definition context_phase (E : Env) (user_message : str) (include_context : bool)
  : M str :=
  if include_context then get_relevant_context E user_message else ret [].

(** The state after the request [full] to the chat model. *)
Definition asked (w : World) (full : list Message) : World :=
  {| pc := pc w; vector_store := vector_store w;
     conversation_history := conversation_history w;
     calls := calls w ++ [CallAinvoke full] |}.

(** The state after the two appends to the history. *)
Definition answered (w : World) (user_message reply : str) : World :=
  {| pc := pc w; vector_store := vector_store w;
     conversation_history :=
       (conversation_history w ++ [HumanMessage user_message])
       ++ [AIMessage reply];
     calls := calls w |}.

(** The guarded block of [ingest_contract]. *)
Definition ingest_block (E : Env) (path hash : str) (md : SolidityParser.Metadata)
           (patterns : list str) (documents : list Document) : M IngestResult :=
  try_except
    (existing_docs <-
       similarity_search E (txt "file_hash:" ++ hash) 1 (Some hash) ;;
     match existing_docs with
     | _ :: _ =>
         ret (Skipped (txt "Contract already exists in database") hash)
     | [] =>
         let texts := map page_content documents in
         let metadatas := map metadata documents in
         add_texts texts metadatas ;;;
         ret (Ingested (txt "Contract successfully ingested") path hash
                       (length texts) md patterns)
     end)
    (fun e => ret (IngestFailed None (txt "Failed to ingest contract: " ++ e))).

(** Two contract texts to run the program on. *)
Definition demo_contract : str :=
  txt "pragma solidity ^0.8.0; contract Vault { function f() public onlyOwner {} }".

Definition demo_commented : str :=
  txt "// v1" ++ nl ++ txt "pragma solidity ^0.8.0 ; pragma solidity 0.7.0;".

(** ** The rest of the ingestion service *)

(** A Python dict with string keys and values, as the list of its items;
    [d[key]] raises [KeyError] when the key is missing. *)
Definition Dict := list (str * str).

Fixpoint getitem (d : Dict) (key : str) : Result str :=
  match d with
  | [] => Raise (txt "'" ++ key ++ txt "'")
  | (k, v) :: d' => if str_eqb k key then Ok v else getitem d' key
  end.

(** A contract dict with both keys. *)
Definition has_both_keys (contract : Dict) : Prop :=
  exists path content,
    getitem contract (txt "file_path") = Ok path
    /\ getitem contract (txt "content") = Ok content.

(** What [index.describe_index_stats()] answers. *)
Record IndexStats (Fullness : Type) : Type := {
  total_vector_count : nat;
  index_fullness : Fullness;
  dimension : nat
}.

(** The dicts [get_contract_stats] returns, by shape. *)
Inductive StatsResult (Fullness : Type) : Type :=
| Stats (total_vectors : nat) (fullness : Fullness) (dim : nat)
| StatsError (error : str).

Arguments Stats {Fullness} total_vectors fullness dim.
Arguments StatsError {Fullness} error.

Section IngestionRest.
Variable E : Env.

(** The loop of [ingest_multiple_contracts] (ingestion_sol.py, lines
    243-248), [results] being the list built so far. *)
Fixpoint ingest_each (contracts : list Dict) (results : list IngestResult)
  : M (list IngestResult) :=
  match contracts with
  | [] => ret results
  | contract :: rest =>
      path <- lift (getitem contract (txt "file_path")) ;;
      content <- lift (getitem contract (txt "content")) ;;
      result <- ingest_contract E path content ;;
      ingest_each rest (results ++ [result])
  end.

(** [ingest_multiple_contracts] (lines 239-250) *)
Definition ingest_multiple_contracts (contracts : list Dict)
  : M (list IngestResult) :=
  ingest_each contracts [].

(** The index statistics are Pinecone's; [describe_index_stats] is what it
    answers in a given state, or the failure. *)
Variable Fullness : Type.
Variable describe_index_stats : Pinecone -> Result (IndexStats Fullness).

(** [get_contract_stats] (lines 275-292) *)
Definition get_contract_stats : M (StatsResult Fullness) :=
  ensure_vector_store E ;;;
  try_except
    (stats <- (fun w => (describe_index_stats (pc w), w)) ;;
     ret (Stats (total_vector_count stats) (index_fullness stats)
                (dimension stats)))
    (fun e => ret (StatsError (txt "Failed to get stats: " ++ e))).

End IngestionRest.

(** ** The rest of the audit bot *)

(** The dicts of the three one-shot analyses, by shape. *)
Inductive AnalysisResult : Type :=
| AnalysisOk (analysis timestamp contract_hash : str)
| AnalysisFailed (error : str).

Inductive ImprovementsResult : Type :=
| ImprovementsOk (improvements timestamp : str)
| ImprovementsFailed (error : str).

Inductive ExplanationResult : Type :=
| ExplanationOk (explanation vulnerability_type timestamp : str)
| ExplanationFailed (error : str).

(** What [get_conversation_summary] returns. *)
Record ConversationSummary : Type := {
  message_count : nat;
  last_interaction : option str;
  conversation_length : nat
}.

(** The fixed text of [security_query] before and after the contract. *)
Definition security_query_head : str :=
  join nl
      [[];
       txt "        Perform a comprehensive security audit of this smart contract:";
       [];
       txt "        "].

Definition security_query_tail : str :=
  join nl
      [txt "...";
       [];
       txt "        Focus on:";
       txt "        1. Critical vulnerabilities (reentrancy, access control, etc.)";
       txt "        2. Gas optimization opportunities";
       txt "        3. Best practices compliance";
       txt "        4. Potential attack vectors";
       txt "        "].

(** [security_query] of [analyze_contract_security] (chatbot_sol.py, lines
    179-189), with [contract_content[:2000]] in place. *)
Definition security_query (contract_content : str) : str :=
  security_query_head ++ firstn 2000 contract_content ++ security_query_tail.

Definition improvement_query_head : str :=
  join nl
      [[];
       txt "        Analyze this smart contract and suggest specific improvements:";
       [];
       txt "        "].

Definition improvement_query_tail : str :=
  join nl
      [txt "...";
       [];
       txt "        Focus on:";
       txt "        1. Code optimization and gas efficiency";
       txt "        2. Security enhancements";
       txt "        3. Readability and maintainability";
       txt "        4. Standard compliance (ERC-20, ERC-721, etc.)";
       txt "        5. Testing and deployment considerations";
       txt "        "].

(** [improvement_query] of [suggest_improvements] (lines 214-225), with
    [contract_content[:1500]] in place. *)
Definition improvement_query (contract_content : str) : str :=
  improvement_query_head ++ firstn 1500 contract_content
  ++ improvement_query_tail.

Definition explanation_query_head : str :=
  join nl
      [[];
       txt "        Provide a detailed explanation of the "].

Definition explanation_query_tail : str :=
  join nl
      [txt " vulnerability in smart contracts:";
       [];
       txt "        1. What is it and how does it work?";
       txt "        2. Common scenarios where it occurs";
       txt "        3. Example vulnerable code patterns";
       txt "        4. How to detect it";
       txt "        5. Prevention and mitigation strategies";
       txt "        6. Real-world examples if applicable";
       txt "        "].

(** [explanation_query] of [explain_vulnerability] (lines 249-258) *)
Definition explanation_query (vulnerability_type : str) : str :=
  explanation_query_head ++ vulnerability_type ++ explanation_query_tail.

Section AuditBotRest.
Variable E : Env.

(** [str(datetime.now().timestamp())], as it is put in the temporary file
    name. *)
Variable now_timestamp : str.

(** [prompt.format_messages(query=q)] followed by [self.llm.ainvoke], the
    expression inside the [try] of the three analyses. *)
Definition invoke_prompt (prompt : ChatPromptTemplate) (q : str) : M str :=
  messages <- lift (format_messages prompt [(txt "query", q)]) ;;
  llm_ainvoke E messages.

(** [analyze_contract_security] (lines 172-210).  The ingestion, the
    retrieval and the building of the prompt come before the [try]. *)
Definition analyze_contract_security (contract_content : str)
  : M AnalysisResult :=
  let temp_file_path := txt "temp_analysis_" ++ now_timestamp ++ txt ".sol" in
  ingest_contract E temp_file_path contract_content ;;;
  let q := security_query contract_content in
  context <- get_relevant_context E q ;;
  prompt <- lift (_create_audit_prompt q context) ;;
  try_except
    (response <- invoke_prompt prompt q ;;
     ret (AnalysisOk response (now_isoformat E)
                     (generate_file_hash E contract_content)))
    (fun e => ret (AnalysisFailed (txt "Analysis failed: " ++ e))).

(** [suggest_improvements] (lines 212-245) *)
Definition suggest_improvements (contract_content : str)
  : M ImprovementsResult :=
  let q := improvement_query contract_content in
  context <- get_relevant_context E q ;;
  prompt <- lift (_create_audit_prompt q context) ;;
  try_except
    (response <- invoke_prompt prompt q ;;
     ret (ImprovementsOk response (now_isoformat E)))
    (fun e => ret (ImprovementsFailed (txt "Improvement analysis failed: " ++ e))).

(** [explain_vulnerability] (lines 247-280); the context is looked up
    with a query of its own. *)
Definition explain_vulnerability (vulnerability_type : str)
  : M ExplanationResult :=
  let q := explanation_query vulnerability_type in
  context <- get_relevant_context E
               (vulnerability_type ++ txt " vulnerability smart contract") ;;
  prompt <- lift (_create_audit_prompt q context) ;;
  try_except
    (response <- invoke_prompt prompt q ;;
     ret (ExplanationOk response vulnerability_type (now_isoformat E)))
    (fun e => ret (ExplanationFailed
                     (txt "Vulnerability explanation failed: " ++ e))).

(** [get_conversation_summary] (lines 286-292) *)
Definition get_conversation_summary : M ConversationSummary :=
  fun w =>
    let h := conversation_history w in
    (Ok {| message_count := length h;
           last_interaction :=
             match h with
             | [] => None
             | _ :: _ => Some (now_isoformat E)
             end;
           conversation_length :=
             list_sum (map (fun msg => length (message_content msg)) h) |},
     w).

End AuditBotRest.


(** ** [app/config.py] *)

Module Config.

(** The settings the program reads; the other fields of [Settings] take no
    part in what is modelled. *)
Record Settings : Type := {
  openai_api_key : str;
  pinecone_api_key : str;
  pinecone_index_name : str;
  max_file_size : nat;
  allowed_file_extensions : list str;
  top_k_results : nat
}.

(** [s.upper()] on the ASCII letters, which is all the key names have. *)
Definition upper (c : ascii) : ascii :=
  if is_lower c then ascii_of_nat (code c - 32) else c.

Definition upper_str (s : str) : str := map upper s.

(** [getattr(settings_instance, key)] for the two required keys. *)
Definition getattr (s : Settings) (key : str) : str :=
  if str_eqb key (txt "openai_api_key") then openai_api_key s
  else if str_eqb key (txt "pinecone_api_key") then pinecone_api_key s
  else [].

Definition required_keys : list str :=
  [txt "openai_api_key"; txt "pinecone_api_key"].

(** The loop of [validate_configuration] that collects [missing_keys]. *)
Fixpoint missing_among (keys : list str) (s : Settings) : list str :=
  match keys with
  | [] => []
  | key :: rest =>
      match getattr s key with
      | [] => upper_str key :: missing_among rest s
      | _ :: _ => missing_among rest s
      end
  end.

(** [validate_configuration] (config.py, lines 60-72) *)
Definition validate_configuration (s : Settings) : Result bool :=
  match missing_among required_keys s with
  | [] => Ok true
  | missing_keys =>
      Raise (txt "Missing required environment variables: "
             ++ join (txt ", ") missing_keys)
  end.

(** [get_settings] (lines 74-80) on the module-level [_settings]; [loaded]
    is what [Settings()] reads from the environment at the time of the
    call.  The assignment to [_settings] comes before the validation. *)
Definition get_settings (loaded : Settings) (_settings : option Settings)
  : Result Settings * option Settings :=
  match _settings with
  | None =>
      match validate_configuration loaded with
      | Ok _ => (Ok loaded, Some loaded)
      | Raise e => (Raise e, Some loaded)
      end
  | Some s => (Ok s, Some s)
  end.

End Config.

(** ** [app/main.py] *)

Module Main.

(** *** The rate limiter

    The timestamps are floats; the limiter only compares them and takes an
    hour off, so they are kept abstract. *)
Section RateLimit.
Variable Time : Type.
(** [a > b] and [t - 3600] *)
Variable later : Time -> Time -> bool.
Variable hour_before : Time -> Time.

(** The module-level dict [request_counts]. *)
Definition Counts : Type := str -> option (list Time).

Definition setitem (m : Counts) (key : str) (v : list Time) : Counts :=
  fun k => if str_eqb k key then Some v else m k.

Definition requests_of (m : Counts) (key : str) : list Time :=
  match m key with
  | Some l => l
  | None => []
  end.

(** [check_rate_limit] (main.py, lines 81-100), [current_time] being
    [datetime.now().timestamp()] *)
Definition check_rate_limit (current_time : Time) (client_ip : str)
           (request_counts : Counts) : bool * Counts :=
  let hour_ago := hour_before current_time in
  let counts1 :=
    match request_counts client_ip with
    | None => setitem request_counts client_ip []
    | Some _ => request_counts
    end in
  let counts2 :=
    setitem counts1 client_ip
            (filter (fun req_time => later req_time hour_ago)
                    (requests_of counts1 client_ip)) in
  if 100 <=? length (requests_of counts2 client_ip) then (false, counts2)
  else
    (true,
     setitem counts2 client_ip (requests_of counts2 client_ip ++ [current_time])).

(** The requests of the client that are less than an hour old. *)
Definition recent (current_time : Time) (ip : str) (m : Counts) : list Time :=
  filter (fun req_time => later req_time (hour_before current_time))
         (requests_of m ip).

(** A run of [check_rate_limit] over a sequence of requests, oldest first. *)
Fixpoint serve (requests : list (Time * str)) (request_counts : Counts)
  : list bool * Counts :=
  match requests with
  | [] => ([], request_counts)
  | (t, ip) :: rest =>
      let (allowed, counts1) := check_rate_limit t ip request_counts in
      let (answers, counts2) := serve rest counts1 in
      (allowed :: answers, counts2)
  end.

End RateLimit.

(** *** File validation *)

Definition slash : ascii := "/"%char.
Definition dot : ascii := "."%char.

(** [p.rfind(c)] as the number of characters up to and including the last
    [c], 0 when there is none (the index plus one). *)
Fixpoint rfind_end (c : ascii) (p : str) : nat :=
  match p with
  | [] => 0
  | x :: p' =>
      match rfind_end c p' with
      | 0 => if ascii_eqb x c then 1 else 0
      | S n => S (S n)
      end
  end.

(** [os.path.splitext(p)] of [posixpath]: the extension starts at the last
    dot of the last path component, unless only dots come before it
    there. *)
Definition splitext (p : str) : str * str :=
  let sep_end := rfind_end slash p in
  let dot_end := rfind_end dot p in
  if sep_end <? dot_end then
    let dotIndex := dot_end - 1 in
    if existsb (fun c => negb (ascii_eqb c dot))
               (firstn (dotIndex - sep_end) (skipn sep_end p))
    then (firstn dotIndex p, skipn dotIndex p)
    else (p, [])
  else (p, []).

(** The last path component of [p], and whether a name is made of dots
    only. *)
Definition basename (p : str) : str := skipn (rfind_end slash p) p.

Definition only_dots (s : str) : bool := forallb (fun c => ascii_eqb c dot) s.

(** [s.lower()] on the code points below 256. *)
Definition lower_char (c : ascii) : ascii :=
  let n := code c in
  if in_range 65 90 n || in_range 192 214 n || in_range 216 222 n
  then ascii_of_nat (n + 32)
  else c.

Definition str_lower (s : str) : str := map lower_char s.

(** What an endpoint can raise. *)
Inductive Failure : Type :=
| Exception (msg : str)
| HTTPException (status_code : nat) (detail : str)
| UnicodeDecodeError.

Inductive Outcome (A : Type) : Type :=
| Respond (a : A)
| Fail (f : Failure).

Arguments Respond {A} a.
Arguments Fail {A} f.

(** An uploaded file: its name, its size, and its content decoded as UTF-8
    ([None] when the bytes are not valid UTF-8). *)
Record UploadFile : Type := {
  filename : str;
  size : nat;
  decoded : option str
}.

Record UploadResponse : Type := {
  up_success : bool;
  up_message : str;
  up_file_hash : option str;
  up_chunks_added : option nat;
  up_action : option str;
  up_error : option str
}.

Record ChatResponse : Type := {
  success : bool;
  response : option str;
  context_used : bool;
  timestamp : str;
  error : option str
}.

Record SearchResponse : Type := {
  sr_query : str;
  sr_results : list SearchHit;
  sr_count : nat;
  sr_timestamp : str
}.

Inductive HealthResponse : Type :=
| Healthy (stamp database vector_db : str)
| Unhealthy503 (error stamp : str).

Section Endpoints.
Variable E : Env.
(** [str(e)] of an [HTTPException], which depends on the Starlette
    version, and the rendering [{n / (1024*1024):.1f}] of a size. *)
Variable http_str : nat -> str -> str.
Variable megabytes : nat -> str.
Variable now_timestamp : str.
Variable Fullness : Type.
Variable describe_index_stats : Pinecone -> Result (IndexStats Fullness).

Definition str_of (f : Failure) : str :=
  match f with
  | Exception msg => msg
  | HTTPException status detail => http_str status detail
  | UnicodeDecodeError => txt "invalid utf-8"
  end.

(** [validate_file] (lines 103-116): [None] when it returns, the
    exception when it raises. *)
Definition validate_file (file : UploadFile) (settings : Config.Settings)
  : option Failure :=
  if Config.max_file_size settings <? size file then
    Some (HTTPException 413
            (txt "File too large. Maximum size: "
             ++ megabytes (Config.max_file_size settings) ++ txt "MB"))
  else
    let file_extension := str_lower (snd (splitext (filename file))) in
    if existsb (str_eqb file_extension) (Config.allowed_file_extensions settings)
    then None
    else
      Some (HTTPException 400
              (txt "Invalid file type. Allowed: "
               ++ join (txt ", ") (Config.allowed_file_extensions settings))).

(** The fields [upload_contract] takes from the result of the ingestion. *)
Definition upload_response (result : IngestResult) : UploadResponse :=
  match result with
  | Skipped message hash =>
      {| up_success := true; up_message := message;
         up_file_hash := Some hash; up_chunks_added := None;
         up_action := Some (txt "skipped"); up_error := None |}
  | Ingested message _ hash chunks_added _ _ =>
      {| up_success := true; up_message := message;
         up_file_hash := Some hash; up_chunks_added := Some chunks_added;
         up_action := Some (txt "ingested"); up_error := None |}
  | IngestFailed _ e =>
      {| up_success := false; up_message := []; up_file_hash := None;
         up_chunks_added := None; up_action := None; up_error := Some e |}
  end.

Definition ingest_error (result : IngestResult) : str :=
  match result with
  | IngestFailed _ e => e
  | _ => []
  end.

(** The [try] block of [upload_contract] (lines 160-180). *)
Definition upload_contract_body (file : UploadFile) (settings : Config.Settings)
  : World -> Outcome UploadResponse * World :=
  fun w =>
    match validate_file file settings with
    | Some f => (Fail f, w)
    | None =>
        match decoded file with
        | None => (Fail UnicodeDecodeError, w)
        | Some content_str =>
            match ingest_contract E (filename file) content_str w with
            | (Raise e, w') => (Fail (Exception e), w')
            | (Ok result, w') =>
                if ingest_success result
                then (Respond (upload_response result), w')
                else (Fail (HTTPException 400 (ingest_error result)), w')
            end
        end
    end.

(** [upload_contract] (lines 153-185): the two [except] clauses around the
    body. *)
Definition upload_contract (file : UploadFile) (settings : Config.Settings)
  : World -> Outcome UploadResponse * World :=
  fun w =>
    match upload_contract_body file settings w with
    | (Respond r, w') => (Respond r, w')
    | (Fail UnicodeDecodeError, w') =>
        (Fail (HTTPException 400 (txt "File must be valid UTF-8 text")), w')
    | (Fail f, w') =>
        (Fail (HTTPException 500 (txt "Upload failed: " ++ str_of f)), w')
    end.

(** [chat_with_bot] (lines 187-215) *)
Definition chat_with_bot (message : str) (include_context : bool)
  : World -> Outcome ChatResponse * World :=
  fun w =>
    match chat E message include_context w with
    | (Ok (ChatOk reply used stamp), w') =>
        (Respond {| success := true; response := Some reply;
                    context_used := used; timestamp := stamp;
                    error := None |}, w')
    | (Ok (ChatFailed e), w') =>
        (Respond {| success := false; response := None;
                    context_used := false; timestamp := now_isoformat E;
                    error := Some e |}, w')
    | (Raise e, w') =>
        (Fail (HTTPException 500 (txt "Chat failed: " ++ e)), w')
    end.

(** [search_contracts] of main.py (lines 311-332) *)
Definition search_contracts (query : str) (k : nat)
  : World -> Outcome SearchResponse * World :=
  fun w =>
    let body :=
      match strip query with
      | [] => (Fail (HTTPException 400 (txt "Query cannot be empty")), w)
      | _ :: _ =>
          match search_contracts E query (Some k) w with
          | (Ok results, w') =>
              (Respond {| sr_query := query; sr_results := results;
                          sr_count := length results;
                          sr_timestamp := now_isoformat E |}, w')
          | (Raise e, w') => (Fail (Exception e), w')
          end
      end in
    match body with
    | (Respond r, w') => (Respond r, w')
    | (Fail f, w') =>
        (Fail (HTTPException 500 (txt "Search failed: " ++ str_of f)), w')
    end.

(** [analyze_contract] (lines 217-237) *)
Definition analyze_contract (contract_content : str)
  : World -> Outcome AnalysisResult * World :=
  fun w =>
    let body :=
      match analyze_contract_security E now_timestamp contract_content w with
      | (Ok (AnalysisOk a stamp hash), w') =>
          (Respond (AnalysisOk a stamp hash), w')
      | (Ok (AnalysisFailed e), w') => (Fail (HTTPException 400 e), w')
      | (Raise e, w') => (Fail (Exception e), w')
      end in
    match body with
    | (Respond r, w') => (Respond r, w')
    | (Fail f, w') =>
        (Fail (HTTPException 500 (txt "Analysis failed: " ++ str_of f)), w')
    end.

(** [health_check] (lines 126-151) *)
Definition health_check : World -> HealthResponse * World :=
  fun w =>
    match get_contract_stats E describe_index_stats w with
    | (Ok stats, w') =>
        let database :=
          match stats with
          | Stats _ _ _ => txt "connected"
          | StatsError _ => txt "error"
          end in
        (Healthy (now_isoformat E) database database, w')
    | (Raise e, w') => (Unhealthy503 e (now_isoformat E), w')
    end.

(** [clear_conversation] of main.py (lines 298-309): the message of the
    response. *)
Definition clear_conversation_endpoint : World -> Outcome str * World :=
  fun w =>
    match clear_conversation w with
    | (Ok _, w') => (Respond (txt "Conversation history cleared"), w')
    | (Raise e, w') =>
        (Fail (HTTPException 500 (txt "Clear conversation failed: " ++ e)), w')
    end.

End Endpoints.

End Main.

(** *** Values to run the rest of the program on *)

Definition demo_settings : Config.Settings :=
  {| Config.openai_api_key := txt "sk-demo";
     Config.pinecone_api_key := txt "pc-demo";
     Config.pinecone_index_name := txt "solidity-analyzer-v1";
     Config.max_file_size := 4096;
     Config.allowed_file_extensions := [txt ".sol"; txt ".txt"];
     Config.top_k_results := 5 |}.

Definition demo_settings_without_keys : Config.Settings :=
  {| Config.openai_api_key := [];
     Config.pinecone_api_key := [];
     Config.pinecone_index_name := txt "solidity-analyzer-v1";
     Config.max_file_size := 4096;
     Config.allowed_file_extensions := [txt ".sol"; txt ".txt"];
     Config.top_k_results := 5 |}.

Definition demo_http_str (status : nat) (detail : str) : str :=
  str_of_nat status ++ txt ": " ++ detail.

Definition demo_megabytes (n : nat) : str := str_of_nat n ++ txt " bytes".

Definition demo_timestamp : str := txt "1704067200.25".

Definition list_indexes_down : Api -> option str :=
  fun api =>
    match api with
    | ListIndexes => Some (txt "401 Unauthorized")
    | _ => None
    end.

(** A process whose store handle is not there yet, with Pinecone
    refusing. *)
Definition demo_world_unstarted_down : World :=
  {| pc := {| indexes := []; vectors := []; failing := list_indexes_down |};
     vector_store := false;
     conversation_history := [];
     calls := [] |}.

(** A process whose store handle is not there yet, with Pinecone
    answering and no index. *)
Definition demo_world_unstarted : World :=
  {| pc := {| indexes := []; vectors := []; failing := no_failure |};
     vector_store := false;
     conversation_history := [];
     calls := [] |}.

Definition demo_stats (p : Pinecone) : Result (IndexStats nat) :=
  Ok {| total_vector_count := length (vectors p);
        index_fullness := 0;
        dimension := 1536 |}.

Definition demo_stats_down (p : Pinecone) : Result (IndexStats nat) :=
  Raise (txt "timed out").

Definition demo_upload : Main.UploadFile :=
  {| Main.filename := txt "Vault.SOL";
     Main.size := 80;
     Main.decoded := Some demo_contract |}.

Definition demo_upload_too_big : Main.UploadFile :=
  {| Main.filename := txt "Vault.sol";
     Main.size := 5000;
     Main.decoded := Some demo_contract |}.

Definition demo_upload_hidden : Main.UploadFile :=
  {| Main.filename := txt ".sol";
     Main.size := 80;
     Main.decoded := Some demo_contract |}.

(** Timestamps in seconds, for the rate limiter. *)
Definition demo_later (a b : nat) : bool := b <? a.
Definition demo_hour_before (t : nat) : nat := t - 3600.
Definition demo_counts : Main.Counts nat :=
  fun ip => if str_eqb ip (txt "10.0.0.1") then Some [100; 3000] else None.

(** A batch of two contracts, as [ingest_multiple_contracts] takes it. *)
Definition demo_batch : list Dict :=
  [[(txt "file_path", txt "A.sol"); (txt "content", demo_contract)];
   [(txt "file_path", txt "B.sol"); (txt "content", demo_commented)]].

(** The started process after one contract has been ingested. *)
Definition demo_world_stocked : World :=
  snd (ingest_contract demo_env (txt "Vault.sol") demo_contract demo_world).

(** One turn of a conversation. *)
Definition turn (n : nat) : list Message :=
  [HumanMessage (txt "question " ++ str_of_nat n);
   AIMessage (txt "answer " ++ str_of_nat n)].

(** A started process six turns into a conversation. *)
Definition demo_world_six_turns : World :=
  {| pc := pc demo_world;
     vector_store := true;
     conversation_history := flat_map turn (seq 1 6);
     calls := [] |}.


(** * Properties *)

(** ** Characters *)


Lemma all_ascii_spec (f : ascii -> bool) :
  all_ascii f = true -> forall c, f c = true.
Proof.
  unfold all_ascii. intros H c.
  rewrite forallb_forall in H.
  rewrite <- (ascii_nat_embedding c).
  apply H. apply in_seq. pose proof (nat_ascii_bounded c). lia.
Qed.

Lemma ascii_eqb_eq (a b : ascii) : ascii_eqb a b = true <-> a = b.
Proof. apply Ascii.eqb_eq. Qed.

Lemma ascii_eqb_refl (a : ascii) : ascii_eqb a a = true.
Proof. apply Ascii.eqb_refl. Qed.

Lemma ascii_eqb_neq (a b : ascii) : ascii_eqb a b = false <-> a <> b.
Proof. apply Ascii.eqb_neq. Qed.

Lemma str_eqb_eq (a b : str) : str_eqb a b = true <-> a = b.
Proof.
  revert b. induction a as [|x a IH]; intros [|y b]; simpl; split; intros H;
    try reflexivity; try discriminate.
  - apply andb_true_iff in H. destruct H as [H1 H2].
    apply ascii_eqb_eq in H1. apply IH in H2. congruence.
  - injection H as -> ->. rewrite ascii_eqb_refl. simpl. apply IH. reflexivity.
Qed.

Lemma str_eqb_refl (a : str) : str_eqb a a = true.
Proof. apply str_eqb_eq. reflexivity. Qed.

(** ** The matcher *)

Module ReFacts.
Import Re.

Section Sound.
Variable fl : flags.
Variable A : Type.

Lemma star_greedy_sound (p : ascii -> bool) (s : str) (k : str -> option A) x :
  star_greedy p s k = Some x ->
  exists s1 s2, s = s1 ++ s2 /\ forallb p s1 = true /\ k s2 = Some x.
Proof.
  induction s as [|c s IH]; simpl; intros H.
  - exists [], []. auto.
  - destruct (p c) eqn:Hp.
    + destruct (star_greedy p s k) eqn:Hs.
      * injection H as ->. destruct (IH eq_refl) as (s1 & s2 & -> & Hall & Hk).
        exists (c :: s1), s2. simpl. rewrite Hp. auto.
      * exists [], (c :: s). auto.
    + exists [], (c :: s). auto.
Qed.

Lemma star_lazy_sound (p : ascii -> bool) (s : str) (k : str -> option A) x :
  star_lazy p s k = Some x ->
  exists s1 s2, s = s1 ++ s2 /\ forallb p s1 = true /\ k s2 = Some x.
Proof.
  induction s as [|c s IH]; simpl; intros H.
  - destruct (k []) eqn:Hk; [|discriminate].
    exists [], []. injection H as ->. auto.
  - destruct (k (c :: s)) eqn:Hk.
    + injection H as ->. exists [], (c :: s). auto.
    + destruct (p c) eqn:Hp; [|discriminate].
      destruct (IH H) as (s1 & s2 & -> & Hall & Hk2).
      exists (c :: s1), s2. simpl. rewrite Hp. auto.
Qed.

Lemma star_greedy_here (p : ascii -> bool) (s : str) (k : str -> option A) :
  k s <> None -> star_greedy p s k <> None.
Proof.
  destruct s as [|c s]; simpl; auto.
  intros H. destruct (p c); auto.
  destruct (star_greedy p s k); auto. discriminate.
Qed.

Lemma star_greedy_complete (p : ascii -> bool) (s1 s2 : str)
      (k : str -> option A) :
  forallb p s1 = true -> k s2 <> None -> star_greedy p (s1 ++ s2) k <> None.
Proof.
  induction s1 as [|c s1 IH]; simpl; intros Hall Hk.
  - apply star_greedy_here. exact Hk.
  - apply andb_true_iff in Hall. destruct Hall as [Hp Hall].
    rewrite Hp. specialize (IH Hall Hk).
    destruct (star_greedy p (s1 ++ s2) k); [discriminate|contradiction].
Qed.

Lemma star_lazy_complete (p : ascii -> bool) (s1 s2 : str)
      (k : str -> option A) :
  forallb p s1 = true -> k s2 <> None -> star_lazy p (s1 ++ s2) k <> None.
Proof.
  induction s1 as [|c s1 IH]; simpl; intros Hall Hk.
  - destruct s2; simpl; destruct (k _); try discriminate; contradiction.
  - apply andb_true_iff in Hall. destruct Hall as [Hp Hall].
    destruct (k (c :: s1 ++ s2)); [discriminate|].
    rewrite Hp. apply IH; assumption.
Qed.

Lemma firstn_consumed (s1 s2 : str) :
  firstn (length (s1 ++ s2) - length s2) (s1 ++ s2) = s1.
Proof.
  rewrite length_app.
  replace (length s1 + length s2 - length s2) with (length s1 + 0) by lia.
  rewrite firstn_app_2. simpl. apply app_nil_r.
Qed.

(** Whatever the matcher answers comes from a split of the text into a
    part the pattern denotes and a rest the continuation accepts. *)
Lemma run_sound (r : regex) : forall s g (k : str -> option str -> option A) x,
  run fl r s g k = Some x ->
  exists s1 s2 g', s = s1 ++ s2 /\ Matches fl r s1 g g' /\ k s2 g' = Some x.
Proof.
  induction r as [|a|r1 IH1 r2 IH2|r1 IH1 r2 IH2|b a|r1 IH1|r1 IH1];
    intros s g k x H; simpl in H.
  - exists [], s, g. repeat split; auto. constructor.
  - destruct s as [|c s]; [discriminate|].
    destruct (atom_matches fl a c) eqn:Ha; [|discriminate].
    exists [c], s, g. repeat split; auto. constructor. exact Ha.
  - apply IH1 in H. destruct H as (s1 & s2 & g1 & -> & M1 & H).
    apply IH2 in H. destruct H as (s1' & s2' & g2 & -> & M2 & H).
    exists (s1 ++ s1'), s2', g2. rewrite app_assoc. repeat split; auto.
    econstructor; eassumption.
  - destruct (run fl r1 s g k) eqn:H1.
    + injection H as ->. apply IH1 in H1.
      destruct H1 as (s1 & s2 & g1 & -> & M1 & H).
      exists s1, s2, g1. repeat split; auto. apply MAltL. exact M1.
    + apply IH2 in H. destruct H as (s1 & s2 & g1 & -> & M1 & H).
      exists s1, s2, g1. repeat split; auto. apply MAltR. exact M1.
  - destruct b.
    + apply star_greedy_sound in H. destruct H as (s1 & s2 & -> & Hall & H).
      exists s1, s2, g. repeat split; auto. constructor. exact Hall.
    + apply star_lazy_sound in H. destruct H as (s1 & s2 & -> & Hall & H).
      exists s1, s2, g. repeat split; auto. constructor. exact Hall.
  - destruct (run fl r1 s g k) eqn:H1.
    + injection H as ->. apply IH1 in H1.
      destruct H1 as (s1 & s2 & g1 & -> & M1 & H).
      exists s1, s2, g1. repeat split; auto. apply MOptSome. exact M1.
    + exists [], s, g. repeat split; auto. apply MOptNone.
  - apply IH1 in H. destruct H as (s1 & s2 & g1 & -> & M1 & H).
    rewrite firstn_consumed in H.
    exists s1, s2, (Some s1). repeat split; auto. econstructor. exact M1.
Qed.

(** A split into a part the pattern denotes and a rest the continuation
    accepts is found, possibly after others. *)
Lemma run_complete (r : regex) (s1 : str) g g' :
  Matches fl r s1 g g' ->
  forall s2 (k : str -> option str -> option A),
    k s2 g' <> None -> run fl r (s1 ++ s2) g k <> None.
Proof.
  induction 1 as [g|a c g Ha|r1 r2 s1 s1' g g1 g2 M1 IH1 M2 IH2
                  |r1 r2 s g g' M1 IH1|r1 r2 s g g' M1 IH1
                  |b a s g Hall|r1 s g g' M1 IH1|r1 g|r1 s g g' M1 IH1];
    intros s2 k Hk; simpl.
  - exact Hk.
  - rewrite Ha. exact Hk.
  - rewrite <- app_assoc. apply IH1. apply IH2. exact Hk.
  - specialize (IH1 s2 k Hk).
    destruct (run fl r1 (s ++ s2) g k); [discriminate|contradiction].
  - destruct (run fl r1 (s ++ s2) g k); [discriminate|].
    apply IH1. exact Hk.
  - destruct b.
    + apply star_greedy_complete; assumption.
    + apply star_lazy_complete; assumption.
  - specialize (IH1 s2 k Hk).
    destruct (run fl r1 (s ++ s2) g k); [discriminate|contradiction].
  - destruct (run fl r1 s2 g k); [discriminate|exact Hk].
  - apply IH1. rewrite firstn_consumed. exact Hk.
Qed.
End Sound.


Lemma match_at_sound fl r s m :
  match_at fl false r s = Some m ->
  exists s2, s = group0 m ++ s2 /\ Matches fl r (group0 m) None (group1 m).
Proof.
  unfold match_at. intros H. apply run_sound in H.
  destruct H as (s1 & s2 & g & -> & M1 & H). simpl in H.
  injection H as <-. simpl. rewrite firstn_consumed. eauto.
Qed.

Lemma match_at_complete fl r s :
  matches_prefix fl r s -> match_at fl false r s <> None.
Proof.
  intros (s1 & s2 & g & -> & M1). unfold match_at.
  eapply run_complete; [exact M1|]. simpl. discriminate.
Qed.

Lemma match_at_none fl r s :
  match_at fl false r s = None <-> ~ matches_prefix fl r s.
Proof.
  split.
  - intros H Hp. apply match_at_complete in Hp. contradiction.
  - intros H. destruct (match_at fl false r s) eqn:Hm; [|reflexivity].
    exfalso. apply H. apply match_at_sound in Hm.
    destruct Hm as (s2 & Hs & M1). exists (group0 m), s2, (group1 m). auto.
Qed.

(** [search] answers with the match at the first position that has one. *)
Lemma search_some fl r s m :
  search fl r s = Some m ->
  exists pre rest,
    s = pre ++ rest /\ match_at fl false r rest = Some m
    /\ forall pre' rest', s = pre' ++ rest' -> length pre' < length pre ->
                          match_at fl false r rest' = None.
Proof.
  induction s as [|c s IH]; simpl; intros H.
  - destruct (match_at fl false r []) eqn:Hm; [|discriminate].
    injection H as ->. exists [], []. repeat split; auto.
    intros pre' rest' _ Hl. simpl in Hl. lia.
  - destruct (match_at fl false r (c :: s)) eqn:Hm.
    + injection H as ->. exists [], (c :: s). repeat split; auto.
      intros pre' rest' _ Hl. simpl in Hl. lia.
    + destruct (IH H) as (pre & rest & -> & Hr & Hfirst).
      exists (c :: pre), rest. repeat split; auto.
      intros pre' rest' Hs Hl. destruct pre' as [|c' pre'].
      * simpl in Hs. subst rest'. exact Hm.
      * simpl in Hs. injection Hs as -> Hs. simpl in Hl.
        apply (Hfirst pre' rest' Hs). lia.
Qed.

Lemma search_none fl r s :
  search fl r s = None ->
  forall pre rest, s = pre ++ rest -> match_at fl false r rest = None.
Proof.
  induction s as [|c s IH]; simpl; intros H pre rest Hs.
  - destruct (match_at fl false r []) eqn:Hm; [discriminate|].
    destruct pre; [|discriminate]. simpl in Hs. subst. exact Hm.
  - destruct (match_at fl false r (c :: s)) eqn:Hm; [discriminate|].
    destruct pre as [|c' pre].
    + simpl in Hs. subst. exact Hm.
    + simpl in Hs. injection Hs as -> Hs. eapply IH; eauto.
Qed.

Lemma occurs_prefix fl r s :
  occurs fl r s <-> exists pre rest, s = pre ++ rest /\ matches_prefix fl r rest.
Proof.
  split.
  - intros (pre & mid & post & g & -> & M1).
    exists pre, (mid ++ post). split; auto. exists mid, post, g. auto.
  - intros (pre & rest & -> & (s1 & s2 & g & -> & M1)).
    exists pre, s1, s2, g. auto.
Qed.

Lemma search_none_iff fl r s : search fl r s = None <-> ~ occurs fl r s.
Proof.
  split.
  - intros H Ho. apply occurs_prefix in Ho.
    destruct Ho as (pre & rest & Hs & Hp).
    apply match_at_complete in Hp. apply Hp. eapply search_none; eauto.
  - intros H. destruct (search fl r s) eqn:Hs; [|reflexivity].
    exfalso. apply H. apply search_some in Hs.
    destruct Hs as (pre & rest & -> & Hm & _).
    apply match_at_sound in Hm. destruct Hm as (s2 & -> & M1).
    exists pre, (group0 m), s2, (group1 m). auto.
Qed.

(** Where nothing matches, [findall] finds nothing. *)
Lemma scan_nothing fl r s :
  ~ occurs fl r s -> forall skip, scan fl r s skip = [].
Proof.
  intros H. apply search_none_iff in H.
  pose proof (@search_none fl r s H) as Hnone. clear H.
  induction s as [|c s IH]; intros skip.
  - destruct skip; simpl; [|reflexivity].
    unfold matches_here. rewrite (Hnone [] [] eq_refl). reflexivity.
  - assert (Htail : forall skip, scan fl r s skip = []).
    { apply IH. intros pre rest Hs. apply (Hnone (c :: pre) rest).
      simpl. congruence. }
    destruct skip; simpl.
    + unfold matches_here. rewrite (Hnone [] (c :: s) eq_refl). simpl.
      apply Htail.
    + apply Htail.
Qed.

Lemma findall_nothing fl r s : ~ occurs fl r s -> findall fl r s = [].
Proof.
  intros H. unfold findall. rewrite scan_nothing by exact H. reflexivity.
Qed.

End ReFacts.

(** ** What the patterns of the parser denote *)

Module PatternFacts.
Import Re ReFacts SolidityParser.

Lemma Matches_Seq fl r1 r2 s g g' :
  Matches fl (Seq r1 r2) s g g' <->
  exists s1 s2 g1, s = s1 ++ s2 /\ Matches fl r1 s1 g g1 /\ Matches fl r2 s2 g1 g'.
Proof.
  split.
  - intros H. inversion H; subst. eauto 7.
  - intros (s1 & s2 & g1 & -> & H1 & H2). econstructor; eassumption.
Qed.

Lemma Matches_Alt fl r1 r2 s g g' :
  Matches fl (Alt r1 r2) s g g' <-> Matches fl r1 s g g' \/ Matches fl r2 s g g'.
Proof.
  split.
  - intros H. inversion H; subst; auto.
  - intros [H|H]; [apply MAltL|apply MAltR]; exact H.
Qed.

Lemma Matches_Atom fl a s g g' :
  Matches fl (Atom a) s g g' <->
  exists c, s = [c] /\ atom_matches fl a c = true /\ g' = g.
Proof.
  split.
  - intros H. inversion H; subst. eauto.
  - intros (c & -> & Ha & ->). constructor. exact Ha.
Qed.

Lemma Matches_Star fl b a s g g' :
  Matches fl (Star b a) s g g' <->
  forallb (atom_matches fl a) s = true /\ g' = g.
Proof.
  split.
  - intros H. inversion H; subst. auto.
  - intros (Ha & ->). constructor. exact Ha.
Qed.

Lemma Matches_Plus fl a s g g' :
  Matches fl (Plus a) s g g' <->
  s <> [] /\ forallb (atom_matches fl a) s = true /\ g' = g.
Proof.
  unfold Plus. rewrite Matches_Seq. split.
  - intros (s1 & s2 & g1 & -> & H1 & H2).
    apply Matches_Atom in H1. destruct H1 as (c & -> & Hc & ->).
    apply Matches_Star in H2. destruct H2 as (Hs & ->).
    simpl. rewrite Hc, Hs. repeat split; auto. discriminate.
  - intros (Hne & Hall & ->). destruct s as [|c s]; [contradiction|].
    simpl in Hall. apply andb_true_iff in Hall. destruct Hall as [Hc Hs].
    exists [c], s, g. repeat split; auto.
    + constructor. exact Hc.
    + constructor. exact Hs.
Qed.

Lemma Matches_Group fl r s g g' :
  Matches fl (Group r) s g g' <->
  (exists g1, Matches fl r s g g1) /\ g' = Some s.
Proof.
  split.
  - intros H. inversion H; subst. eauto.
  - intros ((g1 & H) & ->). econstructor. exact H.
Qed.

Lemma Matches_Opt fl r s g g' :
  Matches fl (Opt r) s g g' <-> Matches fl r s g g' \/ (s = [] /\ g' = g).
Proof.
  split.
  - intros H. inversion H; subst; auto.
  - intros [H|[-> ->]]; [apply MOptSome; exact H|apply MOptNone].
Qed.

(** A literal word matches the texts that agree with it character by
    character. *)
Lemma Matches_Lits fl w : forall s g g',
  Matches fl (Lits w) s g g' <->
  Forall2 (fun c x => atom_matches fl (Lit x) c = true) s w /\ g' = g.
Proof.
  induction w as [|x w IH]; intros s g g'.
  - simpl. split.
    + intros H. inversion H; subst. auto.
    + intros (H & ->). inversion H; subst. constructor.
  - destruct w as [|y w].
    + simpl. rewrite Matches_Atom. split.
      * intros (c & -> & Hc & ->). auto.
      * intros (H & ->). inversion H as [|c x' s' w' Hc Hrest]; subst.
        inversion Hrest; subst. eauto.
    + change (Lits (x :: y :: w)) with (Seq (Atom (Lit x)) (Lits (y :: w))).
      rewrite Matches_Seq. split.
      * intros (s1 & s2 & g1 & -> & H1 & H2).
        apply Matches_Atom in H1. destruct H1 as (c & -> & Hc & ->).
        apply IH in H2. destruct H2 as (H2 & ->). simpl. auto.
      * intros (H & ->). inversion H as [|c x' s' w' Hc Hrest]; subst.
        exists [c], s', g. repeat split; auto.
        -- apply Matches_Atom. eauto.
        -- apply IH. auto.
Qed.

Lemma Forall2_exact (s w : str) :
  Forall2 (fun c x => atom_matches no_flags (Lit x) c = true) s w <-> s = w.
Proof.
  split.
  - induction 1 as [|c x s w Hc _ IH]; [reflexivity|].
    simpl in Hc. rewrite orb_false_r in Hc. apply ascii_eqb_eq in Hc.
    congruence.
  - intros ->. induction w as [|x w IH]; constructor; auto.
    simpl. rewrite ascii_eqb_refl. reflexivity.
Qed.

Lemma lit_ignorecase c x :
  atom_matches ignorecase (Lit x) c = ascii_eqb (lower c) (lower x).
Proof.
  pose (f := fun c => all_ascii (fun x =>
               Bool.eqb (atom_matches ignorecase (Lit x) c)
                        (ascii_eqb (lower c) (lower x)))).
  assert (H : all_ascii f = true) by (vm_compute; reflexivity).
  pose proof (all_ascii_spec f H c) as Hc. unfold f in Hc.
  pose proof (all_ascii_spec _ Hc x) as Hx. simpl in Hx.
  apply Bool.eqb_prop in Hx. exact Hx.
Qed.

Lemma Forall2_ignorecase (s w : str) :
  Forall2 (fun c x => atom_matches ignorecase (Lit x) c = true) s w <->
  lower_str s = lower_str w.
Proof.
  split.
  - induction 1 as [|c x s w Hc _ IH]; [reflexivity|].
    rewrite lit_ignorecase in Hc. apply ascii_eqb_eq in Hc.
    simpl. congruence.
  - revert w. induction s as [|c s IH]; intros [|x w] H; try discriminate.
    + constructor.
    + simpl in H. injection H as Hc Hs. constructor.
      * rewrite lit_ignorecase. apply ascii_eqb_eq. exact Hc.
      * apply IH. exact Hs.
Qed.

Lemma Matches_L w s g g' :
  Matches no_flags (L w) s g g' <-> s = txt w /\ g' = g.
Proof. unfold L. rewrite Matches_Lits, Forall2_exact. reflexivity. Qed.

Lemma Matches_L_ci w s g g' :
  Matches ignorecase (L w) s g g' <-> lower_str s = lower_str (txt w) /\ g' = g.
Proof. unfold L. rewrite Matches_Lits, Forall2_ignorecase. reflexivity. Qed.

Lemma space_no_flags c : atom_matches no_flags space c = isspace c.
Proof. simpl. destruct (isspace c); reflexivity. Qed.

Lemma space_ignorecase c : atom_matches ignorecase space c = isspace c.
Proof.
  pose (f := fun c => Bool.eqb (atom_matches ignorecase space c) (isspace c)).
  assert (H : all_ascii f = true) by (vm_compute; reflexivity).
  pose proof (all_ascii_spec f H c) as Hc.
  apply Bool.eqb_prop in Hc. exact Hc.
Qed.

Lemma not_char_no_flags x c :
  atom_matches no_flags (not_char x) c = negb (ascii_eqb c x).
Proof. simpl. destruct (ascii_eqb c x); reflexivity. Qed.

Lemma forallb_ext_eq {A} (f g : A -> bool) (l : list A) :
  (forall a, f a = g a) -> forallb f l = forallb g l.
Proof. intros H. induction l; simpl; [reflexivity|]. rewrite H, IHl. reflexivity. Qed.

Lemma forallb_not_char x (s : str) :
  forallb (atom_matches no_flags (not_char x)) s = true <-> ~ In x s.
Proof.
  rewrite (forallb_ext_eq _ _ s (not_char_no_flags x)).
  induction s as [|c s IH]; simpl.
  - split; auto.
  - rewrite andb_true_iff, IH, negb_true_iff, ascii_eqb_neq. split.
    + intros [H1 H2] [H|H]; auto.
    + intros H. split; auto.
Qed.

(** The capture state is never reset. *)
Lemma Matches_keeps_group fl r s g g' :
  Matches fl r s g g' -> g <> None -> g' <> None.
Proof. induction 1; auto. intros _. discriminate. Qed.


Lemma always_captures_spec fl r s g g' :
  Matches fl r s g g' -> always_captures r = true -> g' <> None.
Proof.
  induction 1; simpl; intros Hc; try discriminate.
  - apply orb_true_iff in Hc. destruct Hc as [Hc|Hc]; auto.
    eapply Matches_keeps_group; eauto.
  - apply andb_true_iff in Hc. tauto.
  - apply andb_true_iff in Hc. tauto.
Qed.

Ltac inv_matches :=
  repeat match goal with
  | H : Matches _ (Seq _ _) _ _ _ |- _ =>
      apply Matches_Seq in H; destruct H as (? & ? & ? & ? & ? & ?)
  | H : Matches no_flags (L _) _ _ _ |- _ =>
      apply Matches_L in H; destruct H as [? ?]
  | H : Matches ignorecase (L _) _ _ _ |- _ =>
      apply Matches_L_ci in H; destruct H as [? ?]
  | H : Matches _ (Plus _) _ _ _ |- _ =>
      apply Matches_Plus in H; destruct H as (? & ? & ?)
  | H : Matches _ (Star _ _) _ _ _ |- _ =>
      apply Matches_Star in H; destruct H as (? & ?)
  | H : Matches _ (Group _) _ _ _ |- _ =>
      apply Matches_Group in H; destruct H as ((? & ?) & ?)
  | H : Matches _ (Atom _) _ _ _ |- _ =>
      apply Matches_Atom in H; destruct H as (? & ? & ? & ?)
  | H : Matches _ (Alt _ _) _ _ _ |- _ =>
      apply Matches_Alt in H; destruct H as [?|?]
  end; subst.

Lemma all_space_no_flags (s : str) :
  forallb (atom_matches no_flags space) s = true <-> all_space s.
Proof.
  unfold all_space. rewrite (forallb_ext_eq _ _ s space_no_flags). reflexivity.
Qed.

Lemma all_space_ignorecase (s : str) :
  forallb (atom_matches ignorecase space) s = true <-> all_space s.
Proof.
  unfold all_space. rewrite (forallb_ext_eq _ _ s space_ignorecase). reflexivity.
Qed.

Lemma pragma_pattern_denotes s g :
  Matches no_flags pragma_pattern s None g <->
  exists ws1 ws2 X,
    s = txt "pragma" ++ ws1 ++ txt "solidity" ++ ws2 ++ X ++ txt ";"
    /\ ws1 <> [] /\ all_space ws1 /\ ws2 <> [] /\ all_space ws2
    /\ X <> [] /\ ~ In ";"%char X /\ g = Some X.
Proof.
  split.
  - intros H.
    cbv [pragma_pattern seqs space_plus space_star C txt list_ascii_of_string] in H.
    inv_matches.
    match goal with H : atom_matches _ (Lit _) _ = true |- _ =>
      simpl in H; rewrite orb_false_r in H; apply ascii_eqb_eq in H; subst end.
    repeat match goal with H : forallb (atom_matches no_flags space) _ = true |- _ =>
      apply all_space_no_flags in H end.
    match goal with H : forallb (atom_matches no_flags (not_char _)) _ = true |- _ =>
      apply forallb_not_char in H end.
    do 3 eexists. repeat split; eauto.
  - intros (ws1 & ws2 & X & -> & Hn1 & Hs1 & Hn2 & Hs2 & HnX & HX & ->).
    cbv [pragma_pattern seqs space_plus space_star C].
    apply Matches_Seq. exists (txt "pragma"), (ws1 ++ txt "solidity" ++ ws2 ++ X ++ txt ";"), None.
    repeat split. { apply Matches_L. auto. }
    apply Matches_Seq. exists ws1, (txt "solidity" ++ ws2 ++ X ++ txt ";"), None.
    repeat split. { apply Matches_Plus. repeat split; auto. apply all_space_no_flags. auto. }
    apply Matches_Seq. exists (txt "solidity"), (ws2 ++ X ++ txt ";"), None.
    repeat split. { apply Matches_L. auto. }
    apply Matches_Seq. exists ws2, (X ++ txt ";"), None.
    repeat split. { apply Matches_Plus. repeat split; auto. apply all_space_no_flags. auto. }
    apply Matches_Seq. exists X, (txt ";"), (Some X).
    repeat split.
    { apply Matches_Group. split; auto. exists None. apply Matches_Plus.
      repeat split; auto. apply forallb_not_char. auto. }
    apply Matches_Atom. exists ";"%char. repeat split.
Qed.

Lemma pragma_line_prefix rest :
  matches_prefix no_flags pragma_pattern rest <-> exists X, pragma_line X rest.
Proof.
  unfold matches_prefix, pragma_line. split.
  - intros (s1 & s2 & g & -> & H). apply pragma_pattern_denotes in H.
    destruct H as (ws1 & ws2 & X & -> & H1 & H2 & H3 & H4 & H5 & H6 & _).
    exists X, ws1, ws2, s2. repeat rewrite <- app_assoc. repeat split; auto.
  - intros (X & ws1 & ws2 & post & -> & H1 & H2 & H3 & H4 & H5 & H6).
    exists (txt "pragma" ++ ws1 ++ txt "solidity" ++ ws2 ++ X ++ txt ";"), post, (Some X).
    split; [repeat rewrite <- app_assoc; reflexivity|].
    apply pragma_pattern_denotes. exists ws1, ws2, X. repeat split; auto.
Qed.

(** Two splits of one text at the end of a run of [p]-characters agree. *)
Lemma run_split_unique (p : ascii -> bool) : forall (a a' : str) x x' r r',
  forallb p a = true -> forallb p a' = true ->
  p x = false -> p x' = false ->
  a ++ x :: r = a' ++ x' :: r' -> a = a' /\ x :: r = x' :: r'.
Proof.
  induction a as [|c a IH]; intros [|c' a'] x x' r r' Ha Ha' Hx Hx' Heq;
    simpl in *.
  - auto.
  - injection Heq as -> _. apply andb_true_iff in Ha'. destruct Ha' as [Hc _].
    congruence.
  - injection Heq as -> _. apply andb_true_iff in Ha. destruct Ha as [Hc _].
    congruence.
  - injection Heq as -> Heq.
    apply andb_true_iff in Ha. apply andb_true_iff in Ha'.
    destruct (IH a' x x' r r') as [-> Hr]; tauto.
Qed.

Lemma lstrip_spaces (ws s : str) : all_space ws -> lstrip (ws ++ s) = lstrip s.
Proof.
  unfold all_space. induction ws as [|c ws IH]; simpl; intros H; [reflexivity|].
  apply andb_true_iff in H. destruct H as [Hc H]. rewrite Hc. auto.
Qed.

Lemma strip_spaces (ws s : str) : all_space ws -> strip (ws ++ s) = strip s.
Proof. intros H. unfold strip. rewrite lstrip_spaces by exact H. reflexivity. Qed.

Lemma app_same_length {A} (a b c d : list A) :
  length a = length c -> a ++ b = c ++ d -> a = c /\ b = d.
Proof.
  revert c. induction a as [|x a IH]; intros [|y c] Hl Heq; try discriminate.
  - auto.
  - simpl in *. injection Heq as -> Heq. injection Hl as Hl.
    destruct (IH c Hl Heq) as [-> ->]. auto.
Qed.

Lemma forallb_app_true {A} (f : A -> bool) (l1 l2 : list A) :
  forallb f l1 = true -> forallb f l2 = true -> forallb f (l1 ++ l2) = true.
Proof. intros H1 H2. rewrite forallb_app, H1, H2. reflexivity. Qed.


Lemma space_not_semicolon (s : str) :
  all_space s -> forallb not_semicolon s = true.
Proof.
  unfold all_space. induction s as [|c s IH]; simpl; [reflexivity|].
  intros H. apply andb_true_iff in H. destruct H as [Hc H].
  rewrite (IH H), andb_true_r. unfold not_semicolon.
  destruct (ascii_eqb c ";") eqn:He; [|reflexivity].
  apply ascii_eqb_eq in He. subst c. discriminate.
Qed.

Lemma no_semicolon (s : str) :
  ~ In ";"%char s -> forallb not_semicolon s = true.
Proof.
  induction s as [|c s IH]; simpl; [reflexivity|].
  intros H. rewrite IH by tauto. rewrite andb_true_r. unfold not_semicolon.
  apply negb_true_iff. apply ascii_eqb_neq. intros ->. tauto.
Qed.

(** Group 1 of a match of the pragma pattern at the head of a pragma
    statement holds the version expression, up to surrounding whitespace. *)
Lemma pragma_group rest m X :
  match_at no_flags false pragma_pattern rest = Some m ->
  pragma_line X rest ->
  exists g, group1 m = Some g /\ strip g = strip X.
Proof.
  intros Hm (ws1 & ws2 & post & Hrest & Hn1 & Hs1 & Hn2 & Hs2 & HnX & HX).
  apply match_at_sound in Hm. destruct Hm as (s2 & Hs & HM).
  apply pragma_pattern_denotes in HM.
  destruct HM as (ws1' & ws2' & X' & H0 & Hn1' & Hs1' & Hn2' & Hs2' & HnX' & HX' & Hg).
  exists X'. split; [exact Hg|].
  rewrite H0 in Hs. rewrite Hrest in Hs. repeat rewrite <- app_assoc in Hs.
  apply app_inv_head in Hs.
  change (txt "solidity") with ("s"%char :: txt "olidity") in Hs.
  simpl in Hs.
  apply (run_split_unique isspace) in Hs; try assumption; try reflexivity.
  destruct Hs as [_ Hs]. injection Hs as Hs.
  rewrite (app_assoc ws2 X), (app_assoc ws2' X') in Hs.
  apply (run_split_unique not_semicolon) in Hs; try reflexivity.
  - destruct Hs as [Hs _].
    rewrite <- (strip_spaces X' Hs2'), <- (strip_spaces X Hs2).
    congruence.
  - apply forallb_app_true; [apply space_not_semicolon|apply no_semicolon]; assumption.
  - apply forallb_app_true; [apply space_not_semicolon|apply no_semicolon]; assumption.
Qed.

Lemma pragma_always_captured m s :
  search no_flags pragma_pattern s = Some m -> group1 m <> None.
Proof.
  intros H. apply search_some in H. destruct H as (pre & rest & _ & Hm & _).
  apply match_at_sound in Hm. destruct Hm as (s2 & _ & HM).
  eapply always_captures_spec; [exact HM|reflexivity].
Qed.

Lemma extract_metadata_ok content :
  exists md, extract_metadata content = Ok md.
Proof.
  unfold extract_metadata.
  destruct (search no_flags pragma_pattern content) as [m|] eqn:Hs.
  - apply pragma_always_captured in Hs. unfold group1_strip.
    destruct (group1 m); [|contradiction]. eauto.
  - eauto.
Qed.

Lemma extract_metadata_pragma content md :
  extract_metadata content = Ok md ->
  pragma md =
    match search no_flags pragma_pattern content with
    | Some m => option_map strip (group1 m)
    | None => None
    end.
Proof.
  unfold extract_metadata.
  destruct (search no_flags pragma_pattern content) as [m|] eqn:Hs.
  - unfold group1_strip. destruct (group1 m); [|discriminate].
    intros H. injection H as <-. reflexivity.
  - intros H. injection H as <-. reflexivity.
Qed.


Lemma pragma_line_refuted rest X :
  match_at no_flags false pragma_pattern rest = None -> ~ pragma_line X rest.
Proof.
  intros H Hl. apply match_at_none in H. apply H.
  apply pragma_line_prefix. eauto.
Qed.

Lemma skipn_prefix {A} (pre rest : list A) : skipn (length pre) (pre ++ rest) = rest.
Proof. induction pre; simpl; auto. Qed.

(** A check, position by position, that no pragma statement starts in the
    first [n] positions. *)
Lemma no_pragma_before text n :
  forallb (fun i =>
             match match_at no_flags false pragma_pattern (skipn i text) with
             | None => true
             | Some _ => false
             end) (seq 0 n) = true ->
  forall pre' rest' X',
    text = pre' ++ rest' -> length pre' < n -> ~ pragma_line X' rest'.
Proof.
  intros H pre' rest' X' Ht Hl. rewrite forallb_forall in H.
  specialize (H (length pre')). rewrite Ht, skipn_prefix in H.
  apply pragma_line_refuted.
  destruct (match_at no_flags false pragma_pattern rest'); [|reflexivity].
  assert (false = true); [|discriminate].
  apply H. apply in_seq. lia.
Qed.

Lemma no_pragma_line_by_search text :
  search no_flags pragma_pattern text = None -> no_pragma_line text.
Proof.
  intros H pre rest X Ht. apply pragma_line_refuted.
  eapply search_none; eauto.
Qed.

(** The example of the specification. *)
Lemma extract_metadata_example :
  exists md,
    extract_metadata
      (txt "pragma solidity ^0.8.0; contract Foo { function bar() public {} }")
    = Ok md
    /\ pragma md = Some (txt "^0.8.0")
    /\ contracts md = [txt "Foo"]
    /\ functions md = [txt "bar"].
Proof. eexists. split; [vm_compute; reflexivity|]. repeat split. Qed.

(** C5: when a statement [pragma solidity X;] occurs in the text,
    [extract_metadata] returns as pragma the expression [X] of the first
    one, without the whitespace around it (so [X] itself when it has
    none), whatever follows; when none occurs, the pragma is [None]. *)
Theorem extract_metadata_first_pragma (text : str) :
  (forall pre X, first_pragma_line text pre X ->
     exists md, extract_metadata text = Ok md
                /\ pragma md = Some (strip X)
                /\ (strip X = X -> pragma md = Some X))
  /\ (no_pragma_line text ->
      exists md, extract_metadata text = Ok md /\ pragma md = None).
Proof.
  split.
  - intros pre X (rest & Htext & Hline & Hfirst).
    destruct (extract_metadata_ok text) as (md & Hmd).
    exists md. split; [exact Hmd|].
    assert (Hp : pragma md = Some (strip X)).
    { rewrite (@extract_metadata_pragma text md Hmd).
      destruct (search no_flags pragma_pattern text) as [m|] eqn:Hs.
      - apply search_some in Hs.
        destruct Hs as (pre0 & rest0 & Htext0 & Hm & Hbefore).
        assert (Hlen : length pre0 = length pre).
        { destruct (Nat.lt_total (length pre0) (length pre)) as [Hlt|[Heq|Hgt]].
          - exfalso.
            assert (Hpre : matches_prefix no_flags pragma_pattern rest0).
            { apply match_at_sound in Hm. destruct Hm as (s2 & Hs2 & HM).
              exists (group0 m), s2, (group1 m). auto. }
            apply pragma_line_prefix in Hpre. destruct Hpre as (X' & HX').
            exact (Hfirst pre0 rest0 X' Htext0 Hlt HX').
          - exact Heq.
          - exfalso.
            assert (Hnone := Hbefore pre rest Htext Hgt).
            apply match_at_none in Hnone. apply Hnone.
            apply pragma_line_prefix. eauto. }
        rewrite Htext in Htext0.
        destruct (app_same_length pre0 rest0 pre rest Hlen (eq_sym Htext0)) as [_ ->].
        destruct (pragma_group Hm Hline) as (g & -> & Hg).
        simpl. congruence.
      - exfalso. apply search_none_iff in Hs. apply Hs.
        apply occurs_prefix. exists pre, rest. split; [exact Htext|].
        apply pragma_line_prefix. eauto. }
    split; [exact Hp|]. intros HX. rewrite Hp, HX. reflexivity.
  - intros Hno. destruct (extract_metadata_ok text) as (md & Hmd).
    exists md. split; [exact Hmd|].
    rewrite (@extract_metadata_pragma text md Hmd).
    destruct (search no_flags pragma_pattern text) as [m|] eqn:Hs; [|reflexivity].
    exfalso. apply search_some in Hs.
    destruct Hs as (pre0 & rest0 & Htext0 & Hm & _).
    assert (Hpre : matches_prefix no_flags pragma_pattern rest0).
    { apply match_at_sound in Hm. destruct Hm as (s2 & Hs2 & HM).
      exists (group0 m), s2, (group1 m). auto. }
    apply pragma_line_prefix in Hpre. destruct Hpre as (X' & HX').
    exact (Hno pre0 rest0 X' Htext0 HX').
Qed.

Lemma found_iff r content : found r content = true <-> occurs ignorecase r content.
Proof.
  unfold found. destruct (search ignorecase r content) as [m|] eqn:Hs.
  - split; auto. intros _. apply search_some in Hs.
    destruct Hs as (pre & rest & -> & Hm & _).
    apply match_at_sound in Hm. destruct Hm as (s2 & -> & HM).
    exists pre, (group0 m), s2, (group1 m). auto.
  - split; [discriminate|]. intros Ho. apply search_none_iff in Hs.
    contradiction.
Qed.

Lemma in_identify name content :
  In name (identify_security_patterns content) <->
  exists r, In (name, r) patterns /\ found r content = true.
Proof.
  unfold identify_security_patterns. rewrite in_map_iff. split.
  - intros ([n r] & Hn & Hin). simpl in Hn. subst n.
    apply filter_In in Hin. simpl in Hin. exists r. exact Hin.
  - intros (r & Hin & Hf). exists (name, r). split; [reflexivity|].
    apply filter_In. auto.
Qed.

Lemma assoc_unique {A B} (l : list (A * B)) n r r' :
  NoDup (map fst l) -> In (n, r) l -> In (n, r') l -> r = r'.
Proof.
  induction l as [|[a b] l IH]; simpl; intros Hnd H1 H2; [contradiction|].
  inversion Hnd as [|x xs Hnotin Hnd']; subst.
  destruct H1 as [H1|H1], H2 as [H2|H2].
  - congruence.
  - injection H1 as -> ->. exfalso. apply Hnotin.
    apply in_map_iff. exists (n, r'). auto.
  - injection H2 as -> ->. exfalso. apply Hnotin.
    apply in_map_iff. exists (n, r). auto.
  - auto.
Qed.

Lemma str_neq_dec (a b : str) : str_eqb a b = false -> a <> b.
Proof.
  intros H Heq. apply str_eqb_eq in Heq. congruence.
Qed.

Lemma patterns_names_distinct : NoDup (map fst patterns).
Proof.
  unfold patterns. simpl map.
  repeat (constructor;
          [simpl; repeat (intros [H|H]; [revert H; apply str_neq_dec; reflexivity|revert H]);
           intros []|]).
  constructor.
Qed.

(** C6: for every text, [extract_metadata] returns a result and does
    not raise, and [identify_security_patterns] returns a list; a pattern
    that occurs nowhere in the text gives [None] for the pragma, the
    empty list for the imports, contracts, functions, modifiers and
    events, and no tag. *)
Theorem parser_never_raises (content : str) :
  (exists md,
      extract_metadata content = Ok md
      /\ (~ occurs no_flags pragma_pattern content -> pragma md = None)
      /\ (~ occurs no_flags import_pattern content -> imports md = [])
      /\ (~ occurs dotall contract_pattern content -> contracts md = [])
      /\ (~ occurs dotall function_pattern content -> functions md = [])
      /\ (~ occurs dotall modifier_pattern content -> modifiers md = [])
      /\ (~ occurs no_flags event_pattern content -> events md = []))
  /\ (forall name r,
         In (name, r) patterns -> ~ occurs ignorecase r content ->
         ~ In name (identify_security_patterns content))
  /\ ((forall name r, In (name, r) patterns -> ~ occurs ignorecase r content) ->
      identify_security_patterns content = []).
Proof.
  split; [|split].
  - destruct (extract_metadata_ok content) as (md & Hmd).
    exists md. split; [exact Hmd|].
    pose proof (@extract_metadata_pragma content md Hmd) as Hp.
    unfold extract_metadata in Hmd.
    destruct (match search no_flags pragma_pattern content with
              | Some m => match group1_strip m with
                          | Ok p => Ok (Some p)
                          | Raise e => Raise e
                          end
              | None => Ok None
              end) as [pv|e]; [|discriminate].
    injection Hmd as <-. simpl in *.
    repeat split; intros Hno.
    + apply search_none_iff in Hno. rewrite Hno in Hp. exact Hp.
    + rewrite findall_nothing by exact Hno. reflexivity.
    + apply findall_nothing. exact Hno.
    + apply findall_nothing. exact Hno.
    + apply findall_nothing. exact Hno.
    + apply findall_nothing. exact Hno.
  - intros name r Hin Hno Hfound. apply in_identify in Hfound.
    destruct Hfound as (r' & Hin' & Hf).
    rewrite (assoc_unique _ _ _ _ patterns_names_distinct Hin Hin') in Hno.
    apply found_iff in Hf. contradiction.
  - intros Hno. destruct (identify_security_patterns content) as [|n l] eqn:Hi;
      [reflexivity|].
    exfalso. assert (Hin : In n (identify_security_patterns content))
      by (rewrite Hi; left; reflexivity).
    apply in_identify in Hin. destruct Hin as (r & Hin & Hf).
    apply found_iff in Hf. exact (Hno n r Hin Hf).
Qed.


Lemma access_control_in_patterns r :
  In (txt "access_control", r) patterns <-> r = access_control_pattern.
Proof.
  split.
  - intros H. apply (assoc_unique _ _ _ _ patterns_names_distinct H).
    unfold patterns. simpl. right. left. reflexivity.
  - intros ->. unfold patterns. simpl. right. left. reflexivity.
Qed.

Lemma not_occurs_by_search fl r s : search fl r s = None -> ~ occurs fl r s.
Proof. apply search_none_iff. Qed.

End PatternFacts.

(** ** The security patterns on arbitrary text *)

Module UnicodeFacts.
Import Re SolidityParser Unicode.

Section Sound.
Variable fl : flags.
Variable A : Type.

Lemma unicode_star_greedy_sound (p : N -> bool) (s : ustr) (k : ustr -> option A) x :
  star_greedy p s k = Some x ->
  exists s1 s2, s = s1 ++ s2 /\ forallb p s1 = true /\ k s2 = Some x.
Proof.
  induction s as [|c s IH]; simpl; intros H.
  - exists [], []. auto.
  - destruct (p c) eqn:Hp.
    + destruct (star_greedy p s k) eqn:Hs.
      * injection H as ->. destruct (IH eq_refl) as (s1 & s2 & -> & Hall & Hk).
        exists (c :: s1), s2. simpl. rewrite Hp. auto.
      * exists [], (c :: s). auto.
    + exists [], (c :: s). auto.
Qed.

Lemma unicode_star_lazy_sound (p : N -> bool) (s : ustr) (k : ustr -> option A) x :
  star_lazy p s k = Some x ->
  exists s1 s2, s = s1 ++ s2 /\ forallb p s1 = true /\ k s2 = Some x.
Proof.
  induction s as [|c s IH]; simpl; intros H.
  - destruct (k []) eqn:Hk; [|discriminate].
    exists [], []. injection H as ->. auto.
  - destruct (k (c :: s)) eqn:Hk.
    + injection H as ->. exists [], (c :: s). auto.
    + destruct (p c) eqn:Hp; [|discriminate].
      destruct (IH H) as (s1 & s2 & -> & Hall & Hk2).
      exists (c :: s1), s2. simpl. rewrite Hp. auto.
Qed.

Lemma unicode_star_greedy_complete (p : N -> bool) (s1 s2 : ustr)
      (k : ustr -> option A) :
  forallb p s1 = true -> k s2 <> None -> star_greedy p (s1 ++ s2) k <> None.
Proof.
  induction s1 as [|c s1 IH]; simpl; intros Hall Hk.
  - destruct s2 as [|c s2]; simpl; auto.
    destruct (p c); auto. destruct (star_greedy p s2 k); auto. discriminate.
  - apply andb_true_iff in Hall. destruct Hall as [Hp Hall].
    rewrite Hp. specialize (IH Hall Hk).
    destruct (star_greedy p (s1 ++ s2) k); [discriminate|contradiction].
Qed.

Lemma unicode_star_lazy_complete (p : N -> bool) (s1 s2 : ustr)
      (k : ustr -> option A) :
  forallb p s1 = true -> k s2 <> None -> star_lazy p (s1 ++ s2) k <> None.
Proof.
  induction s1 as [|c s1 IH]; simpl; intros Hall Hk.
  - destruct s2; simpl; destruct (k _); try discriminate; contradiction.
  - apply andb_true_iff in Hall. destruct Hall as [Hp Hall].
    destruct (k (c :: s1 ++ s2)); [discriminate|].
    rewrite Hp. apply IH; assumption.
Qed.

Lemma unicode_consumed (s1 s2 : ustr) :
  firstn (length (s1 ++ s2) - length s2) (s1 ++ s2) = s1.
Proof.
  rewrite length_app.
  replace (length s1 + length s2 - length s2) with (length s1 + 0) by lia.
  rewrite firstn_app_2. simpl. apply app_nil_r.
Qed.

(** What the matcher answers comes from a split of the text into a part
    the pattern denotes and a rest the continuation accepts. *)
Lemma unicode_run_sound (r : regex) :
  forall s g (k : ustr -> option ustr -> option A) x,
    run fl r s g k = Some x ->
    exists s1 s2 g', s = s1 ++ s2 /\ Matches fl r s1 g g' /\ k s2 g' = Some x.
Proof.
  induction r as [|a|r1 IH1 r2 IH2|r1 IH1 r2 IH2|b a|r1 IH1|r1 IH1];
    intros s g k x H; simpl in H.
  - exists [], s, g. repeat split; auto. constructor.
  - destruct s as [|c s]; [discriminate|].
    destruct (atom_matches fl a c) eqn:Ha; [|discriminate].
    exists [c], s, g. repeat split; auto. constructor. exact Ha.
  - apply IH1 in H. destruct H as (s1 & s2 & g1 & -> & M1 & H).
    apply IH2 in H. destruct H as (s1' & s2' & g2 & -> & M2 & H).
    exists (s1 ++ s1'), s2', g2. rewrite app_assoc. repeat split; auto.
    econstructor; eassumption.
  - destruct (run fl r1 s g k) eqn:H1.
    + injection H as ->. apply IH1 in H1.
      destruct H1 as (s1 & s2 & g1 & -> & M1 & H).
      exists s1, s2, g1. repeat split; auto. apply MAltL. exact M1.
    + apply IH2 in H. destruct H as (s1 & s2 & g1 & -> & M1 & H).
      exists s1, s2, g1. repeat split; auto. apply MAltR. exact M1.
  - destruct b.
    + apply unicode_star_greedy_sound in H. destruct H as (s1 & s2 & -> & Hall & H).
      exists s1, s2, g. repeat split; auto. constructor. exact Hall.
    + apply unicode_star_lazy_sound in H. destruct H as (s1 & s2 & -> & Hall & H).
      exists s1, s2, g. repeat split; auto. constructor. exact Hall.
  - destruct (run fl r1 s g k) eqn:H1.
    + injection H as ->. apply IH1 in H1.
      destruct H1 as (s1 & s2 & g1 & -> & M1 & H).
      exists s1, s2, g1. repeat split; auto. apply MOptSome. exact M1.
    + exists [], s, g. repeat split; auto. apply MOptNone.
  - apply IH1 in H. destruct H as (s1 & s2 & g1 & -> & M1 & H).
    rewrite unicode_consumed in H.
    exists s1, s2, (Some s1). repeat split; auto. econstructor. exact M1.
Qed.

(** A split into a part the pattern denotes and a rest the continuation
    accepts is found, possibly after others. *)
Lemma unicode_run_complete (r : regex) (s1 : ustr) g g' :
  Matches fl r s1 g g' ->
  forall s2 (k : ustr -> option ustr -> option A),
    k s2 g' <> None -> run fl r (s1 ++ s2) g k <> None.
Proof.
  induction 1 as [g|a c g Ha|r1 r2 s1 s1' g g1 g2 M1 IH1 M2 IH2
                  |r1 r2 s g g' M1 IH1|r1 r2 s g g' M1 IH1
                  |b a s g Hall|r1 s g g' M1 IH1|r1 g|r1 s g g' M1 IH1];
    intros s2 k Hk; simpl.
  - exact Hk.
  - rewrite Ha. exact Hk.
  - rewrite <- app_assoc. apply IH1. apply IH2. exact Hk.
  - specialize (IH1 s2 k Hk).
    destruct (run fl r1 (s ++ s2) g k); [discriminate|contradiction].
  - destruct (run fl r1 (s ++ s2) g k); [discriminate|].
    apply IH1. exact Hk.
  - destruct b.
    + apply unicode_star_greedy_complete; assumption.
    + apply unicode_star_lazy_complete; assumption.
  - specialize (IH1 s2 k Hk).
    destruct (run fl r1 (s ++ s2) g k); [discriminate|contradiction].
  - destruct (run fl r1 s2 g k); [discriminate|exact Hk].
  - apply IH1. rewrite unicode_consumed. exact Hk.
Qed.
End Sound.

Lemma unicode_search_some fl r s m :
  search fl r s = Some m -> occurs fl r s.
Proof.
  induction s as [|c s IH]; simpl; intros H.
  - destruct (match_at fl r []) eqn:Hm; [|discriminate].
    unfold match_at in Hm. apply unicode_run_sound in Hm.
    destruct Hm as (s1 & s2 & g & Hs & M1 & _).
    exists [], s1, s2, g. auto.
  - destruct (match_at fl r (c :: s)) eqn:Hm.
    + unfold match_at in Hm. apply unicode_run_sound in Hm.
      destruct Hm as (s1 & s2 & g & Hs & M1 & _).
      exists [], s1, s2, g. auto.
    + destruct (IH H) as (pre & mid & post & g & -> & M1).
      exists (c :: pre), mid, post, g. auto.
Qed.

Lemma unicode_search_none fl r s :
  search fl r s = None -> ~ occurs fl r s.
Proof.
  induction s as [|c s IH]; simpl; intros H (pre & mid & post & g & Hs & M1).
  - destruct (match_at fl r []) eqn:Hm; [discriminate|].
    destruct pre; [|discriminate]. simpl in Hs.
    unfold match_at in Hm. rewrite Hs in Hm.
    revert Hm. eapply unicode_run_complete; [exact M1|]. discriminate.
  - destruct (match_at fl r (c :: s)) eqn:Hm; [discriminate|].
    destruct pre as [|c' pre].
    + simpl in Hs. unfold match_at in Hm. rewrite Hs in Hm.
      revert Hm. eapply unicode_run_complete; [exact M1|]. discriminate.
    + simpl in Hs. injection Hs as -> Hs. apply (IH H).
      exists pre, mid, post, g. auto.
Qed.

(** [re.search] with [re.IGNORECASE] finds a match exactly when the
    pattern occurs. *)
Lemma unicode_found_iff r content :
  Unicode.found r content = true <-> occurs ignorecase r content.
Proof.
  unfold Unicode.found.
  destruct (search ignorecase r content) as [m|] eqn:Hs.
  - split; auto. intros _. eapply unicode_search_some. exact Hs.
  - split; [discriminate|]. intros Ho.
    apply unicode_search_none in Hs. contradiction.
Qed.

Lemma unicode_in_identify name content :
  In name (Unicode.identify_security_patterns content) <->
  exists r, In (name, r) patterns /\ Unicode.found r content = true.
Proof.
  unfold Unicode.identify_security_patterns. rewrite in_map_iff. split.
  - intros ([n r] & Hn & Hin). simpl in Hn. subst n.
    apply filter_In in Hin. simpl in Hin. exists r. exact Hin.
  - intros (r & Hin & Hf). exists (name, r). split; [reflexivity|].
    apply filter_In. auto.
Qed.

(** *** The characters of a pattern *)

Lemma tolower_cases c :
  unicode_tolower c = c
  \/ exists first last step image,
       In (first, last, step, image) lower_runs
       /\ (first <= c)%N
       /\ unicode_tolower c = (image + (c - first))%N.
Proof.
  unfold unicode_tolower.
  destruct (find (fun r => in_run r c) lower_runs) as [[[[first last] step] image]|]
    eqn:Hf; [|left; reflexivity].
  right. apply find_some in Hf. destruct Hf as [Hin Hrun].
  exists first, last, step, image. split; [exact Hin|].
  split; [|reflexivity].
  unfold in_run in Hrun.
  apply andb_true_iff in Hrun. destruct Hrun as [Hrun _].
  apply andb_true_iff in Hrun. destruct Hrun as [Hle _].
  apply N.leb_le. exact Hle.
Qed.

(** Every code point with the lower case [l] is in [preimage l]. *)
Lemma preimage_spec c l : unicode_tolower c = l -> In c (preimage l).
Proof.
  intros H. unfold preimage. apply filter_In. split.
  - unfold candidates.
    destruct (tolower_cases c) as [Hid|(first & last & step & image & Hin & Hle & Hc)].
    + left. congruence.
    + right. apply in_map_iff. exists (first, last, step, image).
      split; [|exact Hin]. rewrite <- H, Hc. lia.
  - apply N.eqb_eq. exact H.
Qed.

Lemma existsb_eqb_In (c : N) (l : list N) :
  existsb (N.eqb c) l = true <-> In c l.
Proof.
  rewrite existsb_exists. split.
  - intros (x & Hin & Hx). apply N.eqb_eq in Hx. subst. exact Hin.
  - intros H. exists c. split; [exact H|apply N.eqb_refl].
Qed.

Lemma lit_checked_ascii x : is_ascii x = true -> lit_checked x = true.
Proof.
  pose (f := fun x => implb (is_ascii x) (lit_checked x)).
  assert (Hf : all_ascii f = true) by (vm_compute; reflexivity).
  intros Hx. pose proof (all_ascii_spec f Hf x) as H. unfold f in H.
  rewrite Hx in H. exact H.
Qed.

(** Under [re.IGNORECASE] an ASCII character of the pattern matches its
    variants and nothing else. *)
Lemma lit_ignorecase_ascii x c :
  is_ascii x = true ->
  atom_matches ignorecase (Lit x) c = same_letter x c.
Proof.
  intros Hx. pose proof (lit_checked_ascii x Hx) as Hck.
  unfold lit_checked in Hck. apply andb_true_iff in Hck.
  destruct Hck as [Hfwd Hbwd].
  apply eq_true_iff_eq. split.
  - intros Hm. cbn [atom_matches IGNORECASE ignorecase andb] in Hm.
    destruct (unicode_iscased x).
    + apply existsb_eqb_In in Hm.
      rewrite forallb_forall in Hfwd. apply Hfwd.
      apply in_flat_map. exists (unicode_tolower c). split; [exact Hm|].
      apply preimage_spec. reflexivity.
    + apply N.eqb_eq in Hm. subst c.
      unfold same_letter. destruct (variants x) as [|v [|v' vs]];
        try discriminate Hfwd.
      apply N.eqb_eq in Hfwd. subst v. simpl. rewrite N.eqb_refl. reflexivity.
  - intros Hs. unfold same_letter in Hs. apply existsb_eqb_In in Hs.
    rewrite forallb_forall in Hbwd. apply Hbwd. exact Hs.
Qed.

Lemma space_ignorecase_unicode c :
  atom_matches ignorecase space c = unicode_isspace c.
Proof.
  unfold space, atom_matches.
  cbn [hascased existsb andb orb IGNORECASE ignorecase item_matches xorb].
  rewrite orb_false_r. reflexivity.
Qed.

Lemma unicode_Matches_Seq fl r1 r2 s g g' :
  Matches fl (Seq r1 r2) s g g' <->
  exists s1 s2 g1, s = s1 ++ s2 /\ Matches fl r1 s1 g g1 /\ Matches fl r2 s2 g1 g'.
Proof.
  split.
  - intros H. inversion H; subst. eauto 7.
  - intros (s1 & s2 & g1 & -> & H1 & H2). econstructor; eassumption.
Qed.

Lemma unicode_Matches_Alt fl r1 r2 s g g' :
  Matches fl (Alt r1 r2) s g g' <-> Matches fl r1 s g g' \/ Matches fl r2 s g g'.
Proof.
  split.
  - intros H. inversion H; subst; auto.
  - intros [H|H]; [apply MAltL|apply MAltR]; exact H.
Qed.

Lemma unicode_Matches_Atom fl a s g g' :
  Matches fl (Atom a) s g g' <->
  exists c, s = [c] /\ atom_matches fl a c = true /\ g' = g.
Proof.
  split.
  - intros H. inversion H; subst. eauto.
  - intros (c & -> & Ha & ->). constructor. exact Ha.
Qed.

Lemma unicode_Matches_Star fl b a s g g' :
  Matches fl (Star b a) s g g' <->
  forallb (atom_matches fl a) s = true /\ g' = g.
Proof.
  split.
  - intros H. inversion H; subst. auto.
  - intros (Ha & ->). constructor. exact Ha.
Qed.

(** A literal word matches the texts that agree with it character by
    character. *)
Lemma unicode_Matches_Lits fl w : forall s g g',
  Matches fl (Lits w) s g g' <->
  Forall2 (fun x c => atom_matches fl (Lit x) c = true) w s /\ g' = g.
Proof.
  induction w as [|x w IH]; intros s g g'.
  - simpl. split.
    + intros H. inversion H; subst. auto.
    + intros (H & ->). inversion H; subst. constructor.
  - destruct w as [|y w].
    + simpl. rewrite unicode_Matches_Atom. split.
      * intros (c & -> & Hc & ->). auto.
      * intros (H & ->). inversion H as [|x' c w' s' Hc Hrest]; subst.
        inversion Hrest; subst. eauto.
    + change (Lits (x :: y :: w)) with (Seq (Atom (Lit x)) (Lits (y :: w))).
      rewrite unicode_Matches_Seq. split.
      * intros (s1 & s2 & g1 & -> & H1 & H2).
        apply unicode_Matches_Atom in H1. destruct H1 as (c & -> & Hc & ->).
        apply IH in H2. destruct H2 as (H2 & ->). simpl. auto.
      * intros (H & ->). inversion H as [|x' c w' s' Hc Hrest]; subst.
        exists [c], s', g. repeat split; auto.
        -- apply unicode_Matches_Atom. eauto.
        -- apply IH. auto.
Qed.

(** An ASCII word of a pattern matches, ignoring case, the texts that
    spell it. *)
Lemma Matches_word w s g g' :
  forallb is_ascii w = true ->
  Matches ignorecase (Lits w) s g g' <-> spelled w s /\ g' = g.
Proof.
  intros Hw. rewrite unicode_Matches_Lits. unfold spelled.
  assert (H : Forall2 (fun x c => atom_matches ignorecase (Lit x) c = true) w s
              <-> Forall2 (fun x c => same_letter x c = true) w s).
  { revert s. induction w as [|x w IH]; intros s.
    - split; intros H; inversion H; constructor.
    - simpl in Hw. apply andb_true_iff in Hw. destruct Hw as [Hx Hw].
      split; intros H; inversion H as [|x' c w' s' Hc Hrest]; subst;
        constructor.
      + rewrite <- (lit_ignorecase_ascii x c Hx). exact Hc.
      + apply IH; assumption.
      + rewrite (lit_ignorecase_ascii x c Hx). exact Hc.
      + apply IH; assumption. }
  rewrite H. reflexivity.
Qed.

Lemma all_space_unicode (s : ustr) :
  forallb (atom_matches ignorecase space) s = true <-> all_unicode_space s.
Proof.
  unfold all_unicode_space.
  rewrite (PatternFacts.forallb_ext_eq _ _ s space_ignorecase_unicode).
  reflexivity.
Qed.

(** What the access-control pattern denotes on code points. *)
Lemma access_control_denotes s g :
  Matches ignorecase access_control_pattern s None g <->
  (spelled (txt "onlyOwner") s
   \/ spelled (txt "onlyAdmin") s
   \/ exists kw ws1 ws2 who,
        s = kw ++ ws1 ++ [40%N] ++ ws2 ++ who
        /\ spelled (txt "require") kw
        /\ all_unicode_space ws1 /\ all_unicode_space ws2
        /\ spelled (txt "msg.sender") who)
  /\ g = None.
Proof.
  unfold access_control_pattern, alts, seqs, L, C, space_star.
  cbn [txt list_ascii_of_string].
  rewrite !unicode_Matches_Alt.
  rewrite !Matches_word by reflexivity.
  split.
  - intros [(H & ->)|[(H & ->)|H]]; [tauto|tauto|].
    apply unicode_Matches_Seq in H. destruct H as (kw & s1 & g1 & -> & Hkw & H).
    apply Matches_word in Hkw; [|reflexivity]. destruct Hkw as (Hkw & ->).
    apply unicode_Matches_Seq in H. destruct H as (ws1 & s2 & g2 & -> & Hws1 & H).
    apply unicode_Matches_Star in Hws1. destruct Hws1 as (Hws1 & ->).
    apply unicode_Matches_Seq in H. destruct H as (p & s3 & g3 & -> & Hp & H).
    apply unicode_Matches_Atom in Hp. destruct Hp as (c & -> & Hc & ->).
    apply unicode_Matches_Seq in H. destruct H as (ws2 & who & g4 & -> & Hws2 & H).
    apply unicode_Matches_Star in Hws2. destruct Hws2 as (Hws2 & ->).
    apply Matches_word in H; [|reflexivity]. destruct H as (Hwho & ->).
    cbn in Hc. apply N.eqb_eq in Hc. subst c.
    split; [|reflexivity]. right. right.
    exists kw, ws1, ws2, who. repeat split; auto; apply all_space_unicode; auto.
  - intros ([H|[H|(kw & ws1 & ws2 & who & -> & Hkw & Hs1 & Hs2 & Hwho)]] & ->);
      [tauto|tauto|].
    right. right.
    apply unicode_Matches_Seq. exists kw, (ws1 ++ [40%N] ++ ws2 ++ who), None.
    repeat split. { apply Matches_word; [reflexivity|]. auto. }
    apply unicode_Matches_Seq. exists ws1, ([40%N] ++ ws2 ++ who), None.
    repeat split. { apply unicode_Matches_Star. split; auto. apply all_space_unicode. auto. }
    apply unicode_Matches_Seq. exists [40%N], (ws2 ++ who), None.
    repeat split. { apply unicode_Matches_Atom. exists 40%N. repeat split. }
    apply unicode_Matches_Seq. exists ws2, who, None.
    repeat split. { apply unicode_Matches_Star. split; auto. apply all_space_unicode. auto. }
    apply Matches_word; [reflexivity|]. auto.
Qed.

Lemma access_control_occurs text :
  occurs ignorecase access_control_pattern text <->
  contains_ci (txt "onlyOwner") text \/ contains_ci (txt "onlyAdmin") text
  \/ contains_require_sender text.
Proof.
  unfold occurs, contains_ci, contains_require_sender. split.
  - intros (pre & mid & post & g & -> & H). apply access_control_denotes in H.
    destruct H as ([H|[H|(kw & ws1 & ws2 & who & -> & H)]] & _).
    + left. eauto.
    + right. left. eauto.
    + right. right. exists pre, kw, ws1, ws2, who, post.
      repeat rewrite <- app_assoc. split; [reflexivity|exact H].
  - intros [(pre & mid & post & -> & H)|[(pre & mid & post & -> & H)
           |(pre & kw & ws1 & ws2 & who & post & -> & H)]].
    + exists pre, mid, post, None. split; auto.
      apply access_control_denotes. auto.
    + exists pre, mid, post, None. split; auto.
      apply access_control_denotes. auto.
    + exists pre, (kw ++ ws1 ++ [40%N] ++ ws2 ++ who), post, None.
      split; [repeat rewrite <- app_assoc; reflexivity|].
      apply access_control_denotes. split; auto.
      right. right. exists kw, ws1, ws2, who. auto.
Qed.

(** C3, as the program has it: the tag [access_control] is reported
    exactly for the texts that contain [onlyOwner], [onlyAdmin], or
    [require], optional whitespace, an opening parenthesis, optional
    whitespace and [msg.sender], compared as [re.IGNORECASE] compares on
    arbitrary text: letter case apart, and with U+0130 and U+0131 also
    taken for [i], U+017F for [s] and U+212A for [k]; whitespace is any
    Unicode whitespace. *)
Theorem access_control_tag (text : ustr) :
  In (txt "access_control") (Unicode.identify_security_patterns text) <->
  contains_ci (txt "onlyOwner") text \/ contains_ci (txt "onlyAdmin") text
  \/ contains_require_sender text.
Proof.
  rewrite unicode_in_identify, <- access_control_occurs. split.
  - intros (r & Hin & Hf).
    apply PatternFacts.access_control_in_patterns in Hin. subst r.
    apply unicode_found_iff. exact Hf.
  - intros H. exists access_control_pattern. split.
    + apply PatternFacts.access_control_in_patterns. reflexivity.
    + apply unicode_found_iff. exact H.
Qed.

(** For C3: [onlyAdmin] is tagged although it contains neither
    [onlyOwner] nor [require(msg.sender]; and whitespace around the dot
    is not accepted. *)
Lemma access_control_only_admin :
  (In (txt "access_control")
      (Unicode.identify_security_patterns (of_str (txt "onlyAdmin")))
   /\ ~ occurs ignorecase spec_access_control (of_str (txt "onlyAdmin")))
  /\ (occurs ignorecase spec_access_control
             (of_str (txt "require(msg . sender == owner)"))
      /\ ~ In (txt "access_control")
             (Unicode.identify_security_patterns
                (of_str (txt "require(msg . sender == owner)")))).
Proof.
  split; split.
  - vm_compute. left. reflexivity.
  - apply unicode_search_none. vm_compute. reflexivity.
  - apply unicode_found_iff. vm_compute. reflexivity.
  - vm_compute. intros [].
Qed.

(** A text with a dotless i (U+0131) in the place of [i] is tagged, and so
    is one with a long s (U+017F) in the place of [s]. *)
Example access_control_beyond_letter_case :
  In (txt "access_control")
     (Unicode.identify_security_patterns
        (of_str (txt "onlyAdm") ++ [305%N] ++ of_str (txt "n")))
  /\ In (txt "access_control")
        (Unicode.identify_security_patterns
           (of_str (txt "require (m") ++ [383%N] ++ of_str (txt "g.sender)")))
  /\ ~ In (txt "access_control")
         (Unicode.identify_security_patterns
            (of_str (txt "onlyAdm") ++ [239%N] ++ of_str (txt "n"))).
Proof.
  split; [|split].
  - vm_compute. left. reflexivity.
  - vm_compute. left. reflexivity.
  - vm_compute. intros [].
Qed.

(** *** Text of code points below 256 *)

Lemma atom_below_256 a c :
  agree_below_256 a = true ->
  Unicode.atom_matches ignorecase a (point c) = Re.atom_matches ignorecase a c.
Proof.
  unfold agree_below_256. intros H.
  pose proof (all_ascii_spec _ H c) as Hc. cbv beta in Hc.
  apply Bool.eqb_prop in Hc. exact Hc.
Qed.

Lemma star_greedy_below_256 {A B} (p : ascii -> bool) (q : N -> bool)
      (k : str -> option A) (k' : ustr -> option B) :
  (forall c, q (point c) = p c) ->
  (forall s', is_found (k' (of_str s')) = is_found (k s')) ->
  forall s,
    is_found (Unicode.star_greedy q (of_str s) k')
    = is_found (Re.star_greedy p s k).
Proof.
  intros Hpq Hk. induction s as [|c s IH].
  - simpl. apply (Hk []).
  - cbn [of_str map Unicode.star_greedy Re.star_greedy].
    fold (of_str s). rewrite Hpq.
    pose proof (Hk (c :: s)) as Hhere. cbn [of_str map] in Hhere.
    fold (of_str s) in Hhere.
    destruct (p c); [|exact Hhere].
    destruct (Unicode.star_greedy q (of_str s) k'),
             (Re.star_greedy p s k); simpl in IH; try discriminate IH; auto.
Qed.

Lemma star_lazy_below_256 {A B} (p : ascii -> bool) (q : N -> bool)
      (k : str -> option A) (k' : ustr -> option B) :
  (forall c, q (point c) = p c) ->
  (forall s', is_found (k' (of_str s')) = is_found (k s')) ->
  forall s,
    is_found (Unicode.star_lazy q (of_str s) k')
    = is_found (Re.star_lazy p s k).
Proof.
  intros Hpq Hk. induction s as [|c s IH].
  - pose proof (Hk []) as Hhere. simpl in *.
    destruct (k' []), (k []); simpl in *; try discriminate Hhere; auto.
  - pose proof (Hk (c :: s)) as Hhere.
    cbn [of_str map Unicode.star_lazy Re.star_lazy] in *.
    fold (of_str s) in *. rewrite Hpq.
    destruct (k' (point c :: of_str s)), (k (c :: s));
      simpl in Hhere; try discriminate Hhere; auto.
    destruct (p c); auto.
Qed.

(** On text below 256 the two matchers find a match for the same
    patterns, whatever the continuation does with it. *)
Lemma run_below_256 {A B} (r : regex) :
  forallb agree_below_256 (atoms r) = true ->
  forall s g g' (k : str -> option str -> option A)
         (k' : ustr -> option ustr -> option B),
    (forall s' g1 g1', is_found (k' (of_str s') g1') = is_found (k s' g1)) ->
    is_found (Unicode.run ignorecase r (of_str s) g' k')
    = is_found (Re.run ignorecase r s g k).
Proof.
  induction r as [|a|r1 IH1 r2 IH2|r1 IH1 r2 IH2|b a|r1 IH1|r1 IH1];
    intros Hat s g g' k k' Hk; cbn [atoms] in Hat.
  - simpl. apply Hk.
  - simpl in Hat. rewrite andb_true_r in Hat.
    destruct s as [|c s]; [reflexivity|].
    cbn [of_str map Unicode.run Re.run]. fold (of_str s).
    rewrite (atom_below_256 a c Hat).
    destruct (Re.atom_matches ignorecase a c); [apply Hk|reflexivity].
  - rewrite forallb_app in Hat. apply andb_true_iff in Hat.
    destruct Hat as [H1 H2]. cbn [Unicode.run Re.run].
    apply (IH1 H1). intros s' g1 g1'. apply (IH2 H2). exact Hk.
  - rewrite forallb_app in Hat. apply andb_true_iff in Hat.
    destruct Hat as [H1 H2]. cbn [Unicode.run Re.run].
    pose proof (IH1 H1 s g g' k k' Hk) as E1.
    pose proof (IH2 H2 s g g' k k' Hk) as E2.
    destruct (Unicode.run ignorecase r1 (of_str s) g' k'),
             (Re.run ignorecase r1 s g k); simpl in E1; try discriminate E1; auto.
  - simpl in Hat. rewrite andb_true_r in Hat.
    cbn [Unicode.run Re.run]. destruct b.
    + apply star_greedy_below_256; [intros c; apply atom_below_256; exact Hat|].
      intros s'. apply Hk.
    + apply star_lazy_below_256; [intros c; apply atom_below_256; exact Hat|].
      intros s'. apply Hk.
  - cbn [Unicode.run Re.run].
    pose proof (IH1 Hat s g g' k k' Hk) as E1.
    pose proof (Hk s g g') as E2.
    destruct (Unicode.run ignorecase r1 (of_str s) g' k'),
             (Re.run ignorecase r1 s g k); simpl in E1; try discriminate E1; auto.
  - cbn [Unicode.run Re.run]. apply (IH1 Hat). intros s' g1 g1'. apply Hk.
Qed.

Lemma search_below_256 (r : regex) :
  forallb agree_below_256 (atoms r) = true ->
  forall s,
    is_found (Unicode.search ignorecase r (of_str s))
    = is_found (Re.search ignorecase r s).
Proof.
  intros Hat. 
  assert (Hm : forall s, is_found (Unicode.match_at ignorecase r (of_str s))
                         = is_found (Re.match_at ignorecase false r s)).
  { intros s. unfold Unicode.match_at, Re.match_at.
    apply (run_below_256 r Hat). reflexivity. }
  induction s as [|c s IH].
  - specialize (Hm []). simpl in *.
    destruct (Unicode.match_at ignorecase r []),
             (Re.match_at ignorecase false r []);
      simpl in Hm; try discriminate Hm; auto.
  - specialize (Hm (c :: s)).
    cbn [of_str map Unicode.search Re.search] in *. fold (of_str s) in *.
    destruct (Unicode.match_at ignorecase r (point c :: of_str s)),
             (Re.match_at ignorecase false r (c :: s));
      simpl in Hm; try discriminate Hm; auto.
Qed.

(** On text of code points below 256 the tags are the ones of
    [SolidityParser.identify_security_patterns]. *)
Lemma identify_below_256 (content : str) :
  Unicode.identify_security_patterns (of_str content)
  = SolidityParser.identify_security_patterns content.
Proof.
  unfold Unicode.identify_security_patterns,
         SolidityParser.identify_security_patterns.
  f_equal. apply filter_ext_in. intros [name r] Hin. cbn [snd].
  assert (Hall : forallb (fun p => forallb agree_below_256 (atoms (snd p)))
                         patterns = true) by (vm_compute; reflexivity).
  rewrite forallb_forall in Hall. specialize (Hall _ Hin). cbn [snd] in Hall.
  pose proof (search_below_256 r Hall content) as Hs.
  unfold Unicode.found, SolidityParser.found.
  destruct (Unicode.search ignorecase r (of_str content)),
           (Re.search ignorecase r content); simpl in Hs;
    try discriminate Hs; reflexivity.
Qed.

End UnicodeFacts.

(** ** Templates *)

Module TemplateFacts.
Import Template.



Lemma emits_cons c s r : emit (PChar c) (emits s r) = emits (c :: s) r.
Proof. destruct r; reflexivity. Qed.

Lemma parse_plain (a rest : str) :
  forallb not_brace a = true ->
  parse (a ++ rest) Text = emits a (parse rest Text).
Proof.
  induction a as [|c a IH]; simpl; intros H.
  - destruct (parse rest Text); reflexivity.
  - apply andb_true_iff in H. destruct H as [Hc H].
    unfold not_brace in Hc. apply andb_true_iff in Hc. destruct Hc as [Hl Hr].
    apply negb_true_iff in Hl, Hr. rewrite Hl, Hr, (IH H).
    apply emits_cons.
Qed.

Lemma replace_app old new (a b : str) :
  replace old new (a ++ b) = replace old new a ++ replace old new b.
Proof.
  induction a as [|c a IH]; simpl; [reflexivity|].
  rewrite IH, app_assoc. reflexivity.
Qed.

Lemma escape_braces_cons c (s : str) :
  escape_braces (c :: s) =
  (if ascii_eqb c lbrace then [lbrace; lbrace]
   else if ascii_eqb c rbrace then [rbrace; rbrace]
   else [c]) ++ escape_braces s.
Proof.
  unfold escape_braces, lbrace, rbrace. simpl replace at 2.
  rewrite replace_app. f_equal.
  destruct (ascii_eqb c "{") eqn:Hl.
  - reflexivity.
  - simpl. destruct (ascii_eqb c "}"); reflexivity.
Qed.

(** Escaped text is read back as the literal characters it came from. *)
Lemma parse_escaped (s rest : str) :
  parse (escape_braces s ++ rest) Text = emits s (parse rest Text).
Proof.
  induction s as [|c s IH].
  - simpl. destruct (parse rest Text); reflexivity.
  - rewrite escape_braces_cons, <- app_assoc.
    destruct (ascii_eqb c lbrace) eqn:Hl.
    + apply ascii_eqb_eq in Hl. subst c. simpl. rewrite IH. apply emits_cons.
    + destruct (ascii_eqb c rbrace) eqn:Hr.
      * apply ascii_eqb_eq in Hr. subst c. simpl. rewrite IH. apply emits_cons.
      * simpl. rewrite Hl, Hr, IH. apply emits_cons.
Qed.

Lemma emits_app a b r : emits a (emits b r) = emits (a ++ b) r.
Proof. destruct r; simpl; [|reflexivity]. rewrite map_app, app_assoc. reflexivity. Qed.

Lemma render_chars (s : str) ps kw :
  render (map PChar s ++ ps) kw =
  match render ps kw with
  | Ok t => Ok (s ++ t)
  | Raise e => Raise e
  end.
Proof.
  induction s as [|c s IH]; simpl.
  - destruct (render ps kw); reflexivity.
  - rewrite IH. destruct (render ps kw); reflexivity.
Qed.

Lemma parse_escaped_alone (s : str) :
  parse (escape_braces s) Text = Ok (map PChar s).
Proof.
  rewrite <- (app_nil_r (escape_braces s)), parse_escaped. simpl.
  rewrite app_nil_r. reflexivity.
Qed.



Lemma system_template_shape c :
  system_template_of c = context_heading ++ c ++ context_closing.
Proof.
  unfold system_template_of, context_heading, context_closing.
  repeat rewrite <- app_assoc. reflexivity.
Qed.

Lemma parse_system_template (context : str) :
  parse (system_template_of (escape_braces context)) Text =
  Ok (map PChar (system_template_of context)).
Proof.
  rewrite !system_template_shape.
  rewrite parse_plain by (vm_compute; reflexivity).
  rewrite parse_escaped.
  rewrite <- (app_nil_r context_closing) at 1.
  rewrite parse_plain by (vm_compute; reflexivity).
  rewrite !emits_app. simpl. rewrite !app_nil_r. reflexivity.
Qed.

Lemma render_literal (s : str) kw : render (map PChar s) kw = Ok s.
Proof.
  rewrite <- (app_nil_r (map PChar s)), render_chars. simpl.
  rewrite app_nil_r. reflexivity.
Qed.


Lemma parse_human_template :
  parse human_template Text =
  Ok (map PChar (txt "User Query: ") ++ PField (txt "query") :: map PChar human_closing).
Proof. vm_compute. reflexivity. Qed.

Lemma format_human (q : str) :
  format {| template := human_template |} [(txt "query", q)] = Ok (human_message_of q).
Proof.
  unfold format. simpl template. rewrite parse_human_template.
  rewrite render_chars.
  change (render (PField (txt "query") :: map PChar human_closing)
                 [(txt "query", q)])
    with (match render (map PChar human_closing) [(txt "query", q)] with
          | Ok t => Ok (q ++ t)
          | Raise e => Raise e
          end).
  rewrite render_literal. reflexivity.
Qed.



Lemma create_audit_prompt_ok (user_query context : str) :
  exists prompt,
    _create_audit_prompt user_query context = Ok prompt
    /\ format_messages prompt [(txt "query", user_query)]
       = Ok [SystemMessage (system_template_of context);
             HumanMessage (human_message_of user_query)].
Proof.
  unfold _create_audit_prompt, from_template.
  rewrite parse_system_template, parse_human_template.
  eexists. split; [reflexivity|].
  unfold format_messages. simpl system_message_prompt. simpl human_message_prompt.
  rewrite format_human.
  unfold format. simpl template. rewrite parse_system_template, render_literal.
  reflexivity.
Qed.

(** Composing the messages never fails. *)
Lemma messages_to_send_ok (user_message context : str) :
  messages_to_send user_message context
  = Ok (prompt_messages user_message context).
Proof.
  unfold messages_to_send, prompt_messages.
  destruct (has_context context); [|reflexivity].
  destruct (create_audit_prompt_ok user_message context) as (p & -> & ->).
  reflexivity.
Qed.

(** C4: for every user input and every retrieved context, the escaped
    text is read back by the template parser as the very characters it
    came from, building the prompt cannot fail, and the formatted
    messages carry the context and the user input verbatim, braces
    included; so the messages [chat] composes are always the intended
    ones. *)
Theorem prompt_assembly_keeps_braces (user_query context : str) :
  parse (escape_braces user_query) Text = Ok (map PChar user_query)
  /\ parse (escape_braces context) Text = Ok (map PChar context)
  /\ (exists prompt,
         _create_audit_prompt user_query context = Ok prompt
         /\ format_messages prompt [(txt "query", user_query)]
            = Ok [SystemMessage (system_template_of context);
                  HumanMessage (human_message_of user_query)])
  /\ messages_to_send user_query context
     = Ok (prompt_messages user_query context).
Proof.
  split; [apply parse_escaped_alone|]. split; [apply parse_escaped_alone|].
  split; [apply create_audit_prompt_ok|apply messages_to_send_ok].
Qed.

End TemplateFacts.

(** ** The process state *)

Ltac prog :=
  cbv [chat get_relevant_context search_contracts ensure_vector_store
       initialize_vector_store list_indexes create_index similarity_search
       add_texts request record_call update_pc set_vector_store
       get_vector_store try_except bind ret raise lift get_history
       append_history llm_ainvoke ingest_contract clear_conversation].

Ltac world_cbn :=
  cbn [pc vector_store conversation_history calls fst snd indexes vectors failing].

Ltac crunch :=
  repeat (world_cbn;
          match goal with
          | |- context [failing (pc ?w) ?a] => destruct (failing (pc w) a) eqn:?
          | |- context [existsb ?f ?l] => destruct (existsb f l) eqn:?
          | |- context [vector_store ?w] => destruct (vector_store w) eqn:?
          end);
  world_cbn.

Lemma llm_requests_app a b : llm_requests (a ++ b) = llm_requests a ++ llm_requests b.
Proof.
  induction a as [|c a IH]; simpl; [reflexivity|].
  destruct c; simpl; rewrite IH; reflexivity.
Qed.

Lemma search_requests_app a b :
  search_requests (a ++ b) = search_requests a ++ search_requests b.
Proof.
  induction a as [|c a IH]; simpl; [reflexivity|].
  destruct c; simpl; rewrite IH; reflexivity.
Qed.

Lemma add_requests_app a b : add_requests (a ++ b) = add_requests a ++ add_requests b.
Proof.
  induction a as [|c a IH]; simpl; [reflexivity|].
  destruct c; simpl; rewrite IH; reflexivity.
Qed.

Ltac calls_simpl :=
  repeat rewrite ?llm_requests_app, ?search_requests_app, ?add_requests_app;
  cbn [llm_requests search_requests add_requests];
  repeat rewrite ?app_nil_r.

Lemma last_n_length {A} n (l : list A) : length (last_n n l) <= n.
Proof. unfold last_n. rewrite length_skipn. lia. Qed.

Lemma last_n_suffix {A} n (l : list A) :
  l = firstn (length l - n) l ++ last_n n l.
Proof. unfold last_n. symmetry. apply firstn_skipn. Qed.

Section WorldFacts.
Variable E : Env.

(** Fetching the context never raises, leaves the conversation alone and
    does not talk to the chat model. *)
Lemma get_relevant_context_frame q w :
  exists ctx w1,
    get_relevant_context E q w = (Ok ctx, w1)
    /\ conversation_history w1 = conversation_history w
    /\ llm_requests (calls w1) = llm_requests (calls w).
Proof.
  prog. crunch;
    try match goal with
        | |- context [match map ?f ?l with _ => _ end] => destruct (map f l)
        end;
    do 2 eexists; (split; [reflexivity|]); world_cbn;
    (split; [reflexivity|]); calls_simpl; reflexivity.
Qed.


Lemma context_phase_frame q ic w :
  exists ctx w1,
    context_phase E q ic w = (Ok ctx, w1)
    /\ conversation_history w1 = conversation_history w
    /\ llm_requests (calls w1) = llm_requests (calls w).
Proof.
  unfold context_phase. destruct ic.
  - apply get_relevant_context_frame.
  - exists [], w. auto.
Qed.


(** [chat], step by step. *)
Lemma chat_unfold user_message ic w ctx w1 :
  context_phase E user_message ic w = (Ok ctx, w1) ->
  let full := last_n 10 (conversation_history w1)
              ++ prompt_messages user_message ctx in
  chat E user_message ic w =
  match ainvoke E full with
  | Ok reply =>
      (Ok (ChatOk reply (has_context ctx) (now_isoformat E)),
       answered (asked w1 full) user_message reply)
  | Raise e =>
      (Ok (ChatFailed (txt "Chat failed: " ++ e)), asked w1 full)
  end.
Proof.
  intros Hctx full. unfold chat, try_except.
  unfold bind at 1. fold (context_phase E user_message ic). rewrite Hctx.
  unfold bind at 1. unfold lift at 1.
  rewrite TemplateFacts.messages_to_send_ok.
  unfold bind at 1. unfold get_history at 1.
  unfold bind at 1. unfold llm_ainvoke, bind, record_call, lift.
  fold full. unfold asked, answered.
  destruct (ainvoke E full); reflexivity.
Qed.

End WorldFacts.

Section ChatFacts.
Variable E : Env.

(** What one call of [chat] does, whatever the state: one request to the
    model, made of the history window and the two prompt messages; on a
    reply the two appends, on a failure nothing. *)
Lemma chat_cases user_message ic w :
  exists ctx full,
    full = last_n 10 (conversation_history w) ++ prompt_messages user_message ctx
    /\ llm_requests (calls (snd (chat E user_message ic w)))
       = llm_requests (calls w) ++ [full]
    /\ match ainvoke E full with
       | Ok reply =>
           fst (chat E user_message ic w)
           = Ok (ChatOk reply (has_context ctx) (now_isoformat E))
           /\ conversation_history (snd (chat E user_message ic w))
              = conversation_history w
                ++ [HumanMessage user_message; AIMessage reply]
       | Raise e =>
           fst (chat E user_message ic w)
           = Ok (ChatFailed (txt "Chat failed: " ++ e))
           /\ conversation_history (snd (chat E user_message ic w))
              = conversation_history w
       end.
Proof.
  destruct (context_phase_frame E user_message ic w) as (ctx & w1 & Hctx & Hh & Hl).
  rewrite (chat_unfold E user_message ic w Hctx). rewrite Hh.
  exists ctx. eexists. split; [reflexivity|].
  destruct (ainvoke E _) as [reply|e]; cbn [fst snd asked answered calls
                                              conversation_history];
    calls_simpl; rewrite Hl, ?Hh, <- ?app_assoc; auto.
Qed.


(** C10: when the request a chat call makes to the model fails, the call
    returns the failure result and the conversation history is the one
    from before the call. *)
Theorem failed_chat_keeps_history user_message ic w r w' ms e :
  chat E user_message ic w = (r, w') ->
  llm_requests (calls w') = llm_requests (calls w) ++ [ms] ->
  ainvoke E ms = Raise e ->
  r = Ok (ChatFailed (txt "Chat failed: " ++ e))
  /\ conversation_history w' = conversation_history w.
Proof.
  intros Hchat Hreq Hfail.
  destruct (chat_cases user_message ic w) as (ctx & full & _ & Hl & Hcase).
  rewrite Hchat in Hl, Hcase. cbn [fst snd] in Hl, Hcase.
  rewrite Hreq in Hl. apply app_inv_head in Hl. injection Hl as ->.
  rewrite Hfail in Hcase. exact Hcase.
Qed.

Lemma last_n_window {A} n (l : list A) :
  l = firstn (length l - n) l ++ last_n n l
  /\ length (last_n n l) = Nat.min n (length l).
Proof.
  split; [apply last_n_suffix|].
  unfold last_n. rewrite length_skipn. lia.
Qed.

(** C9: the request a chat call makes to the model is a trailing window
    of the history followed by the two prompt messages.  The window is
    the end of the history, ten entries long or the whole history when
    that is shorter; the entries before it are not sent, and they are
    still in the history after the call, in front of the window. *)
Theorem chat_sends_trailing_window user_message ic w r w' :
  chat E user_message ic w = (r, w') ->
  exists older window system human newer,
    conversation_history w = older ++ window
    /\ length window = Nat.min 10 (length (conversation_history w))
    /\ llm_requests (calls w')
       = llm_requests (calls w)
         ++ [window ++ [SystemMessage system; HumanMessage human]]
    /\ conversation_history w' = older ++ window ++ newer.
Proof.
  intros Hchat.
  destruct (chat_cases user_message ic w) as (ctx & full & Hfull & Hl & Hcase).
  rewrite Hchat in Hl, Hcase. cbn [fst snd] in Hl, Hcase. subst full.
  destruct (last_n_window 10 (conversation_history w)) as (Hsplit & Hlen).
  assert (Hp : exists system human,
             prompt_messages user_message ctx
             = [SystemMessage system; HumanMessage human]).
  { unfold prompt_messages. destruct (has_context ctx); eauto. }
  destruct Hp as (system & human & Hp). rewrite Hp in Hl.
  exists (firstn (length (conversation_history w) - 10) (conversation_history w)),
         (last_n 10 (conversation_history w)), system, human.
  destruct (ainvoke E _) as [reply|e]; destruct Hcase as [_ Hh].
  - exists [HumanMessage user_message; AIMessage reply].
    repeat split; auto. rewrite Hh, app_assoc, <- Hsplit. reflexivity.
  - exists []. repeat split; auto. rewrite Hh, app_nil_r. exact Hsplit.
Qed.

End ChatFacts.

Section StoreFacts.
Variable E : Env.

Lemma insert_ranked_not_nil q d l : insert_ranked E q d l <> [].
Proof.
  destruct l as [|x l]; simpl; [discriminate|].
  destruct (_ <? _); discriminate.
Qed.

Lemma ranked_nil q l : ranked E q l = [] <-> l = [].
Proof.
  split.
  - destruct l as [|d l]; [reflexivity|]. simpl. intros H.
    exfalso. exact (insert_ranked_not_nil _ _ _ H).
  - intros ->. reflexivity.
Qed.

Lemma filter_nil_existsb {A} (f : A -> bool) (l : list A) :
  filter f l = [] <-> existsb f l = false.
Proof.
  induction l as [|a l IH]; simpl; [tauto|].
  destruct (f a); simpl; [split; discriminate|exact IH].
Qed.

(** The lookup by hash finds something exactly when the hash is stored. *)
Lemma hash_lookup_nil q h vs :
  firstn 1 (ranked E q (filter (has_hash h) vs)) = []
  <-> existsb (has_hash h) vs = false.
Proof.
  rewrite <- filter_nil_existsb.
  pose proof (ranked_nil q (filter (has_hash h) vs)) as Hr.
  destruct (ranked E q (filter (has_hash h) vs)); simpl.
  - tauto.
  - split; intros H; [discriminate|].
    apply Hr in H. discriminate.
Qed.

Lemma recombine (docs : list Document) :
  map (fun tm => {| page_content := fst tm; metadata := snd tm |})
      (combine (map page_content docs) (map metadata docs)) = docs.
Proof.
  induction docs as [|[c m] docs IH]; simpl; [reflexivity|].
  rewrite IH. reflexivity.
Qed.

Lemma documents_from_contents path h md pats total i chunks :
  map page_content (documents_from path h md pats total i chunks) = chunks.
Proof.
  revert i. induction chunks as [|c chunks IH]; intros i; simpl; [reflexivity|].
  rewrite IH. reflexivity.
Qed.

Lemma documents_from_hash path h md pats total i chunks :
  chunks <> [] ->
  existsb (has_hash h) (documents_from path h md pats total i chunks) = true.
Proof.
  destruct chunks as [|c chunks]; [contradiction|]. intros _. simpl.
  unfold has_hash at 1. simpl. rewrite str_eqb_refl. reflexivity.
Qed.

Lemma process_contract_file_ok path content :
  exists md,
    SolidityParser.extract_metadata content = Ok md
    /\ process_contract_file E path content
       = Processed path (md5_hexdigest E content)
                   (length (split_text E content)) md
                   (SolidityParser.identify_security_patterns content)
                   (documents_from path (md5_hexdigest E content) md
                      (SolidityParser.identify_security_patterns content)
                      (length (split_text E content)) 0 (split_text E content)).
Proof.
  destruct (PatternFacts.extract_metadata_ok content) as (md & Hmd).
  exists md. split; [exact Hmd|].
  unfold process_contract_file. rewrite Hmd. reflexivity.
Qed.

(** With Pinecone answering, the store handle is there after
    [ensure_vector_store], and nothing else has changed. *)
Lemma ensure_vector_store_healthy w :
  healthy w ->
  exists w1,
    ensure_vector_store E w = (Ok tt, w1)
    /\ vectors (pc w1) = vectors (pc w)
    /\ failing (pc w1) = failing (pc w)
    /\ conversation_history w1 = conversation_history w
    /\ llm_requests (calls w1) = llm_requests (calls w)
    /\ search_requests (calls w1) = search_requests (calls w)
    /\ add_requests (calls w1) = add_requests (calls w).
Proof.
  intros Hh. prog. world_cbn.
  destruct (vector_store w).
  - exists w. repeat split; reflexivity.
  - world_cbn. rewrite (Hh ListIndexes). world_cbn.
    destruct (existsb _ _); world_cbn; rewrite ?(Hh CreateIndex); world_cbn;
      eexists; (split; [reflexivity|]); world_cbn; calls_simpl;
      repeat split; reflexivity.
Qed.

Lemma ensure_vector_store_started w :
  vector_store w = true -> ensure_vector_store E w = (Ok tt, w).
Proof. intros H. prog. rewrite H. reflexivity. Qed.


Lemma ingest_contract_unfold path content w w1 :
  ensure_vector_store E w = (Ok tt, w1) ->
  exists md,
    SolidityParser.extract_metadata content = Ok md
    /\ ingest_contract E path content w
       = ingest_block E path (md5_hexdigest E content) md
           (SolidityParser.identify_security_patterns content)
           (documents_from path (md5_hexdigest E content) md
              (SolidityParser.identify_security_patterns content)
              (length (split_text E content)) 0 (split_text E content))
           w1.
Proof.
  intros Hens. destruct (process_contract_file_ok path content) as (md & Hmd & Hp).
  exists md. split; [exact Hmd|].
  unfold ingest_contract. unfold bind at 1. rewrite Hens, Hp. reflexivity.
Qed.

Lemma ingest_block_cases path h md pats docs w :
  let q := txt "file_hash:" ++ h in
  let searched :=
    {| pc := pc w; vector_store := vector_store w;
       conversation_history := conversation_history w;
       calls := calls w ++ [CallSimilaritySearch q 1 (Some h)] |} in
  let texts := map page_content docs in
  let added :=
    {| pc := pc w; vector_store := vector_store w;
       conversation_history := conversation_history w;
       calls := (calls w ++ [CallSimilaritySearch q 1 (Some h)])
                ++ [CallAddTexts texts] |} in
  ingest_block E path h md pats docs w =
  match failing (pc w) SimilaritySearch with
  | Some e => (Ok (IngestFailed None (txt "Failed to ingest contract: " ++ e)),
               searched)
  | None =>
      if hash_stored h w then
        (Ok (Skipped (txt "Contract already exists in database") h), searched)
      else
        match failing (pc w) AddTexts with
        | Some e =>
            (Ok (IngestFailed None (txt "Failed to ingest contract: " ++ e)),
             added)
        | None =>
            (Ok (Ingested (txt "Contract successfully ingested") path h
                          (length texts) md pats),
             {| pc := {| indexes := indexes (pc w);
                         vectors := vectors (pc w) ++ docs;
                         failing := failing (pc w) |};
                vector_store := vector_store w;
                conversation_history := conversation_history w;
                calls := calls added |})
        end
  end.
Proof.
  cbv zeta. unfold ingest_block.
  prog. world_cbn.
  destruct (failing (pc w) SimilaritySearch) eqn:Hs; [reflexivity|].
  unfold hash_stored.
  destruct (existsb (has_hash h) (vectors (pc w))) eqn:Hex.
  - destruct (firstn 1 (ranked E (txt "file_hash:" ++ h)
                                (filter (has_hash h) (vectors (pc w))))) eqn:Hf.
    + apply hash_lookup_nil in Hf. congruence.
    + reflexivity.
  - apply (hash_lookup_nil (txt "file_hash:" ++ h)) in Hex. rewrite Hex. world_cbn.
    destruct (failing (pc w) AddTexts) eqn:Ha; [reflexivity|].
    world_cbn. rewrite recombine. reflexivity.
Qed.

End StoreFacts.

Section StoreClaims.
Variable E : Env.

Lemma healthy_same_failing w w1 :
  failing (pc w1) = failing (pc w) -> healthy w -> healthy w1.
Proof. unfold healthy. intros -> H. exact H. Qed.

(** One call of [ingest_contract] with Pinecone answering. *)
Lemma ingest_contract_healthy path content w :
  healthy w ->
  let h := md5_hexdigest E content in
  let chunks := split_text E content in
  exists md docs w',
    map page_content docs = chunks
    /\ (chunks <> [] -> existsb (has_hash h) docs = true)
    /\ healthy w'
    /\ if hash_stored h w then
         ingest_contract E path content w
         = (Ok (Skipped (txt "Contract already exists in database") h), w')
         /\ vectors (pc w') = vectors (pc w)
         /\ add_requests (calls w') = add_requests (calls w)
       else
         ingest_contract E path content w
         = (Ok (Ingested (txt "Contract successfully ingested") path h
                         (length chunks) md
                         (SolidityParser.identify_security_patterns content)),
            w')
         /\ vectors (pc w') = vectors (pc w) ++ docs
         /\ add_requests (calls w') = add_requests (calls w) ++ [chunks].
Proof.
  intros Hh h chunks.
  destruct (ensure_vector_store_healthy E Hh)
    as (w1 & Hens & Hv & Hf & _ & _ & _ & Ha).
  destruct (ingest_contract_unfold E path content w Hens) as (md & _ & Hing).
  fold h chunks in Hing. rewrite Hing, ingest_block_cases.
  rewrite !documents_from_contents.
  assert (Hh1 : healthy w1) by (eapply healthy_same_failing; eauto).
  rewrite (Hh1 SimilaritySearch), (Hh1 AddTexts).
  replace (hash_stored h w1) with (hash_stored h w)
    by (unfold hash_stored; rewrite Hv; reflexivity).
  exists md. eexists. 
  destruct (hash_stored h w); eexists;
    (split; [apply documents_from_contents|]);
    (split; [apply documents_from_hash|]);
    (split; [|split; [reflexivity|]]); world_cbn;
    try (intros api; world_cbn; apply Hh1);
    rewrite ?documents_from_contents, ?Hv; calls_simpl;
    rewrite ?Ha; auto.
Qed.

(** C1, as the program has it: with Pinecone answering, [ingest_contract]
    returns [skipped] and stores nothing when a stored vector carries the
    hash of the content, and otherwise hands every chunk to the store and
    returns [ingested] with the hash and the number of chunks; so after a
    first call on a content that gives at least one chunk, a second call
    with the same content is skipped and leaves the stored vectors as they
    are. *)
Theorem ingest_contract_dedup path content w :
  healthy w ->
  let h := md5_hexdigest E content in
  let chunks := split_text E content in
  (hash_stored h w = true ->
     exists msg w',
       ingest_contract E path content w = (Ok (Skipped msg h), w')
       /\ ingest_action (Skipped msg h) = Some (txt "skipped")
       /\ vectors (pc w') = vectors (pc w)
       /\ add_requests (calls w') = add_requests (calls w))
  /\ (hash_stored h w = false ->
      exists msg md pats w',
        ingest_contract E path content w
        = (Ok (Ingested msg path h (length chunks) md pats), w')
        /\ ingest_action (Ingested msg path h (length chunks) md pats)
           = Some (txt "ingested")
        /\ map page_content (vectors (pc w'))
           = map page_content (vectors (pc w)) ++ chunks
        /\ add_requests (calls w') = add_requests (calls w) ++ [chunks])
  /\ (chunks <> [] ->
      forall path2 r1 w1,
        ingest_contract E path content w = (r1, w1) ->
        exists msg w2,
          ingest_contract E path2 content w1 = (Ok (Skipped msg h), w2)
          /\ vectors (pc w2) = vectors (pc w1)
          /\ length (vectors (pc w2)) = length (vectors (pc w1))).
Proof.
  intros Hh h chunks.
  destruct (ingest_contract_healthy path content Hh)
    as (md & docs & w' & Hdocs & Hhash & Hh' & Hcase).
  fold h chunks in Hdocs, Hhash, Hcase.
  split; [|split].
  - intros Hs. rewrite Hs in Hcase. destruct Hcase as (-> & Hv & Ha).
    do 2 eexists. repeat split; eauto.
  - intros Hs. rewrite Hs in Hcase. destruct Hcase as (-> & Hv & Ha).
    do 4 eexists. split; [reflexivity|]. split; [reflexivity|].
    split; [|exact Ha]. rewrite Hv, map_app, Hdocs. reflexivity.
  - intros Hne path2 r1 w1 Hfirst.
    assert (Hstored : hash_stored h w1 = true /\ healthy w1).
    { destruct (hash_stored h w) eqn:Hs; destruct Hcase as (Hc & Hv & _);
        rewrite Hc in Hfirst; injection Hfirst as <- <-; split; auto;
        unfold hash_stored in *; rewrite Hv; auto.
      rewrite existsb_app, (Hhash Hne). apply orb_true_r. }
    destruct Hstored as [Hs1 Hh1].
    destruct (ingest_contract_healthy path2 content Hh1)
      as (md2 & docs2 & w2 & _ & _ & _ & Hcase2).
    fold h in Hcase2. rewrite Hs1 in Hcase2. destruct Hcase2 as (-> & Hv2 & _).
    do 2 eexists. split; [reflexivity|]. rewrite Hv2. auto.
Qed.

(** With Pinecone answering and nothing stored, the context is the
    no-context sentence. *)
Lemma get_relevant_context_empty q w :
  healthy w -> vectors (pc w) = [] ->
  exists w1, get_relevant_context E q w = (Ok NO_CONTEXT, w1).
Proof.
  intros Hh Hv.
  destruct (ensure_vector_store_healthy E Hh) as (w1 & Hens & Hv1 & Hf & _).
  unfold get_relevant_context, search_contracts, try_except, bind.
  rewrite Hens.
  prog. world_cbn. rewrite Hf, (Hh SimilaritySearch), Hv1, Hv. world_cbn.
  rewrite firstn_nil. world_cbn. eexists. reflexivity.
Qed.

Lemma has_context_no_context : has_context NO_CONTEXT = false.
Proof. reflexivity. Qed.

(** C8: with Pinecone answering and no vector stored, a chat call sends
    the model the history window followed by the base system prompt and the
    user message, nothing else, and the result of a call the model answers
    has [context_used] false. *)
Theorem chat_without_context user_message ic w :
  healthy w -> vectors (pc w) = [] ->
  let request := last_n 10 (conversation_history w)
                 ++ [SystemMessage system_prompt; HumanMessage user_message] in
  exists res w',
    chat E user_message ic w = (Ok res, w')
    /\ llm_requests (calls w') = llm_requests (calls w) ++ [request]
    /\ match ainvoke E request with
       | Ok reply => res = ChatOk reply false (now_isoformat E)
       | Raise e => res = ChatFailed (txt "Chat failed: " ++ e)
       end.
Proof.
  intros Hh Hv request.
  assert (Hctx : exists ctx w1,
             context_phase E user_message ic w = (Ok ctx, w1)
             /\ has_context ctx = false).
  { unfold context_phase. destruct ic.
    - destruct (get_relevant_context_empty user_message Hh Hv) as (w1 & ->).
      eauto using has_context_no_context.
    - exists [], w. auto. }
  destruct Hctx as (ctx & w1 & Hctx & Hno).
  destruct (context_phase_frame E user_message ic w) as (ctx' & w1' & Hctx' & Hhist & Hl).
  rewrite Hctx in Hctx'. injection Hctx' as <- <-.
  rewrite (chat_unfold E user_message ic w Hctx).
  unfold prompt_messages. rewrite Hno, Hhist. fold request.
  destruct (ainvoke E request) as [reply|e]; do 2 eexists;
    (split; [reflexivity|]); cbn [asked answered calls]; calls_simpl;
    rewrite Hl; auto.
Qed.

End StoreClaims.

Section FailureClaims.
Variable E : Env.

Lemma search_contracts_down q k w e :
  vector_store w = true ->
  failing (pc w) SimilaritySearch = Some e ->
  exists w',
    search_contracts E q k w = (Raise (txt "Search failed: " ++ e), w')
    /\ search_requests (calls w')
       = search_requests (calls w) ++ [(q, k_or_default E k, None)].
Proof.
  intros Hvs Hf. prog. rewrite Hvs. world_cbn. rewrite Hf. world_cbn.
  eexists. split; [reflexivity|]. world_cbn. calls_simpl. reflexivity.
Qed.

Lemma get_relevant_context_down q w e :
  vector_store w = true ->
  failing (pc w) SimilaritySearch = Some e ->
  exists w',
    get_relevant_context E q w
    = (Ok (txt "Error retrieving context: " ++ txt "Search failed: " ++ e), w')
    /\ search_requests (calls w')
       = search_requests (calls w)
         ++ [(q, k_or_default E (Some (top_k_results E)), None)].
Proof.
  intros Hvs Hf.
  destruct (search_contracts_down q (Some (top_k_results E)) w Hvs Hf)
    as (w' & Hs & Hc).
  unfold get_relevant_context, try_except, bind. rewrite Hs.
  exists w'. split; [reflexivity|exact Hc].
Qed.

(** C2, as the program has it: a failure of the chat model makes [chat]
    return the failure result, and a failure of the vector store inside
    the guarded block of [ingest_contract] makes it return the failure
    result, neither raising; [search_contracts] raises the failure again
    under the prefix [Search failed: ], and the retrieval step of [chat]
    turns it into the context text; in each case the failing request was
    made once. *)
Theorem collaborator_failure_policy :
  (forall user_message ic w,
      exists res w' ms,
        chat E user_message ic w = (Ok res, w')
        /\ llm_requests (calls w') = llm_requests (calls w) ++ [ms]
        /\ forall e, ainvoke E ms = Raise e ->
                     res = ChatFailed (txt "Chat failed: " ++ e))
  /\ (forall path content w e,
         vector_store w = true ->
         failing (pc w) SimilaritySearch = Some e ->
         exists w',
           ingest_contract E path content w
           = (Ok (IngestFailed None (txt "Failed to ingest contract: " ++ e)), w')
           /\ search_requests (calls w')
              = search_requests (calls w)
                ++ [(txt "file_hash:" ++ md5_hexdigest E content, 1,
                     Some (md5_hexdigest E content))]
           /\ add_requests (calls w') = add_requests (calls w)
           /\ vectors (pc w') = vectors (pc w))
  /\ (forall path content w e,
         vector_store w = true ->
         failing (pc w) SimilaritySearch = None ->
         hash_stored (md5_hexdigest E content) w = false ->
         failing (pc w) AddTexts = Some e ->
         exists w',
           ingest_contract E path content w
           = (Ok (IngestFailed None (txt "Failed to ingest contract: " ++ e)), w')
           /\ add_requests (calls w')
              = add_requests (calls w) ++ [split_text E content]
           /\ vectors (pc w') = vectors (pc w))
  /\ (forall q k w e,
         vector_store w = true ->
         failing (pc w) SimilaritySearch = Some e ->
         exists w',
           search_contracts E q k w = (Raise (txt "Search failed: " ++ e), w')
           /\ search_requests (calls w')
              = search_requests (calls w) ++ [(q, k_or_default E k, None)])
  /\ (forall q w e,
         vector_store w = true ->
         failing (pc w) SimilaritySearch = Some e ->
         exists w',
           get_relevant_context E q w
           = (Ok (txt "Error retrieving context: " ++ txt "Search failed: " ++ e),
              w')
           /\ search_requests (calls w')
              = search_requests (calls w)
                ++ [(q, k_or_default E (Some (top_k_results E)), None)]).
Proof.
  split; [|split; [|split; [|split]]].
  - intros user_message ic w.
    destruct (chat_cases E user_message ic w) as (ctx & full & _ & Hl & Hcase).
    destruct (chat E user_message ic w) as [r w'] eqn:Hchat.
    cbn [fst snd] in Hl, Hcase.
    destruct (ainvoke E full) as [reply|e] eqn:Hai; destruct Hcase as [-> _];
      do 3 eexists; (split; [reflexivity|]); (split; [exact Hl|]);
      intros e' He'; congruence.
  - intros path content w e Hvs Hf.
    destruct (ingest_contract_unfold E path content w
                (ensure_vector_store_started E w Hvs)) as (md & _ & ->).
    rewrite ingest_block_cases, Hf.
    eexists. split; [reflexivity|]. world_cbn. calls_simpl. auto.
  - intros path content w e Hvs Hf Hs Ha.
    destruct (ingest_contract_unfold E path content w
                (ensure_vector_store_started E w Hvs)) as (md & _ & ->).
    rewrite ingest_block_cases, Hf, Hs, Ha.
    eexists. split; [reflexivity|]. world_cbn. calls_simpl.
    rewrite documents_from_contents. auto.
  - intros q k w e. apply search_contracts_down.
  - intros q w e. apply get_relevant_context_down.
Qed.

End FailureClaims.

(** ** Runs of the program *)

(** For C2: with the search of the vector store down, [search_contracts]
    hands the exception on to its caller instead of returning a failure
    result. *)
Lemma search_contracts_reraises :
  fst (search_contracts demo_env (txt "onlyOwner") None demo_world_search_down)
  = Raise (txt "Search failed: 503 Service Unavailable").
Proof. vm_compute. reflexivity. Qed.

(** For C1: the empty text gives no chunk, so nothing is stored by the
    first call, and the second call with the same content reports
    [ingested] again, not [skipped]. *)
Lemma second_ingest_of_empty_text_not_skipped :
  let first := ingest_contract demo_env (txt "Empty.sol") [] demo_world in
  let second := ingest_contract demo_env (txt "Empty.sol") [] (snd first) in
  exists msg md pats,
    fst second
    = Ok (Ingested msg (txt "Empty.sol") (md5_hexdigest demo_env []) 0 md pats)
    /\ ingest_action
         (Ingested msg (txt "Empty.sol") (md5_hexdigest demo_env []) 0 md pats)
       <> Some (txt "skipped").
Proof.
  cbv zeta. do 3 eexists. split; [vm_compute; reflexivity|]. discriminate.
Qed.

Lemma demo_world_healthy : healthy demo_world.
Proof. intros api. reflexivity. Defined.



Lemma ingest_contract_dedup_witness :
  healthy demo_world
  /\ split_text demo_env demo_contract <> []
  /\ exists msg w2,
       ingest_contract demo_env (txt "Copy.sol") demo_contract
         (snd (ingest_contract demo_env (txt "Vault.sol") demo_contract demo_world))
       = (Ok (Skipped msg (md5_hexdigest demo_env demo_contract)), w2).
Proof.
  split; [exact demo_world_healthy|].
  assert (Hne : split_text demo_env demo_contract <> [])
    by (vm_compute; discriminate).
  split; [exact Hne|].
  destruct (ingest_contract_dedup demo_env (txt "Vault.sol") demo_contract
              demo_world_healthy) as (_ & _ & Hsecond).
  destruct (Hsecond Hne (txt "Copy.sol") _ _ (surjective_pairing _))
    as (msg & w2 & H & _).
  exists msg, w2. exact H.
Defined.

Lemma collaborator_failure_policy_witness :
  vector_store demo_world_search_down = true
  /\ failing (pc demo_world_search_down) SimilaritySearch
     = Some (txt "503 Service Unavailable")
  /\ exists w',
       ingest_contract demo_env (txt "Vault.sol") demo_contract
                       demo_world_search_down
       = (Ok (IngestFailed None
                (txt "Failed to ingest contract: 503 Service Unavailable")), w').
Proof.
  split; [reflexivity|]. split; [reflexivity|].
  destruct (collaborator_failure_policy demo_env) as (_ & Hingest & _).
  destruct (Hingest (txt "Vault.sol") demo_contract demo_world_search_down
                    (txt "503 Service Unavailable") eq_refl eq_refl)
    as (w' & H & _).
  exists w'. exact H.
Defined.

Lemma extract_metadata_first_pragma_witness :
  first_pragma_line demo_commented (txt "// v1" ++ nl) (txt "^0.8.0 ")
  /\ no_pragma_line (txt "contract Vault {}")
  /\ (exists md, SolidityParser.extract_metadata demo_commented = Ok md
                 /\ SolidityParser.pragma md = Some (txt "^0.8.0"))
  /\ (exists md, SolidityParser.extract_metadata (txt "contract Vault {}") = Ok md
                 /\ SolidityParser.pragma md = None).
Proof.
  assert (H1 : first_pragma_line demo_commented (txt "// v1" ++ nl) (txt "^0.8.0 ")).
  { exists (txt "pragma solidity ^0.8.0 ; pragma solidity 0.7.0;").
    split; [reflexivity|]. split.
    - exists (txt " "), (txt " "), (txt " pragma solidity 0.7.0;").
      split; [reflexivity|].
      repeat split; try discriminate.
      simpl. intuition discriminate.
    - apply PatternFacts.no_pragma_before. vm_compute. reflexivity. }
  assert (H2 : no_pragma_line (txt "contract Vault {}")).
  { apply PatternFacts.no_pragma_line_by_search. vm_compute. reflexivity. }
  split; [exact H1|]. split; [exact H2|]. split.
  - destruct (PatternFacts.extract_metadata_first_pragma demo_commented)
      as (Hfirst & _).
    destruct (Hfirst _ _ H1) as (md & Hmd & Hp & _).
    exists md. split; [exact Hmd|exact Hp].
  - destruct (PatternFacts.extract_metadata_first_pragma (txt "contract Vault {}"))
      as (_ & Hnone).
    exact (Hnone H2).
Defined.

Lemma parser_never_raises_witness :
  ~ Re.occurs Re.no_flags SolidityParser.pragma_pattern (txt "hello, world")
  /\ exists md, SolidityParser.extract_metadata (txt "hello, world") = Ok md
                /\ SolidityParser.pragma md = None.
Proof.
  assert (H : ~ Re.occurs Re.no_flags SolidityParser.pragma_pattern
                (txt "hello, world")).
  { apply PatternFacts.not_occurs_by_search. vm_compute. reflexivity. }
  split; [exact H|].
  destruct (PatternFacts.parser_never_raises (txt "hello, world"))
    as ((md & Hmd & Hp & _) & _).
  exists md. split; [exact Hmd|exact (Hp H)].
Defined.


Lemma chat_without_context_witness :
  healthy demo_world
  /\ vectors (pc demo_world) = []
  /\ exists res w',
       chat demo_env (txt "Is withdraw() safe?") true demo_world = (Ok res, w')
       /\ llm_requests (calls w')
          = [[SystemMessage system_prompt;
              HumanMessage (txt "Is withdraw() safe?")]].
Proof.
  split; [exact demo_world_healthy|]. split; [reflexivity|].
  destruct (chat_without_context demo_env (txt "Is withdraw() safe?") true
              demo_world_healthy eq_refl) as (res & w' & H & Hl & _).
  exists res, w'. split; [exact H|exact Hl].
Defined.

Lemma chat_sends_trailing_window_witness :
  let run := chat demo_env (txt "Is withdraw() safe?") false demo_world_six_turns in
  exists system human newer,
    llm_requests (calls (snd run))
    = [flat_map turn (seq 2 5) ++ [SystemMessage system; HumanMessage human]]
    /\ conversation_history (snd run)
       = turn 1 ++ flat_map turn (seq 2 5) ++ newer.
Proof.
  cbv zeta.
  destruct (chat_sends_trailing_window demo_env (txt "Is withdraw() safe?")
              false demo_world_six_turns (surjective_pairing _))
    as (older & window & system & human & newer & Hsplit & Hlen & Hreq & Hh).
  assert (Holder : older = turn 1 /\ window = flat_map turn (seq 2 5)).
  { change (conversation_history demo_world_six_turns)
      with (turn 1 ++ flat_map turn (seq 2 5)) in Hsplit, Hlen.
    assert (Hl2 : length older = 2).
    { apply (f_equal (@length Message)) in Hsplit.
      rewrite !length_app, Hlen in Hsplit. simpl in Hsplit. lia. }
    destruct older as [|a [|b [|c older]]]; try discriminate Hl2.
    simpl in Hsplit. injection Hsplit as <- <- <-. split; reflexivity. }
  destruct Holder as (-> & ->).
  exists system, human, newer. split; [exact Hreq|exact Hh].
Defined.

Lemma failed_chat_keeps_history_witness :
  let run := chat demo_env_llm_down (txt "Is withdraw() safe?") false demo_world in
  let request := [SystemMessage system_prompt;
                  HumanMessage (txt "Is withdraw() safe?")] in
  llm_requests (calls (snd run)) = llm_requests (calls demo_world) ++ [request]
  /\ ainvoke demo_env_llm_down request = Raise (txt "Connection error.")
  /\ fst run = Ok (ChatFailed (txt "Chat failed: Connection error."))
  /\ conversation_history (snd run) = conversation_history demo_world.
Proof.
  cbv zeta.
  assert (Hreq : llm_requests
                   (calls (snd (chat demo_env_llm_down (txt "Is withdraw() safe?")
                                     false demo_world)))
                 = llm_requests (calls demo_world)
                   ++ [[SystemMessage system_prompt;
                        HumanMessage (txt "Is withdraw() safe?")]])
    by (vm_compute; reflexivity).
  split; [exact Hreq|]. split; [reflexivity|].
  exact (@failed_chat_keeps_history demo_env_llm_down (txt "Is withdraw() safe?")
           false demo_world _ _ _ _ (surjective_pairing _) Hreq eq_refl).
Defined.

(** * Properties of the rest of the program *)

(** * Further properties *)

(** ** The ingestion service *)

Section IngestionRestFacts.
Variable E : Env.

Lemma existsb_str_eqb_In (x : str) (l : list str) :
  existsb (str_eqb x) l = true <-> In x l.
Proof.
  rewrite existsb_exists. split.
  - intros (y & Hin & Heq). apply str_eqb_eq in Heq. subst. exact Hin.
  - intros Hin. exists x. split; [exact Hin|apply str_eqb_refl].
Qed.

Lemma existsb_str_eqb_not_In (x : str) (l : list str) :
  existsb (str_eqb x) l = false <-> ~ In x l.
Proof.
  rewrite <- existsb_str_eqb_In. destruct (existsb (str_eqb x) l); split;
    intros H; try discriminate; try reflexivity; try congruence.
Qed.

Lemma documents_from_nth path h md pats total : forall chunks i0 i chunk,
  nth_error chunks i = Some chunk ->
  exists d,
    nth_error (documents_from path h md pats total i0 chunks) i = Some d
    /\ page_content d = chunk
    /\ chunk_index (metadata d) = i0 + i
    /\ total_chunks (metadata d) = total
    /\ file_hash (metadata d) = Some h
    /\ file_path (metadata d) = Some path.
Proof.
  induction chunks as [|c chunks IH]; intros i0 i chunk Hn.
  - destruct i; discriminate.
  - destruct i as [|i]; simpl in *.
    + injection Hn as ->. eexists. split; [reflexivity|]. simpl.
      rewrite Nat.add_0_r. auto.
    + destruct (IH (S i0) i chunk Hn) as (d & Hd & H1 & H2 & H3).
      exists d. split; [exact Hd|]. split; [exact H1|].
      split; [rewrite H2; lia|exact H3].
Qed.

Lemma documents_from_length path h md pats total chunks i0 :
  length (documents_from path h md pats total i0 chunks) = length chunks.
Proof.
  revert i0. induction chunks as [|c chunks IH]; intros i0; simpl; auto.
Qed.

Lemma documents_from_metadata path h md pats total : forall chunks i0 d,
  In d (documents_from path h md pats total i0 chunks) ->
  functions (metadata d) = Some (firstn 10 (SolidityParser.functions md))
  /\ contracts (metadata d) = Some (SolidityParser.contracts md)
  /\ security_patterns (metadata d) = Some pats
  /\ pragma (metadata d) = SolidityParser.pragma md
  /\ content_type (metadata d) = txt "solidity_contract".
Proof.
  induction chunks as [|c chunks IH]; intros i0 d Hin; simpl in Hin.
  - contradiction.
  - destruct Hin as [<-|Hin]; [simpl; auto|]. eapply IH; eauto.
Qed.

(** X1 (process_contract_file).  When processing a file succeeds, it
    reports the caller's path, the hash of the whole content and the
    number of chunks, and gives exactly one document per chunk of the
    splitter, in the splitter's order: the i-th document holds the
    i-th chunk, its position i, the number of chunks, the hash and the
    path. *)
Theorem process_contract_file_documents (path content : str)
        (p h : str) (n : nat) (md : SolidityParser.Metadata)
        (pats : list str) (docs : list Document) :
  process_contract_file E path content = Processed p h n md pats docs ->
  let chunks := split_text E content in
  p = path
  /\ h = md5_hexdigest E content
  /\ n = length chunks
  /\ length docs = length chunks
  /\ forall i chunk,
       nth_error chunks i = Some chunk ->
       exists d,
         nth_error docs i = Some d
         /\ page_content d = chunk
         /\ chunk_index (metadata d) = i
         /\ total_chunks (metadata d) = length chunks
         /\ file_hash (metadata d) = Some h
         /\ file_path (metadata d) = Some path.
Proof.
  intros Hp chunks.
  unfold process_contract_file, generate_file_hash in Hp.
  destruct (SolidityParser.extract_metadata content) as [md0|e];
    [|discriminate Hp].
  injection Hp as <- <- <- <- <- <-.
  split; [reflexivity|]. split; [reflexivity|]. split; [reflexivity|].
  split; [apply documents_from_length|].
  intros i chunk Hn.
  destruct (documents_from_nth path (md5_hexdigest E content) md0
              (SolidityParser.identify_security_patterns content)
              (length chunks) chunks 0 i Hn) as (d & Hd & H).
  exists d. split; [exact Hd|exact H].
Qed.

(** X2 (process_contract_file).  Every document of a file carries the
    same parser output: all contract names, the security tags, and of
    the function names only the first ten, whatever the parser
    found. *)
Theorem process_contract_file_caps_functions (path content : str) :
  exists md docs,
    SolidityParser.extract_metadata content = Ok md
    /\ process_contract_file E path content
       = Processed path (md5_hexdigest E content)
                   (length (split_text E content)) md
                   (SolidityParser.identify_security_patterns content) docs
    /\ forall d,
         In d docs ->
         exists fs,
           functions (metadata d) = Some fs
           /\ length fs <= 10
           /\ fs = firstn 10 (SolidityParser.functions md)
           /\ contracts (metadata d) = Some (SolidityParser.contracts md)
           /\ security_patterns (metadata d)
              = Some (SolidityParser.identify_security_patterns content).
Proof.
  destruct (process_contract_file_ok E path content) as (md & Hmd & Hp).
  exists md. eexists. split; [exact Hmd|]. split; [exact Hp|].
  intros d Hin. apply documents_from_metadata in Hin.
  destruct Hin as (Hf & Hc & Hs & _).
  eexists. split; [exact Hf|]. split; [apply firstn_le_length|]. auto.
Qed.

(** X3 (initialize_vector_store).  Against a Pinecone that answers,
    initialisation lists the indexes, creates the configured one only
    when its name is not listed, and installs the store handle; it
    touches no stored vector, and a second initialisation lists again
    and creates nothing. *)
Theorem initialize_vector_store_creates_once (w : World) :
  healthy w ->
  let name := pinecone_index_name E in
  exists w',
    initialize_vector_store E w = (Ok tt, w')
    /\ vector_store w' = true
    /\ In name (indexes (pc w'))
    /\ vectors (pc w') = vectors (pc w)
    /\ healthy w'
    /\ (In name (indexes (pc w)) ->
        indexes (pc w') = indexes (pc w)
        /\ calls w' = calls w ++ [CallListIndexes])
    /\ (~ In name (indexes (pc w)) ->
        indexes (pc w') = indexes (pc w) ++ [name]
        /\ calls w' = calls w ++ [CallListIndexes; CallCreateIndex name])
    /\ exists w'',
         initialize_vector_store E w' = (Ok tt, w'')
         /\ indexes (pc w'') = indexes (pc w')
         /\ calls w'' = calls w' ++ [CallListIndexes].
Proof.
  intros Hh name.
  assert (Hinit : forall w0, healthy w0 ->
            exists w1,
              initialize_vector_store E w0 = (Ok tt, w1)
              /\ vector_store w1 = true
              /\ vectors (pc w1) = vectors (pc w0)
              /\ healthy w1
              /\ (if existsb (str_eqb name) (indexes (pc w0))
                  then indexes (pc w1) = indexes (pc w0)
                       /\ calls w1 = calls w0 ++ [CallListIndexes]
                  else indexes (pc w1) = indexes (pc w0) ++ [name]
                       /\ calls w1 = calls w0
                                     ++ [CallListIndexes; CallCreateIndex name])).
  { intros w0 Hh0. prog. world_cbn. rewrite (Hh0 ListIndexes). world_cbn.
    fold name. destruct (existsb (str_eqb name) (indexes (pc w0))); world_cbn;
      rewrite ?(Hh0 CreateIndex); world_cbn;
      eexists; (split; [reflexivity|]); world_cbn;
      rewrite <- ?app_assoc; repeat split; try reflexivity;
      intros api; world_cbn; apply Hh0. }
  destruct (Hinit w Hh) as (w' & Hrun & Hvs & Hv & Hh' & Hcase).
  assert (Hin : In name (indexes (pc w'))).
  { destruct (existsb (str_eqb name) (indexes (pc w))) eqn:Hex;
      destruct Hcase as [-> _].
    - apply existsb_str_eqb_In. exact Hex.
    - apply in_or_app. right. left. reflexivity. }
  exists w'. repeat split; auto.
  - apply existsb_str_eqb_In in H. rewrite H in Hcase. tauto.
  - apply existsb_str_eqb_In in H. rewrite H in Hcase. tauto.
  - apply existsb_str_eqb_not_In in H. rewrite H in Hcase. tauto.
  - apply existsb_str_eqb_not_In in H. rewrite H in Hcase. tauto.
  - destruct (Hinit w' Hh') as (w'' & Hrun2 & _ & _ & _ & Hcase2).
    apply existsb_str_eqb_In in Hin. rewrite Hin in Hcase2.
    exists w''. tauto.
Qed.

(** X4 (initialize_vector_store).  A failure of the listing, or of the
    creation of a missing index, is raised again as
    [Failed to initialize vector store: <cause>]; the store handle is
    left as it was and nothing after the failing request is sent. *)
Theorem initialize_vector_store_failure (w : World) (e : str) :
  let name := pinecone_index_name E in
  (failing (pc w) ListIndexes = Some e ->
   exists w',
     initialize_vector_store E w
     = (Raise (txt "Failed to initialize vector store: " ++ e), w')
     /\ vector_store w' = vector_store w
     /\ pc w' = pc w
     /\ calls w' = calls w ++ [CallListIndexes])
  /\ (failing (pc w) ListIndexes = None ->
      ~ In name (indexes (pc w)) ->
      failing (pc w) CreateIndex = Some e ->
      exists w',
        initialize_vector_store E w
        = (Raise (txt "Failed to initialize vector store: " ++ e), w')
        /\ vector_store w' = vector_store w
        /\ pc w' = pc w
        /\ calls w' = calls w ++ [CallListIndexes; CallCreateIndex name]).
Proof.
  intros name. split.
  - intros Hl. prog. world_cbn. rewrite Hl. world_cbn.
    eexists. split; [reflexivity|]. auto.
  - intros Hl Hnot Hc. apply existsb_str_eqb_not_In in Hnot.
    prog. world_cbn. rewrite Hl. world_cbn. fold name. rewrite Hnot.
    world_cbn. rewrite Hc. world_cbn.
    eexists. split; [reflexivity|]. world_cbn. rewrite <- app_assoc. auto.
Qed.

End IngestionRestFacts.


Section IngestionBatchFacts.
Variable E : Env.

(** With the store handle in place, [ingest_contract] returns a dict. *)
Lemma ingest_contract_started path content w :
  vector_store w = true ->
  exists r w',
    ingest_contract E path content w = (Ok r, w')
    /\ vector_store w' = true
    /\ conversation_history w' = conversation_history w.
Proof.
  intros Hvs.
  destruct (ingest_contract_unfold E path content w
              (ensure_vector_store_started E w Hvs)) as (md & _ & ->).
  rewrite ingest_block_cases.
  destruct (failing (pc w) SimilaritySearch);
    [|destruct (hash_stored _ w); [|destruct (failing (pc w) AddTexts)]];
    do 2 eexists; (split; [reflexivity|]); auto.
Qed.

Lemma ingest_each_cons c rest acc w :
  ingest_each E (c :: rest) acc w =
  match getitem c (txt "file_path") with
  | Raise e => (Raise e, w)
  | Ok path =>
      match getitem c (txt "content") with
      | Raise e => (Raise e, w)
      | Ok content =>
          match ingest_contract E path content w with
          | (Ok r, w1) => ingest_each E rest (acc ++ [r]) w1
          | (Raise e, w1) => (Raise e, w1)
          end
      end
  end.
Proof.
  cbn [ingest_each]. unfold bind, lift.
  destruct (getitem c (txt "file_path")); [|reflexivity].
  destruct (getitem c (txt "content")); [|reflexivity].
  destruct (ingest_contract E a a0 w) as [[r|e] w1]; reflexivity.
Qed.

Lemma ingest_each_app (a b : list Dict) : forall acc w,
  ingest_each E (a ++ b) acc w =
  match ingest_each E a acc w with
  | (Ok rs, w1) => ingest_each E b rs w1
  | (Raise e, w1) => (Raise e, w1)
  end.
Proof.
  induction a as [|c a IH]; intros acc w; [reflexivity|].
  cbn [app]. rewrite !ingest_each_cons.
  destruct (getitem c (txt "file_path")) as [path|e]; [|reflexivity].
  destruct (getitem c (txt "content")) as [content|e]; [|reflexivity].
  destruct (ingest_contract E path content w) as [[r|e] w1]; [|reflexivity].
  apply IH.
Qed.


Lemma ingest_each_started (contracts : list Dict) : forall acc w,
  vector_store w = true ->
  Forall has_both_keys contracts ->
  exists results w',
    ingest_each E contracts acc w = (Ok (acc ++ results), w')
    /\ length results = length contracts
    /\ vector_store w' = true
    /\ conversation_history w' = conversation_history w.
Proof.
  induction contracts as [|c contracts IH]; intros acc w Hvs Hall.
  - exists [], w. rewrite app_nil_r. auto.
  - inversion Hall as [|c' l' (path & content & Hp & Hc) Hrest]; subst.
    destruct (ingest_contract_started path content w Hvs)
      as (r & w1 & Hing & Hvs1 & Hh1).
    destruct (IH (acc ++ [r]) w1 Hvs1 Hrest) as (rs & w' & Hrun & Hlen & Hvs' & Hh').
    exists (r :: rs), w'.
    rewrite ingest_each_cons, Hp, Hc, Hing, Hrun, <- app_assoc.
    repeat split; simpl; auto. congruence.
Qed.

(** X6 (ingest_multiple_contracts).  With the store handle there and
    both keys in every entry, the batch returns one result per entry,
    whatever the single ingestions answer, and leaves the
    conversation alone. *)
Theorem ingest_multiple_contracts_one_result_each (contracts : list Dict) w :
  vector_store w = true ->
  Forall has_both_keys contracts ->
  exists results w',
    ingest_multiple_contracts E contracts w = (Ok results, w')
    /\ length results = length contracts
    /\ conversation_history w' = conversation_history w.
Proof.
  intros Hvs Hall.
  destruct (@ingest_each_started contracts [] w Hvs Hall)
    as (rs & w' & Hrun & Hlen & _ & Hh).
  exists rs, w'. auto.
Qed.

(** X7 (ingest_multiple_contracts).  An entry without [file_path]
    raises the KeyError of the lookup: the results gathered so far
    are lost to the caller, although the entries before it have been
    ingested, and the entries after it are not looked at. *)
Theorem ingest_multiple_contracts_missing_key (before after : list Dict)
        (bad : Dict) w :
  vector_store w = true ->
  Forall has_both_keys before ->
  (forall path, getitem bad (txt "file_path") <> Ok path) ->
  exists results w',
    ingest_multiple_contracts E before w = (Ok results, w')
    /\ length results = length before
    /\ ingest_multiple_contracts E (before ++ bad :: after) w
       = (Raise (txt "'file_path'"), w').
Proof.
  intros Hvs Hall Hbad.
  destruct (@ingest_each_started before [] w Hvs Hall)
    as (rs & w' & Hrun & Hlen & _ & _).
  exists rs, w'. unfold ingest_multiple_contracts.
  rewrite ingest_each_app, Hrun. repeat split; auto.
  rewrite ingest_each_cons.
  assert (Hk : forall d key, (forall v, getitem d key <> Ok v) ->
                 getitem d key = Raise (txt "'" ++ key ++ txt "'")).
  { induction d as [|[k v] d IH]; intros key Hno; simpl in *; [reflexivity|].
    destruct (str_eqb k key); [exfalso; eapply Hno; reflexivity|].
    apply IH. exact Hno. }
  rewrite (Hk bad (txt "file_path") Hbad). reflexivity.
Qed.

(** X8 (ingest_multiple_contracts).  The same content twice in one
    batch, under any two paths, is stored once: the first entry is
    ingested, the second is skipped by its hash, and the store grows
    by the chunks of one copy. *)
Theorem ingest_multiple_contracts_duplicate (path1 path2 content : str) w :
  healthy w ->
  vector_store w = true ->
  hash_stored (md5_hexdigest E content) w = false ->
  split_text E content <> [] ->
  let batch := [[(txt "file_path", path1); (txt "content", content)];
                [(txt "file_path", path2); (txt "content", content)]] in
  exists msg1 msg2 md pats w',
    ingest_multiple_contracts E batch w
    = (Ok [Ingested msg1 path1 (md5_hexdigest E content)
                    (length (split_text E content)) md pats;
           Skipped msg2 (md5_hexdigest E content)], w')
    /\ length (vectors (pc w'))
       = length (vectors (pc w)) + length (split_text E content).
Proof.
  intros Hh Hvs Hs Hne batch.
  destruct (ingest_contract_healthy E path1 content Hh)
    as (md & docs & w1 & Hdocs & Hhash & Hh1 & Hcase).
  rewrite Hs in Hcase. destruct Hcase as (Hrun1 & Hv1 & _).
  assert (Hs1 : hash_stored (md5_hexdigest E content) w1 = true).
  { unfold hash_stored. rewrite Hv1, existsb_app, (Hhash Hne).
    apply orb_true_r. }
  destruct (ingest_contract_healthy E path2 content Hh1)
    as (md2 & docs2 & w2 & _ & _ & _ & Hcase2).
  rewrite Hs1 in Hcase2. destruct Hcase2 as (Hrun2 & Hv2 & _).
  do 4 eexists. exists w2.
  unfold ingest_multiple_contracts, batch.
  rewrite ingest_each_cons.
  change (getitem [(txt "file_path", path1); (txt "content", content)]
                  (txt "file_path")) with (Ok path1).
  change (getitem [(txt "file_path", path1); (txt "content", content)]
                  (txt "content")) with (Ok content).
  cbv beta iota. rewrite Hrun1, ingest_each_cons.
  change (getitem [(txt "file_path", path2); (txt "content", content)]
                  (txt "file_path")) with (Ok path2).
  change (getitem [(txt "file_path", path2); (txt "content", content)]
                  (txt "content")) with (Ok content).
  cbv beta iota. rewrite Hrun2. split; [reflexivity|].
  rewrite Hv2, Hv1, length_app. f_equal.
  rewrite <- Hdocs. symmetry. apply length_map.
Qed.

End IngestionBatchFacts.


Section IngestionEdgeFacts.
Variable E : Env.

(** X5 (ingest_contract, search_contracts, get_relevant_context).  The
    lazy initialisation sits outside the try blocks: with no store
    handle and Pinecone refusing the listing, ingestion and search
    raise the initialisation error instead of returning a failure
    record, while the chatbot's retrieval turns the same error into
    its context text.  Each of them stops after the one listing
    request. *)
Theorem lazy_initialisation_failure_is_raised (path content q : str)
        (k : option nat) (w : World) (e : str) :
  vector_store w = false ->
  failing (pc w) ListIndexes = Some e ->
  let msg := txt "Failed to initialize vector store: " ++ e in
  (exists w',
      ingest_contract E path content w = (Raise msg, w')
      /\ pc w' = pc w /\ vector_store w' = false
      /\ calls w' = calls w ++ [CallListIndexes])
  /\ (exists w',
         search_contracts E q k w = (Raise msg, w')
         /\ pc w' = pc w /\ vector_store w' = false
         /\ calls w' = calls w ++ [CallListIndexes])
  /\ (exists w',
         get_relevant_context E q w
         = (Ok (txt "Error retrieving context: " ++ msg), w')
         /\ calls w' = calls w ++ [CallListIndexes]).
Proof.
  intros Hvs Hl msg. repeat split.
  - unfold ingest_contract. prog. rewrite Hvs. world_cbn. rewrite Hl. world_cbn.
    eexists. split; [reflexivity|]. auto.
  - prog. rewrite Hvs. world_cbn. rewrite Hl. world_cbn.
    eexists. split; [reflexivity|]. auto.
  - prog. rewrite Hvs. world_cbn. rewrite Hl. world_cbn.
    eexists. split; [reflexivity|]. auto.
Qed.

Lemma insert_ranked_In q d l x :
  In x (insert_ranked E q d l) <-> x = d \/ In x l.
Proof.
  induction l as [|y l IH]; simpl.
  - intuition.
  - destruct (_ <? _); simpl; [intuition|]. rewrite IH. intuition.
Qed.

Lemma ranked_In q l x : In x (ranked E q l) <-> In x l.
Proof.
  induction l as [|d l IH]; simpl; [tauto|].
  rewrite insert_ranked_In, IH. intuition.
Qed.

Lemma ranked_length q l : length (ranked E q l) = length l.
Proof.
  induction l as [|d l IH]; simpl; [reflexivity|]. rewrite <- IH.
  generalize (ranked E q l). intros r. induction r as [|y r IHr]; simpl; auto.
  destruct (_ <? _); simpl; auto.
Qed.

Lemma In_firstn {A} n (l : list A) x : In x (firstn n l) -> In x l.
Proof.
  intros H. rewrite <- (firstn_skipn n l). apply in_or_app. left. exact H.
Qed.

Lemma search_contracts_started (q : str) (k : option nat) (w : World) :
  vector_store w = true ->
  failing (pc w) SimilaritySearch = None ->
  exists hits w',
    search_contracts E q k w = (Ok hits, w')
    /\ calls w' = calls w ++ [CallSimilaritySearch q (k_or_default E k) None]
    /\ length hits <= k_or_default E k
    /\ length hits <= length (vectors (pc w)).
Proof.
  intros Hvs Hs. prog. rewrite Hvs. world_cbn. rewrite Hs. world_cbn.
  do 2 eexists. split; [reflexivity|]. world_cbn.
  split; [reflexivity|].
  split; [rewrite length_map; apply firstn_le_length|].
  rewrite length_map, length_firstn, ranked_length. apply Nat.le_min_r.
Qed.

(** X9 (search_contracts).  With the store handle there and the search
    answering, a search sends one similarity request for [k] hits
    (the configured default when [k] is missing or zero), changes
    nothing in Pinecone, and returns at most [k] hits, each the
    content and metadata of a stored document, with no score. *)
Theorem search_contracts_hits (q : str) (k : option nat) (w : World) :
  vector_store w = true ->
  failing (pc w) SimilaritySearch = None ->
  exists hits w',
    search_contracts E q k w = (Ok hits, w')
    /\ calls w' = calls w ++ [CallSimilaritySearch q (k_or_default E k) None]
    /\ pc w' = pc w
    /\ length hits <= k_or_default E k
    /\ length hits <= length (vectors (pc w))
    /\ (forall hit,
           In hit hits ->
           relevance_score hit = None
           /\ exists d, In d (vectors (pc w))
                        /\ hit_content hit = page_content d
                        /\ hit_metadata hit = metadata d)
    /\ (k = Some 0 \/ k = None -> k_or_default E k = top_k_results E).
Proof.
  intros Hvs Hs. prog. rewrite Hvs. world_cbn. rewrite Hs. world_cbn.
  do 2 eexists. split; [reflexivity|]. world_cbn.
  split; [reflexivity|]. split; [reflexivity|].
  split; [rewrite length_map; apply firstn_le_length|].
  split.
  { rewrite length_map, length_firstn, ranked_length. apply Nat.le_min_r. }
  split.
  - intros hit Hin. apply in_map_iff in Hin. destruct Hin as (d & <- & Hd).
    split; [reflexivity|]. exists d. simpl. repeat split.
    apply (ranked_In q). eapply In_firstn. exact Hd.
  - intros [->| ->]; reflexivity.
Qed.

Variable Fullness : Type.
Variable describe_index_stats : Pinecone -> Result (IndexStats Fullness).

Lemma get_contract_stats_started (w : World) :
  vector_store w = true ->
  get_contract_stats E describe_index_stats w
  = (match describe_index_stats (pc w) with
     | Ok stats =>
         Ok (Stats (total_vector_count stats) (index_fullness stats)
                   (dimension stats))
     | Raise e => Ok (StatsError (txt "Failed to get stats: " ++ e))
     end, w).
Proof.
  intros Hvs. unfold get_contract_stats. prog. rewrite Hvs.
  destruct (describe_index_stats (pc w)); reflexivity.
Qed.

(** X10 (get_contract_stats).  Once the store handle is there the
    statistics never raise: they are the three numbers of the index,
    or an error record [Failed to get stats: <cause>], and the call
    changes nothing.  Without the handle, a failing initialisation is
    raised to the caller. *)
Theorem get_contract_stats_outcomes (w : World) :
  (vector_store w = true ->
   exists r,
     get_contract_stats E describe_index_stats w = (Ok r, w)
     /\ match describe_index_stats (pc w) with
        | Ok stats =>
            r = Stats (total_vector_count stats) (index_fullness stats)
                      (dimension stats)
        | Raise e => r = StatsError (txt "Failed to get stats: " ++ e)
        end)
  /\ (forall e,
         vector_store w = false ->
         failing (pc w) ListIndexes = Some e ->
         fst (get_contract_stats E describe_index_stats w)
         = Raise (txt "Failed to initialize vector store: " ++ e)).
Proof.
  split.
  - intros Hvs. rewrite (@get_contract_stats_started w Hvs).
    destruct (describe_index_stats (pc w)); eexists; split; reflexivity.
  - intros e Hvs Hl. unfold get_contract_stats. prog.
    rewrite Hvs. world_cbn. rewrite Hl. reflexivity.
Qed.

End IngestionEdgeFacts.


(** ** The audit bot *)

Section AuditBotRestFacts.
Variable E : Env.

Lemma context_part_not_nil i r : context_part i r <> [].
Proof. unfold context_part, nl. simpl. discriminate. Qed.

Lemma joined_context_not_nil i r rest :
  join nl (context_parts i (r :: rest)) <> [].
Proof.
  cbn [context_parts join].
  pose proof (@context_part_not_nil i r) as H.
  destruct (context_part i r) as [|c s]; [contradiction|].
  destruct (context_parts (S i) rest); discriminate.
Qed.

(** What [get_relevant_context] does in every state. *)
Lemma get_relevant_context_facts q w :
  exists ctx w1,
    get_relevant_context E q w = (Ok ctx, w1)
    /\ ctx <> []
    /\ conversation_history w1 = conversation_history w
    /\ vectors (pc w1) = vectors (pc w)
    /\ failing (pc w1) = failing (pc w)
    /\ llm_requests (calls w1) = llm_requests (calls w)
    /\ add_requests (calls w1) = add_requests (calls w).
Proof.
  prog. crunch;
    try match goal with
        | |- context [match map ?f ?l with _ => _ end] =>
            destruct (map f l) eqn:?
        end;
    do 2 eexists; (split; [reflexivity|]); world_cbn;
    (split; [first [apply joined_context_not_nil | discriminate]|]);
    calls_simpl; auto.
Qed.

(** X11 (get_relevant_context).  Retrieval always returns a text, never
    the empty one, and never raises; it sends nothing to the model,
    adds nothing to the store and leaves the conversation as it
    was. *)
Theorem get_relevant_context_never_raises (q : str) (w : World) :
  exists ctx w',
    get_relevant_context E q w = (Ok ctx, w')
    /\ ctx <> []
    /\ conversation_history w' = conversation_history w
    /\ vectors (pc w') = vectors (pc w)
    /\ llm_requests (calls w') = llm_requests (calls w)
    /\ add_requests (calls w') = add_requests (calls w).
Proof.
  destruct (get_relevant_context_facts q w)
    as (ctx & w1 & H & Hne & Hh & Hv & _ & Hl & Ha).
  exists ctx, w1. auto 10.
Qed.

Lemma error_context_is_context (e : str) :
  has_context (txt "Error retrieving context: " ++ e) = true.
Proof. reflexivity. Qed.

(** X12 (chat, get_relevant_context).  When the search fails, a chat
    with context still asks the model: the error text
    [Error retrieving context: Search failed: <cause>] is put in the
    context section of the prompt, and a successful reply is reported
    with the context flag set. *)
Theorem chat_takes_retrieval_error_as_context (user_message : str)
        (w : World) (e : str) :
  vector_store w = true ->
  failing (pc w) SimilaritySearch = Some e ->
  let ctx := txt "Error retrieving context: " ++ txt "Search failed: " ++ e in
  let request :=
    last_n 10 (conversation_history w)
    ++ [SystemMessage (system_template_of ctx);
        HumanMessage (human_message_of user_message)] in
  exists res w',
    chat E user_message true w = (Ok res, w')
    /\ llm_requests (calls w') = llm_requests (calls w) ++ [request]
    /\ match ainvoke E request with
       | Ok reply => res = ChatOk reply true (now_isoformat E)
       | Raise e' => res = ChatFailed (txt "Chat failed: " ++ e')
       end.
Proof.
  intros Hvs Hf ctx request.
  destruct (get_relevant_context_down E user_message w Hvs Hf) as (w1 & Hctx & _).
  destruct (get_relevant_context_facts user_message w)
    as (ctx' & w1' & Hctx' & _ & Hh & _ & _ & Hl & _).
  rewrite Hctx in Hctx'. injection Hctx' as <- <-.
  assert (Hphase : context_phase E user_message true w = (Ok ctx, w1))
    by exact Hctx.
  rewrite (chat_unfold E user_message true w Hphase).
  unfold prompt_messages.
  replace (has_context ctx) with true by (symmetry; apply error_context_is_context).
  rewrite Hh. fold request.
  destruct (ainvoke E request); do 2 eexists;
    (split; [reflexivity|]); cbn [asked answered calls]; calls_simpl;
    rewrite Hl; auto.
Qed.

(** X13 (chat).  A chat without context makes exactly one call, to the
    model, with the trailing ten messages of the history, the system
    prompt and the bare user message; Pinecone and the store handle
    are not touched, not even for the lazy initialisation. *)
Theorem chat_without_retrieval_leaves_store_alone (user_message : str)
        (w : World) :
  let request :=
    last_n 10 (conversation_history w)
    ++ [SystemMessage system_prompt; HumanMessage user_message] in
  exists res w',
    chat E user_message false w = (Ok res, w')
    /\ calls w' = calls w ++ [CallAinvoke request]
    /\ pc w' = pc w
    /\ vector_store w' = vector_store w
    /\ match ainvoke E request with
       | Ok reply => res = ChatOk reply false (now_isoformat E)
       | Raise e => res = ChatFailed (txt "Chat failed: " ++ e)
       end.
Proof.
  intros request.
  assert (Hphase : context_phase E user_message false w = (Ok [], w))
    by reflexivity.
  rewrite (chat_unfold E user_message false w Hphase).
  change (prompt_messages user_message [])
    with [SystemMessage system_prompt; HumanMessage user_message].
  fold request.
  destruct (ainvoke E request); do 2 eexists;
    (split; [reflexivity|]); cbn [asked answered calls pc vector_store]; auto.
Qed.

(** The [try] of the three analyses, after the prompt is built. *)
Lemma one_shot_block {A} (K F : str -> A) (q ctx : str) (w : World) :
  let msgs := [SystemMessage (system_template_of ctx);
               HumanMessage (human_message_of q)] in
  bind (lift (_create_audit_prompt q ctx))
       (fun prompt =>
          try_except
            (bind (invoke_prompt E prompt q) (fun response => ret (K response)))
            (fun e => ret (F e))) w
  = match ainvoke E msgs with
    | Ok reply => (Ok (K reply), asked w msgs)
    | Raise e => (Ok (F e), asked w msgs)
    end.
Proof.
  intros msgs.
  destruct (TemplateFacts.create_audit_prompt_ok q ctx) as (p & Hp & Hf).
  unfold bind at 1. unfold lift at 1. rewrite Hp.
  unfold try_except, invoke_prompt, bind, lift, llm_ainvoke, record_call, ret.
  rewrite Hf. fold msgs. unfold asked.
  destruct (ainvoke E msgs); reflexivity.
Qed.

Variable now_timestamp : str.

Lemma suggest_improvements_unfold content w ctx w1 :
  get_relevant_context E (improvement_query content) w = (Ok ctx, w1) ->
  let msgs := [SystemMessage (system_template_of ctx);
               HumanMessage (human_message_of (improvement_query content))] in
  suggest_improvements E content w
  = match ainvoke E msgs with
    | Ok reply => (Ok (ImprovementsOk reply (now_isoformat E)), asked w1 msgs)
    | Raise e =>
        (Ok (ImprovementsFailed (txt "Improvement analysis failed: " ++ e)),
         asked w1 msgs)
    end.
Proof.
  intros Hctx msgs. unfold suggest_improvements. cbv zeta.
  unfold bind at 1. rewrite Hctx.
  apply (one_shot_block (fun r => ImprovementsOk r (now_isoformat E))
           (fun e => ImprovementsFailed (txt "Improvement analysis failed: " ++ e))).
Qed.

Lemma explain_vulnerability_unfold vt w ctx w1 :
  get_relevant_context E (vt ++ txt " vulnerability smart contract") w
  = (Ok ctx, w1) ->
  let msgs := [SystemMessage (system_template_of ctx);
               HumanMessage (human_message_of (explanation_query vt))] in
  explain_vulnerability E vt w
  = match ainvoke E msgs with
    | Ok reply => (Ok (ExplanationOk reply vt (now_isoformat E)), asked w1 msgs)
    | Raise e =>
        (Ok (ExplanationFailed (txt "Vulnerability explanation failed: " ++ e)),
         asked w1 msgs)
    end.
Proof.
  intros Hctx msgs. unfold explain_vulnerability. cbv zeta.
  unfold bind at 1. rewrite Hctx.
  apply (one_shot_block (fun r => ExplanationOk r vt (now_isoformat E))
           (fun e => ExplanationFailed
                       (txt "Vulnerability explanation failed: " ++ e))).
Qed.

Lemma analyze_contract_security_unfold content w r w1 ctx w2 :
  ingest_contract E (txt "temp_analysis_" ++ now_timestamp ++ txt ".sol")
                  content w = (Ok r, w1) ->
  get_relevant_context E (security_query content) w1 = (Ok ctx, w2) ->
  let msgs := [SystemMessage (system_template_of ctx);
               HumanMessage (human_message_of (security_query content))] in
  analyze_contract_security E now_timestamp content w
  = match ainvoke E msgs with
    | Ok reply =>
        (Ok (AnalysisOk reply (now_isoformat E) (md5_hexdigest E content)),
         asked w2 msgs)
    | Raise e =>
        (Ok (AnalysisFailed (txt "Analysis failed: " ++ e)), asked w2 msgs)
    end.
Proof.
  intros Hing Hctx msgs. unfold analyze_contract_security. cbv zeta.
  unfold bind at 1. rewrite Hing.
  unfold bind at 1. rewrite Hctx.
  apply (one_shot_block
           (fun r => AnalysisOk r (now_isoformat E) (generate_file_hash E content))
           (fun e => AnalysisFailed (txt "Analysis failed: " ++ e))).
Qed.

End AuditBotRestFacts.


Section AnalysesFacts.
Variable E : Env.
Variable now_timestamp : str.

(** [analyze_contract_security] with the store handle in place. *)
Lemma analyze_contract_security_cases content w :
  vector_store w = true ->
  exists ctx w2,
    llm_requests (calls w2) = llm_requests (calls w)
    /\ conversation_history w2 = conversation_history w
    /\ analyze_contract_security E now_timestamp content w
       = let msgs := [SystemMessage (system_template_of ctx);
                      HumanMessage (human_message_of (security_query content))] in
         match ainvoke E msgs with
         | Ok reply =>
             (Ok (AnalysisOk reply (now_isoformat E) (md5_hexdigest E content)),
              asked w2 msgs)
         | Raise e =>
             (Ok (AnalysisFailed (txt "Analysis failed: " ++ e)), asked w2 msgs)
         end.
Proof.
  intros Hvs.
  destruct (ingest_contract_started E
              (txt "temp_analysis_" ++ now_timestamp ++ txt ".sol")
              content w Hvs) as (r & w1 & Hing & _ & Hh1).
  assert (Hl1 : llm_requests (calls w1) = llm_requests (calls w)).
  { destruct (ingest_contract_unfold E
                (txt "temp_analysis_" ++ now_timestamp ++ txt ".sol")
                content w (ensure_vector_store_started E w Hvs))
      as (md & _ & Hu).
    rewrite Hu, ingest_block_cases in Hing.
    destruct (failing (pc w) SimilaritySearch);
      [|destruct (hash_stored _ w); [|destruct (failing (pc w) AddTexts)]];
      injection Hing as _ <-; world_cbn; calls_simpl; reflexivity. }
  destruct (get_relevant_context_facts E (security_query content) w1)
    as (ctx & w2 & Hctx & _ & Hh2 & _ & _ & Hl2 & _).
  exists ctx, w2. split; [congruence|]. split; [congruence|].
  apply (analyze_contract_security_unfold E now_timestamp content w Hing Hctx).
Qed.

(** X14 (analyze_contract_security, suggest_improvements,
    explain_vulnerability).  The three one-shot analyses never raise,
    send the model just a system and a human message, without any
    message of the conversation, and leave the conversation as it
    was, whether the model answers or not. *)
Theorem analyses_ignore_history :
  (forall content w,
      exists ctx res w',
        suggest_improvements E content w = (Ok res, w')
        /\ conversation_history w' = conversation_history w
        /\ llm_requests (calls w')
           = llm_requests (calls w)
             ++ [[SystemMessage (system_template_of ctx);
                  HumanMessage (human_message_of (improvement_query content))]])
  /\ (forall vulnerability_type w,
         exists ctx res w',
           explain_vulnerability E vulnerability_type w = (Ok res, w')
           /\ conversation_history w' = conversation_history w
           /\ llm_requests (calls w')
              = llm_requests (calls w)
                ++ [[SystemMessage (system_template_of ctx);
                     HumanMessage
                       (human_message_of (explanation_query vulnerability_type))]])
  /\ (forall content w,
         vector_store w = true ->
         exists ctx res w',
           analyze_contract_security E now_timestamp content w = (Ok res, w')
           /\ conversation_history w' = conversation_history w
           /\ llm_requests (calls w')
              = llm_requests (calls w)
                ++ [[SystemMessage (system_template_of ctx);
                     HumanMessage (human_message_of (security_query content))]]).
Proof.
  split; [|split].
  - intros content w.
    destruct (get_relevant_context_facts E (improvement_query content) w)
      as (ctx & w1 & Hctx & _ & Hh & _ & _ & Hl & _).
    rewrite (suggest_improvements_unfold E content w Hctx).
    exists ctx.
    destruct (ainvoke E _); do 2 eexists; (split; [reflexivity|]);
      cbn [asked conversation_history calls]; calls_simpl; rewrite Hl; auto.
  - intros vt w.
    destruct (get_relevant_context_facts E
                (vt ++ txt " vulnerability smart contract") w)
      as (ctx & w1 & Hctx & _ & Hh & _ & _ & Hl & _).
    rewrite (explain_vulnerability_unfold E vt w Hctx).
    exists ctx.
    destruct (ainvoke E _); do 2 eexists; (split; [reflexivity|]);
      cbn [asked conversation_history calls]; calls_simpl; rewrite Hl; auto.
  - intros content w Hvs.
    destruct (analyze_contract_security_cases content w Hvs)
      as (ctx & w2 & Hl & Hh & Hrun).
    rewrite Hrun. cbv zeta. exists ctx.
    destruct (ainvoke E _); do 2 eexists; (split; [reflexivity|]);
      cbn [asked conversation_history calls]; calls_simpl;
      rewrite Hl; split; congruence.
Qed.

(** X15 (suggest_improvements, get_relevant_context).  When retrieval
    finds nothing in an empty store, the improvement analysis still
    goes through the context template: the sentence saying that no
    context was found is embedded in the system message, which
    therefore differs from the bare system prompt a chat uses in that
    case. *)
Theorem analyses_use_the_context_template_without_context :
  forall content w,
    healthy w -> vectors (pc w) = [] ->
    exists res w',
      suggest_improvements E content w = (Ok res, w')
      /\ llm_requests (calls w')
         = llm_requests (calls w)
           ++ [[SystemMessage (system_template_of NO_CONTEXT);
                HumanMessage (human_message_of (improvement_query content))]]
      /\ system_template_of NO_CONTEXT <> system_prompt.
Proof.
  intros content w Hh Hv.
  destruct (get_relevant_context_empty E (improvement_query content) Hh Hv)
    as (w1 & Hctx).
  destruct (get_relevant_context_facts E (improvement_query content) w)
    as (ctx & w1' & Hctx' & _ & _ & _ & _ & Hl & _).
  rewrite Hctx in Hctx'. injection Hctx' as <- <-.
  rewrite (suggest_improvements_unfold E content w Hctx).
  destruct (ainvoke E _); do 2 eexists; (split; [reflexivity|]);
    cbn [asked calls]; calls_simpl; rewrite Hl;
    (split; [reflexivity|]);
    intros Heq; apply (f_equal (@length ascii)) in Heq;
    vm_compute in Heq; discriminate.
Qed.

Lemma documents_from_path path h md pats total : forall chunks i0 d,
  In d (documents_from path h md pats total i0 chunks) ->
  file_path (metadata d) = Some path.
Proof.
  induction chunks as [|c chunks IH]; intros i0 d Hin; simpl in Hin.
  - contradiction.
  - destruct Hin as [<-|Hin]; [reflexivity|]. eapply IH; eauto.
Qed.

(** A first ingestion with Pinecone answering, in detail. *)
Lemma ingest_contract_fresh path content w :
  healthy w ->
  hash_stored (md5_hexdigest E content) w = false ->
  exists docs r w',
    ingest_contract E path content w = (Ok r, w')
    /\ vectors (pc w') = vectors (pc w) ++ docs
    /\ length docs = length (split_text E content)
    /\ (forall d, In d docs -> file_path (metadata d) = Some path)
    /\ (split_text E content <> [] ->
        hash_stored (md5_hexdigest E content) w' = true)
    /\ healthy w'
    /\ conversation_history w' = conversation_history w.
Proof.
  intros Hh Hs.
  destruct (ensure_vector_store_healthy E Hh)
    as (w1 & Hens & Hv & Hf & Hhist & _).
  destruct (ingest_contract_unfold E path content w Hens) as (md & _ & ->).
  rewrite ingest_block_cases.
  assert (Hh1 : healthy w1) by (eapply healthy_same_failing; eauto).
  rewrite (Hh1 SimilaritySearch), (Hh1 AddTexts).
  replace (hash_stored (md5_hexdigest E content) w1) with false
    by (unfold hash_stored in *; rewrite Hv; auto).
  do 3 eexists. split; [reflexivity|]. world_cbn.
  split; [rewrite Hv; reflexivity|].
  split; [apply documents_from_length|].
  split; [intros d; apply documents_from_path|].
  split.
  - intros Hne. unfold hash_stored. world_cbn.
    rewrite existsb_app, documents_from_hash by exact Hne. apply orb_true_r.
  - split; [|exact Hhist]. intros api. world_cbn. apply Hh1.
Qed.

(** X16 (analyze_contract_security).  The security analysis ingests
    the contract under the path [temp_analysis_<timestamp>.sol] and
    never removes it: after the analysis the store holds one more
    document per chunk, all under that path, and a later ingestion of
    the same content under any path is skipped. *)
Theorem analysis_leaves_the_contract_ingested (content : str) (w : World) :
  healthy w ->
  hash_stored (md5_hexdigest E content) w = false ->
  split_text E content <> [] ->
  let temp_file_path := txt "temp_analysis_" ++ now_timestamp ++ txt ".sol" in
  exists res docs w',
    analyze_contract_security E now_timestamp content w = (Ok res, w')
    /\ vectors (pc w') = vectors (pc w) ++ docs
    /\ length docs = length (split_text E content)
    /\ (forall d, In d docs -> file_path (metadata d) = Some temp_file_path)
    /\ forall path,
         exists msg w'',
           ingest_contract E path content w'
           = (Ok (Skipped msg (md5_hexdigest E content)), w'')
           /\ vectors (pc w'') = vectors (pc w').
Proof.
  intros Hh Hs Hne tmp.
  destruct (ingest_contract_fresh tmp content Hh Hs)
    as (docs & r & w1 & Hing & Hv1 & Hlen & Hpath & Hstored & Hh1 & _).
  destruct (get_relevant_context_facts E (security_query content) w1)
    as (ctx & w2 & Hctx & _ & _ & Hv2 & Hf2 & _ & _).
  rewrite (analyze_contract_security_unfold E now_timestamp content w Hing Hctx).
  assert (Hfinal : forall w3,
             vectors (pc w3) = vectors (pc w2) ->
             failing (pc w3) = failing (pc w2) ->
             vectors (pc w3) = vectors (pc w) ++ docs
             /\ forall path,
                  exists msg w'',
                    ingest_contract E path content w3
                    = (Ok (Skipped msg (md5_hexdigest E content)), w'')
                    /\ vectors (pc w'') = vectors (pc w3)).
  { intros w3 Hv3 Hf3. split; [congruence|]. intros path.
    assert (Hh3 : healthy w3).
    { intros api. rewrite Hf3, Hf2. apply Hh1. }
    destruct (ingest_contract_healthy E path content Hh3)
      as (md & docs3 & w4 & _ & _ & _ & Hcase).
    replace (hash_stored (md5_hexdigest E content) w3) with true in Hcase.
    - destruct Hcase as (Hrun & Hv4 & _). eauto.
    - symmetry. rewrite <- (Hstored Hne). unfold hash_stored.
      rewrite Hv3, Hv2. reflexivity. }
  destruct (ainvoke E _); do 3 eexists; (split; [reflexivity|]);
    (destruct (Hfinal (asked w2 [SystemMessage (system_template_of ctx);
                                HumanMessage
                                  (human_message_of (security_query content))])
                eq_refl eq_refl) as [Hv Hskip]);
    repeat split; eauto.
Qed.

Lemma list_sum_app (a b : list nat) : list_sum (a ++ b) = list_sum a + list_sum b.
Proof. induction a; simpl; lia. Qed.

(** X17 (get_conversation_summary, clear_conversation).  The summary
    is computed from the history: a successful chat adds two to the
    message count and the lengths of the user message and of the
    reply to the conversation length, and stamps the last
    interaction; after clearing, the summary reads zero, zero and no
    last interaction. *)
Theorem conversation_summary_follows_history :
  (forall user_message ic w res w' reply used stamp,
      chat E user_message ic w = (Ok res, w') ->
      res = ChatOk reply used stamp ->
      exists before after,
        fst (get_conversation_summary E w) = Ok before
        /\ fst (get_conversation_summary E w') = Ok after
        /\ message_count after = message_count before + 2
        /\ conversation_length after
           = conversation_length before + length user_message + length reply
        /\ last_interaction after = Some (now_isoformat E))
  /\ (forall w,
         exists w' cleared,
           clear_conversation w = (Ok tt, w')
           /\ fst (get_conversation_summary E w') = Ok cleared
           /\ message_count cleared = 0
           /\ conversation_length cleared = 0
           /\ last_interaction cleared = None).
Proof.
  split.
  - intros user_message ic w res w' reply used stamp Hchat ->.
    destruct (chat_cases E user_message ic w) as (ctx & full & _ & _ & Hcase).
    rewrite Hchat in Hcase. cbn [fst snd] in Hcase.
    destruct (ainvoke E full) as [reply'|e]; destruct Hcase as [Hres Hh];
      [|discriminate].
    injection Hres as <- _ _.
    do 2 eexists. split; [reflexivity|]. split; [reflexivity|].
    cbn [message_count conversation_length last_interaction].
    rewrite Hh, length_app, map_app, list_sum_app. simpl.
    repeat split; try lia.
    destruct (conversation_history w); reflexivity.
  - intros w. do 2 eexists. split; [reflexivity|]. split; [reflexivity|].
    auto.
Qed.

End AnalysesFacts.


(** ** The configuration *)

Module ConfigFacts.
Import Config.

(** X18 (validate_configuration).  Validation looks only at the two
    API keys: it returns [True] when both are non-empty and otherwise
    raises a ValueError naming the empty ones, in upper case, in the
    order OPENAI_API_KEY, PINECONE_API_KEY. *)
Theorem validate_configuration_cases (s : Settings) :
  validate_configuration s =
  match openai_api_key s, pinecone_api_key s with
  | _ :: _, _ :: _ => Ok true
  | [], _ :: _ =>
      Raise (txt "Missing required environment variables: OPENAI_API_KEY")
  | _ :: _, [] =>
      Raise (txt "Missing required environment variables: PINECONE_API_KEY")
  | [], [] =>
      Raise (txt "Missing required environment variables: OPENAI_API_KEY, PINECONE_API_KEY")
  end.
Proof.
  unfold validate_configuration, required_keys. cbn [missing_among].
  change (getattr s (txt "openai_api_key")) with (openai_api_key s).
  change (getattr s (txt "pinecone_api_key")) with (pinecone_api_key s).
  destruct (openai_api_key s), (pinecone_api_key s); reflexivity.
Qed.

(** X19 (get_settings).  The settings are stored in the module's global
    before they are validated: when the first call raises, the
    invalid settings stay there, and every later call returns them
    without validating and without reading the environment again. *)
Theorem get_settings_validates_once (loaded : Settings) :
  exists first,
    get_settings loaded None = (first, Some loaded)
    /\ first = match validate_configuration loaded with
               | Ok _ => Ok loaded
               | Raise e => Raise e
               end
    /\ forall later_env,
         get_settings later_env (Some loaded) = (Ok loaded, Some loaded).
Proof.
  unfold get_settings.
  destruct (validate_configuration loaded); eexists; repeat split.
Qed.

End ConfigFacts.

(** ** The HTTP layer *)

Module MainFacts.
Import Main.

Section RateLimitFacts.
Variable Time : Type.
Variable later : Time -> Time -> bool.
Variable hour_before : Time -> Time.

Lemma str_eqb_neq (a b : str) : a <> b -> str_eqb a b = false.
Proof.
  intros H. destruct (str_eqb a b) eqn:Heq; [|reflexivity].
  apply str_eqb_eq in Heq. contradiction.
Qed.

Lemma requests_of_setitem_same (m : Counts Time) ip v :
  requests_of (setitem m ip v) ip = v.
Proof. unfold requests_of, setitem. rewrite str_eqb_refl. reflexivity. Qed.

Lemma requests_of_setitem_other (m : Counts Time) ip ip' v :
  ip' <> ip -> requests_of (setitem m ip v) ip' = requests_of m ip'.
Proof.
  intros H. unfold requests_of, setitem. rewrite (str_eqb_neq H). reflexivity.
Qed.


(** X20 (check_rate_limit).  One check drops the client's requests
    that are not later than one hour before now, allows the request
    exactly when fewer than 100 remain, records the time only of an
    allowed request, and leaves the other clients' records alone. *)
Theorem check_rate_limit_step (current_time : Time) (ip : str)
        (m : Counts Time) :
  let kept := recent later hour_before current_time ip m in
  let (allowed, m') := check_rate_limit later hour_before current_time ip m in
  allowed = (length kept <? 100)
  /\ requests_of m' ip = (if allowed then kept ++ [current_time] else kept)
  /\ (forall ip', ip' <> ip -> requests_of m' ip' = requests_of m ip').
Proof.
  unfold check_rate_limit, recent.
  assert (Hreq : requests_of
                   match m ip with
                   | Some _ => m
                   | None => setitem m ip []
                   end ip = requests_of m ip).
  { unfold requests_of at 2. destruct (m ip) eqn:Hm.
    - unfold requests_of. rewrite Hm. reflexivity.
    - apply requests_of_setitem_same. }
  assert (Hother : forall ip', ip' <> ip ->
             requests_of
               match m ip with
               | Some _ => m
               | None => setitem m ip []
               end ip' = requests_of m ip').
  { intros ip' Hne. destruct (m ip); [reflexivity|].
    apply requests_of_setitem_other. exact Hne. }
  rewrite requests_of_setitem_same, Hreq.
  set (kept := filter _ (requests_of m ip)).
  destruct (100 <=? length kept) eqn:Hfull.
  - apply Nat.leb_le in Hfull. split; [|split].
    + symmetry. apply Nat.ltb_ge. exact Hfull.
    + apply requests_of_setitem_same.
    + intros ip' Hne. rewrite requests_of_setitem_other by exact Hne. auto.
  - apply Nat.leb_gt in Hfull. split; [|split].
    + symmetry. apply Nat.ltb_lt. exact Hfull.
    + apply requests_of_setitem_same.
    + intros ip' Hne. rewrite !requests_of_setitem_other by exact Hne. auto.
Qed.

Lemma filter_length_le {A} (f : A -> bool) (l : list A) :
  length (filter f l) <= length l.
Proof. induction l as [|a l IH]; simpl; [lia|]. destruct (f a); simpl; lia. Qed.

Lemma check_rate_limit_bound (current_time : Time) (ip : str)
      (m : Counts Time) :
  (forall c, length (requests_of m c) <= 100) ->
  forall c,
    length (requests_of
              (snd (check_rate_limit later hour_before current_time ip m)) c)
    <= 100.
Proof.
  intros Hinv c. unfold check_rate_limit.
  set (m1 := match m ip with
             | Some _ => m
             | None => setitem m ip []
             end).
  assert (H1 : forall c0, length (requests_of m1 c0) <= 100).
  { intros c0. unfold m1. destruct (m ip); [apply Hinv|].
    unfold requests_of, setitem. destruct (str_eqb c0 ip); [simpl; lia|].
    apply Hinv. }
  rewrite requests_of_setitem_same.
  set (kept := filter _ (requests_of m1 ip)).
  assert (Hkept : length kept <= 100).
  { etransitivity; [apply filter_length_le|apply H1]. }
  assert (H2 : forall c0, length (requests_of (setitem m1 ip kept) c0) <= 100).
  { intros c0. unfold requests_of, setitem.
    destruct (str_eqb c0 ip); [exact Hkept|]. apply H1. }
  destruct (100 <=? length kept) eqn:Hfull; cbn [snd].
  - apply H2.
  - apply Nat.leb_gt in Hfull.
    unfold requests_of, setitem at 1. destruct (str_eqb c ip).
    + rewrite length_app. simpl. lia.
    + apply H2.
Qed.

(** X21 (check_rate_limit).  Starting from records of at most 100
    requests per client (as the empty table the module starts with),
    no sequence of checks lets a client's record grow beyond 100
    requests. *)
Theorem rate_limiter_keeps_at_most_100 (requests : list (Time * str)) :
  forall m,
    (forall c, length (requests_of m c) <= 100) ->
    forall c,
      length (requests_of (snd (serve later hour_before requests m)) c) <= 100.
Proof.
  induction requests as [|[t ip] requests IH]; intros m Hinv c.
  - apply Hinv.
  - cbn [serve].
    pose proof (check_rate_limit_bound t ip m Hinv) as Hb.
    destruct (check_rate_limit later hour_before t ip m) as [allowed m1].
    cbn [snd] in Hb. specialize (IH m1 Hb c).
    destruct (serve later hour_before requests m1) as [answers m2].
    exact IH.
Qed.

End RateLimitFacts.

(** *** File names *)

Lemma rfind_end_app c (a b : str) :
  rfind_end c (a ++ b) =
  match rfind_end c b with
  | 0 => rfind_end c a
  | S n => S (length a + n)
  end.
Proof.
  induction a as [|x a IH]; simpl.
  - destruct (rfind_end c b); reflexivity.
  - rewrite IH. destruct (rfind_end c b); reflexivity.
Qed.

Lemma rfind_end_absent c (s : str) : ~ In c s -> rfind_end c s = 0.
Proof.
  induction s as [|x s IH]; simpl; intros H; [reflexivity|].
  rewrite IH by tauto.
  destruct (ascii_eqb x c) eqn:Hx; [|reflexivity].
  apply ascii_eqb_eq in Hx. subst. tauto.
Qed.

Lemma rfind_end_le c (s : str) : rfind_end c s <= length s.
Proof.
  induction s as [|x s IH]; simpl; [lia|].
  destruct (rfind_end c s); [destruct (ascii_eqb x c)|]; lia.
Qed.


Lemma existsb_not_only_dots (s : str) :
  existsb (fun c => negb (ascii_eqb c dot)) s = negb (only_dots s).
Proof.
  unfold only_dots. induction s as [|c s IH]; simpl; [reflexivity|].
  rewrite IH. destruct (ascii_eqb c dot); reflexivity.
Qed.

(** [os.path.splitext] splits at the last dot of the last path
    component, unless only dots come before it there. *)
Lemma splitext_last_dot (base ext : str) :
  ~ In dot ext -> ~ In slash ext ->
  splitext (base ++ dot :: ext)
  = if only_dots (basename base) then (base ++ dot :: ext, [])
    else (base, dot :: ext).
Proof.
  intros Hdot Hslash.
  assert (Hd : rfind_end dot (base ++ dot :: ext) = S (length base)).
  { rewrite rfind_end_app. cbn [rfind_end].
    rewrite (@rfind_end_absent dot ext Hdot).
    change (if ascii_eqb dot dot then 1 else 0) with 1. cbv iota. lia. }
  assert (Hs : rfind_end slash (base ++ dot :: ext) = rfind_end slash base).
  { rewrite rfind_end_app. cbn [rfind_end].
    rewrite (@rfind_end_absent slash ext Hslash). reflexivity. }
  unfold splitext, basename. rewrite Hd, Hs.
  pose proof (rfind_end_le slash base) as Hle.
  replace (rfind_end slash base <? S (length base)) with true
    by (symmetry; apply Nat.ltb_lt; lia).
  replace (S (length base) - 1) with (length base) by lia.
  rewrite skipn_app.
  replace (rfind_end slash base - length base) with 0 by lia.
  rewrite skipn_O, firstn_app.
  rewrite length_skipn.
  replace (length base - rfind_end slash base
           - (length base - rfind_end slash base)) with 0 by lia.
  rewrite firstn_O, app_nil_r, firstn_all2 by (rewrite length_skipn; lia).
  rewrite existsb_not_only_dots.
  destruct (only_dots (skipn (rfind_end slash base) base)); simpl; [reflexivity|].
  rewrite firstn_app, firstn_all, Nat.sub_diag, firstn_O, app_nil_r.
  rewrite skipn_app, skipn_all, Nat.sub_diag, skipn_O. reflexivity.
Qed.

End MainFacts.


Module EndpointFacts.
Import Main MainFacts.

Section Endpoints.
Variable E : Env.
Variable http_str : nat -> str -> str.
Variable megabytes : nat -> str.
Variable now_timestamp : str.
Variable Fullness : Type.
Variable describe_index_stats : Pinecone -> Result (IndexStats Fullness).

(** X22 (validate_file).  The extension is compared in lower case: a
    file within the size limit whose extension, lowered, is in the
    allowed list is accepted, however the file name spells it. *)
Theorem validate_file_accepts_any_letter_case (file : UploadFile)
        (settings : Config.Settings) (base ext : str) :
  filename file = base ++ dot :: ext ->
  ~ In dot ext -> ~ In slash ext ->
  only_dots (basename base) = false ->
  size file <= Config.max_file_size settings ->
  In (str_lower (dot :: ext)) (Config.allowed_file_extensions settings) ->
  validate_file megabytes file settings = None.
Proof.
  intros Hname Hdot Hslash Hbase Hsize Hin. unfold validate_file.
  replace (Config.max_file_size settings <? size file) with false
    by (symmetry; apply Nat.ltb_ge; exact Hsize).
  rewrite Hname, (@splitext_last_dot base ext Hdot Hslash), Hbase. cbn [snd].
  apply existsb_str_eqb_In in Hin. rewrite Hin. reflexivity.
Qed.

(** X23 (validate_file).  The size is checked first: a file over the
    limit is refused with 413 whatever its name.  A file within the
    limit whose name has no dot, or nothing but dots before its last
    dot (as [.sol]), has the empty extension and is refused with 400
    and the list of allowed extensions. *)
Theorem validate_file_rejections (file : UploadFile)
        (settings : Config.Settings) :
  (Config.max_file_size settings < size file ->
   validate_file megabytes file settings
   = Some (HTTPException 413
             (txt "File too large. Maximum size: "
              ++ megabytes (Config.max_file_size settings) ++ txt "MB")))
  /\ (size file <= Config.max_file_size settings ->
      ~ In [] (Config.allowed_file_extensions settings) ->
      (~ In dot (filename file)
       \/ exists base ext,
            filename file = base ++ dot :: ext
            /\ ~ In dot ext /\ ~ In slash ext
            /\ only_dots (basename base) = true) ->
      validate_file megabytes file settings
      = Some (HTTPException 400
                (txt "Invalid file type. Allowed: "
                 ++ join (txt ", ") (Config.allowed_file_extensions settings)))).
Proof.
  split.
  - intros Hbig. unfold validate_file.
    replace (Config.max_file_size settings <? size file) with true
      by (symmetry; apply Nat.ltb_lt; exact Hbig).
    reflexivity.
  - intros Hsize Hempty Hname. unfold validate_file.
    replace (Config.max_file_size settings <? size file) with false
      by (symmetry; apply Nat.ltb_ge; exact Hsize).
    assert (Hext : snd (splitext (filename file)) = []).
    { destruct Hname as [Hnodot|(base & ext & -> & Hdot & Hslash & Hdots)].
      - unfold splitext. rewrite (@rfind_end_absent dot _ Hnodot).
        replace (rfind_end slash (filename file) <? 0) with false
          by (symmetry; apply Nat.ltb_ge; lia).
        reflexivity.
      - rewrite (@splitext_last_dot base ext Hdot Hslash), Hdots. reflexivity. }
    rewrite Hext. cbn [str_lower map].
    apply existsb_str_eqb_not_In in Hempty. rewrite Hempty. reflexivity.
Qed.

Lemma validate_file_raises_http file settings f :
  validate_file megabytes file settings = Some f ->
  exists status detail,
    f = HTTPException status detail /\ (status = 413 \/ status = 400).
Proof.
  unfold validate_file.
  destruct (_ <? _); [intros H; injection H as <-; eauto|].
  destruct (existsb _ _); [discriminate|].
  intros H; injection H as <-; eauto.
Qed.

Lemma ingest_contract_result_hash path content w r w' :
  ingest_contract E path content w = (Ok r, w') ->
  ingest_success r = true ->
  upload_response r
  = {| up_success := true;
       up_message := up_message (upload_response r);
       up_file_hash := Some (md5_hexdigest E content);
       up_chunks_added := up_chunks_added (upload_response r);
       up_action := up_action (upload_response r);
       up_error := None |}.
Proof.
  unfold ingest_contract. unfold bind at 1.
  destruct (ensure_vector_store E w) as [[[]|e] w1]; [|discriminate].
  destruct (process_contract_file_ok E path content) as (md & _ & ->).
  fold (ingest_block E path (md5_hexdigest E content) md
          (SolidityParser.identify_security_patterns content)
          (documents_from path (md5_hexdigest E content) md
             (SolidityParser.identify_security_patterns content)
             (length (split_text E content)) 0 (split_text E content))).
  rewrite ingest_block_cases.
  destruct (failing (pc w1) SimilaritySearch);
    [|destruct (hash_stored _ w1); [|destruct (failing (pc w1) AddTexts)]];
    intros H Hok; injection H as <- _; try discriminate; reflexivity.
Qed.

(** X24 (upload_contract).  The handler's own 413 and 400 errors are
    caught by its [except Exception] and leave as 500: a file over
    the limit answers 500 with the 413 message inside.  The only 400
    that gets out is the one for bytes that are not UTF-8; every
    failure is an HTTPException; and a response means that the file
    passed validation and carries the hash of its decoded content. *)
Theorem upload_contract_statuses (file : UploadFile)
        (settings : Config.Settings) (w : World) :
  (Config.max_file_size settings < size file ->
   upload_contract E http_str megabytes file settings w
   = (Fail (HTTPException 500
              (txt "Upload failed: "
               ++ http_str 413
                    (txt "File too large. Maximum size: "
                     ++ megabytes (Config.max_file_size settings)
                     ++ txt "MB"))), w))
  /\ (forall status detail w',
         upload_contract E http_str megabytes file settings w
         = (Fail (HTTPException status detail), w') ->
         status = 500
         \/ (status = 400 /\ decoded file = None
             /\ detail = txt "File must be valid UTF-8 text" /\ w' = w))
  /\ (forall f w',
         upload_contract E http_str megabytes file settings w = (Fail f, w') ->
         exists status detail, f = HTTPException status detail)
  /\ (forall r w',
         upload_contract E http_str megabytes file settings w
         = (Respond r, w') ->
         up_success r = true
         /\ validate_file megabytes file settings = None
         /\ exists content,
              decoded file = Some content
              /\ up_file_hash r = Some (md5_hexdigest E content)).
Proof.
  unfold upload_contract, upload_contract_body.
  split; [|split; [|split]].
  - intros Hbig. unfold validate_file.
    replace (Config.max_file_size settings <? size file) with true
      by (symmetry; apply Nat.ltb_lt; exact Hbig).
    reflexivity.
  - intros status detail w'.
    destruct (validate_file megabytes file settings) as [f|] eqn:Hv.
    + destruct (validate_file_raises_http _ _ Hv) as (s0 & d0 & -> & _).
      intros H. injection H as <- _ _. auto.
    + destruct (decoded file) as [content|].
      * destruct (ingest_contract E (filename file) content w) as [[r|e] w1].
        -- destruct (ingest_success r); intros H; [discriminate|].
           injection H as <- _ _. auto.
        -- intros H. injection H as <- _ _. auto.
      * intros H. injection H as <- <- <-. auto.
  - intros f w'.
    destruct (validate_file megabytes file settings) as [f0|] eqn:Hv.
    + destruct (validate_file_raises_http _ _ Hv) as (s0 & d0 & -> & _).
      intros H. injection H as <- _. eauto.
    + destruct (decoded file) as [content|].
      * destruct (ingest_contract E (filename file) content w) as [[r|e] w1].
        -- destruct (ingest_success r); intros H; [discriminate|].
           injection H as <- _. eauto.
        -- intros H. injection H as <- _. eauto.
      * intros H. injection H as <- _. eauto.
  - intros r w'.
    destruct (validate_file megabytes file settings) as [f0|] eqn:Hv.
    { destruct (validate_file_raises_http _ _ Hv) as (s0 & d0 & -> & _).
      discriminate. }
    destruct (decoded file) as [content|]; [|discriminate].
    destruct (ingest_contract E (filename file) content w) as [[r0|e] w1] eqn:Hing;
      [|discriminate].
    destruct (ingest_success r0) eqn:Hok; [|discriminate].
    intros H. injection H as <- <-.
    rewrite (ingest_contract_result_hash _ _ _ Hing Hok). cbn.
    repeat split. eauto.
Qed.

(** X25 (main.search_contracts).  A blank query answers 500, with the
    400 message inside, before anything is sent; a failing search
    answers 500 with the prefix [Search failed: ] twice.  A successful
    search sends one similarity request and answers with the query,
    the hits and their number.  The number is at most [k] when [k] is
    not zero; for [k = 0] the service asks for the configured
    [top_k_results] instead, so that the number can exceed [k] and is
    at most [top_k_results]. *)
Theorem search_endpoint_statuses (query : str) (k : nat) (w : World) :
  (strip query = [] ->
   Main.search_contracts E http_str query k w
   = (Fail (HTTPException 500
              (txt "Search failed: "
               ++ http_str 400 (txt "Query cannot be empty"))), w))
  /\ (forall e,
         strip query <> [] ->
         vector_store w = true ->
         failing (pc w) SimilaritySearch = Some e ->
         exists w',
           Main.search_contracts E http_str query k w
           = (Fail (HTTPException 500
                      (txt "Search failed: " ++ txt "Search failed: " ++ e)),
              w'))
  /\ (strip query <> [] ->
      vector_store w = true ->
      failing (pc w) SimilaritySearch = None ->
      exists r w',
        Main.search_contracts E http_str query k w = (Respond r, w')
        /\ sr_query r = query
        /\ sr_count r = length (sr_results r)
        /\ calls w'
           = calls w
             ++ [CallSimilaritySearch
                   query (if k =? 0 then top_k_results E else k) None]
        /\ (k <> 0 -> sr_count r <= k)
        /\ (k = 0 -> sr_count r <= top_k_results E)
        /\ sr_count r <= length (vectors (pc w))).
Proof.
  unfold Main.search_contracts. split; [|split].
  - intros ->. reflexivity.
  - intros e Hq Hvs Hf. destruct (strip query); [contradiction|].
    destruct (search_contracts_down E query (Some k) w Hvs Hf) as (w' & -> & _).
    eexists. reflexivity.
  - intros Hq Hvs Hf. destruct (strip query); [contradiction|].
    destruct (search_contracts_started E query (Some k) w Hvs Hf)
      as (hits & w' & -> & Hcalls & Hle & Hlen).
    do 2 eexists. split; [reflexivity|]. cbn [sr_query sr_count sr_results].
    destruct k as [|k]; cbn [k_or_default Nat.eqb] in *;
      repeat split; auto; intros; try congruence; try lia.
Qed.

(** X26 (chat_with_bot).  The chat endpoint always responds and never
    fails with an HTTP error: a success carries the reply, which is
    also what the history grew by; a failure carries
    [Chat failed: <cause>], no response, context flag off, and the
    history unchanged. *)
Theorem chat_endpoint_always_responds (message : str) (ic : bool) (w : World) :
  exists r w',
    chat_with_bot E message ic w = (Respond r, w')
    /\ (success r = true ->
        error r = None
        /\ exists reply,
             response r = Some reply
             /\ conversation_history w'
                = conversation_history w
                  ++ [HumanMessage message; AIMessage reply])
    /\ (success r = false ->
        response r = None /\ context_used r = false
        /\ conversation_history w' = conversation_history w
        /\ exists e, error r = Some (txt "Chat failed: " ++ e)).
Proof.
  destruct (chat_cases E message ic w) as (ctx & full & _ & _ & Hcase).
  unfold chat_with_bot.
  destruct (chat E message ic w) as [res w'] eqn:Hchat.
  cbn [fst snd] in Hcase.
  destruct (ainvoke E full) as [reply|e]; destruct Hcase as [-> Hh];
    do 2 eexists; (split; [reflexivity|]); cbn; split; intros Hs;
    try discriminate; eauto 6.
Qed.

(** X27 (analyze_contract).  With the store handle there, the analysis
    endpoint asks the model once, without history; the reply is
    returned with the hash of the contract, and a model failure
    leaves as 500 [Analysis failed: ] wrapped around the handler's
    own 400. *)
Theorem analyze_endpoint_statuses (contract_content : str) (w : World) :
  vector_store w = true ->
  exists ctx w',
    let msgs := [SystemMessage (system_template_of ctx);
                 HumanMessage
                   (human_message_of (security_query contract_content))] in
    snd (analyze_contract E http_str now_timestamp contract_content w) = w'
    /\ llm_requests (calls w') = llm_requests (calls w) ++ [msgs]
    /\ fst (analyze_contract E http_str now_timestamp contract_content w)
       = match ainvoke E msgs with
         | Ok reply =>
             Respond (AnalysisOk reply (now_isoformat E)
                                 (md5_hexdigest E contract_content))
         | Raise e =>
             Fail (HTTPException 500
                     (txt "Analysis failed: "
                      ++ http_str 400 (txt "Analysis failed: " ++ e)))
         end.
Proof.
  intros Hvs.
  destruct (analyze_contract_security_cases E now_timestamp contract_content w Hvs)
    as (ctx & w2 & Hl & _ & Hrun).
  exists ctx. unfold analyze_contract. rewrite Hrun. cbv zeta.
  destruct (ainvoke E _); eexists; (split; [reflexivity|]);
    cbn [fst snd asked calls]; calls_simpl; rewrite Hl; auto.
Qed.

(** X28 (health_check).  Once the store handle is there the health
    check reports [healthy] even when the statistics fail: only the
    two connection fields read [error].  It reports unhealthy (503)
    when the lazy initialisation fails. *)
Theorem health_check_reports_healthy_once_started (w : World) :
  (vector_store w = true ->
   health_check E describe_index_stats w
   = (Healthy (now_isoformat E)
              (match describe_index_stats (pc w) with
               | Ok _ => txt "connected"
               | Raise _ => txt "error"
               end)
              (match describe_index_stats (pc w) with
               | Ok _ => txt "connected"
               | Raise _ => txt "error"
               end), w))
  /\ (forall e,
         vector_store w = false ->
         failing (pc w) ListIndexes = Some e ->
         fst (health_check E describe_index_stats w)
         = Unhealthy503 (txt "Failed to initialize vector store: " ++ e)
                        (now_isoformat E)).
Proof.
  split.
  - intros Hvs. unfold health_check.
    rewrite (@get_contract_stats_started E Fullness describe_index_stats w Hvs).
    destruct (describe_index_stats (pc w)); reflexivity.
  - intros e Hvs Hl. unfold health_check, get_contract_stats. prog.
    rewrite Hvs. world_cbn. rewrite Hl. reflexivity.
Qed.

End Endpoints.

End EndpointFacts.


(** ** Runs of the rest of the program *)

Lemma demo_world_search_down_started :
  vector_store demo_world_search_down = true.
Proof. reflexivity. Defined.

Lemma process_contract_file_documents_witness :
  nth_error (split_text demo_env demo_contract) 1 = Some (txt "ma s")
  /\ exists md pats docs d,
       process_contract_file demo_env (txt "Vault.sol") demo_contract
       = Processed (txt "Vault.sol") (md5_hexdigest demo_env demo_contract)
                   (length (split_text demo_env demo_contract)) md pats docs
       /\ nth_error docs 1 = Some d
       /\ page_content d = txt "ma s"
       /\ chunk_index (metadata d) = 1.
Proof.
  assert (Hn : nth_error (split_text demo_env demo_contract) 1 = Some (txt "ma s"))
    by (vm_compute; reflexivity).
  split; [exact Hn|].
  destruct (process_contract_file demo_env (txt "Vault.sol") demo_contract)
    as [p h n md pats docs|p e] eqn:Hrun.
  - destruct (process_contract_file_documents demo_env (txt "Vault.sol")
                demo_contract Hrun) as (-> & -> & -> & _ & Hnth).
    destruct (Hnth 1 (txt "ma s") Hn) as (d & Hd & Hc & Hi & _).
    exists md, pats, docs, d. auto.
  - vm_compute in Hrun. discriminate Hrun.
Defined.

Lemma process_contract_file_caps_functions_witness :
  exists md docs,
    process_contract_file demo_env (txt "Vault.sol") demo_contract
    = Processed (txt "Vault.sol") (md5_hexdigest demo_env demo_contract)
                (length (split_text demo_env demo_contract)) md
                (SolidityParser.identify_security_patterns demo_contract) docs
    /\ forall d, In d docs ->
                 exists fs, functions (metadata d) = Some fs /\ length fs <= 10.
Proof.
  destruct (process_contract_file_caps_functions demo_env (txt "Vault.sol")
              demo_contract) as (md & docs & _ & Hp & Hall).
  exists md, docs. split; [exact Hp|].
  intros d Hin. destruct (Hall d Hin) as (fs & Hf & Hle & _).
  exists fs. auto.
Defined.

Lemma demo_world_unstarted_healthy : healthy demo_world_unstarted.
Proof. intros api. reflexivity. Defined.

Lemma initialize_vector_store_creates_once_witness :
  healthy demo_world_unstarted
  /\ ~ In (pinecone_index_name demo_env) (indexes (pc demo_world_unstarted))
  /\ exists w',
       initialize_vector_store demo_env demo_world_unstarted = (Ok tt, w')
       /\ calls w' = [CallListIndexes;
                      CallCreateIndex (pinecone_index_name demo_env)].
Proof.
  split; [exact demo_world_unstarted_healthy|].
  assert (Hno : ~ In (pinecone_index_name demo_env)
                  (indexes (pc demo_world_unstarted))) by (intros []).
  split; [exact Hno|].
  destruct (initialize_vector_store_creates_once demo_env
              demo_world_unstarted_healthy)
    as (w' & Hrun & _ & _ & _ & _ & _ & Hcreate & _).
  exists w'. split; [exact Hrun|]. exact (proj2 (Hcreate Hno)).
Defined.

Lemma initialize_vector_store_failure_witness :
  failing (pc demo_world_unstarted_down) ListIndexes
  = Some (txt "401 Unauthorized")
  /\ exists w',
       initialize_vector_store demo_env demo_world_unstarted_down
       = (Raise (txt "Failed to initialize vector store: 401 Unauthorized"), w')
       /\ vector_store w' = false.
Proof.
  split; [reflexivity|].
  destruct (initialize_vector_store_failure demo_env demo_world_unstarted_down
              (txt "401 Unauthorized")) as (Hlist & _).
  destruct (Hlist eq_refl) as (w' & Hrun & Hvs & _).
  exists w'. split; [exact Hrun|exact Hvs].
Defined.

Lemma lazy_initialisation_failure_is_raised_witness :
  vector_store demo_world_unstarted_down = false
  /\ failing (pc demo_world_unstarted_down) ListIndexes
     = Some (txt "401 Unauthorized")
  /\ exists w',
       ingest_contract demo_env (txt "Vault.sol") demo_contract
                       demo_world_unstarted_down
       = (Raise (txt "Failed to initialize vector store: 401 Unauthorized"), w').
Proof.
  split; [reflexivity|]. split; [reflexivity|].
  destruct (@lazy_initialisation_failure_is_raised demo_env (txt "Vault.sol")
              demo_contract (txt "owner") None demo_world_unstarted_down
              (txt "401 Unauthorized") eq_refl eq_refl)
    as ((w' & Hrun & _) & _).
  exists w'. exact Hrun.
Defined.

Lemma demo_batch_has_keys : Forall has_both_keys demo_batch.
Proof.
  repeat constructor; do 2 eexists; split; reflexivity.
Defined.

Lemma ingest_multiple_contracts_one_result_each_witness :
  vector_store demo_world = true
  /\ Forall has_both_keys demo_batch
  /\ exists results w',
       ingest_multiple_contracts demo_env demo_batch demo_world
       = (Ok results, w')
       /\ length results = 2.
Proof.
  split; [reflexivity|]. split; [exact demo_batch_has_keys|].
  destruct (@ingest_multiple_contracts_one_result_each demo_env demo_batch
              demo_world eq_refl demo_batch_has_keys)
    as (results & w' & Hrun & Hlen & _).
  exists results, w'. split; [exact Hrun|exact Hlen].
Defined.

Lemma ingest_multiple_contracts_missing_key_witness :
  vector_store demo_world = true
  /\ (forall path, getitem [(txt "content", demo_commented)] (txt "file_path")
                   <> Ok path)
  /\ exists w',
       ingest_multiple_contracts demo_env
         ([[(txt "file_path", txt "A.sol"); (txt "content", demo_contract)]]
          ++ [(txt "content", demo_commented)] :: [])
         demo_world
       = (Raise (txt "'file_path'"), w')
       /\ fst (ingest_multiple_contracts demo_env
                 [[(txt "file_path", txt "A.sol"); (txt "content", demo_contract)]]
                 demo_world) <> Raise (txt "'file_path'").
Proof.
  split; [reflexivity|].
  assert (Hbad : forall path,
             getitem [(txt "content", demo_commented)] (txt "file_path")
             <> Ok path) by (intros path; discriminate).
  split; [exact Hbad|].
  assert (Hkeys : Forall has_both_keys
                    [[(txt "file_path", txt "A.sol"); (txt "content", demo_contract)]])
    by (repeat constructor; do 2 eexists; split; reflexivity).
  destruct (@ingest_multiple_contracts_missing_key demo_env
              [[(txt "file_path", txt "A.sol"); (txt "content", demo_contract)]]
              [] [(txt "content", demo_commented)] demo_world eq_refl Hkeys Hbad)
    as (results & w' & Hbefore & _ & Hrun).
  exists w'. split; [exact Hrun|]. rewrite Hbefore. discriminate.
Defined.

Lemma ingest_multiple_contracts_duplicate_witness :
  healthy demo_world
  /\ vector_store demo_world = true
  /\ hash_stored (md5_hexdigest demo_env demo_contract) demo_world = false
  /\ split_text demo_env demo_contract <> []
  /\ exists r1 msg2 w',
       ingest_multiple_contracts demo_env
         [[(txt "file_path", txt "A.sol"); (txt "content", demo_contract)];
          [(txt "file_path", txt "B.sol"); (txt "content", demo_contract)]]
         demo_world
       = (Ok [r1; Skipped msg2 (md5_hexdigest demo_env demo_contract)], w').
Proof.
  assert (Hne : split_text demo_env demo_contract <> [])
    by (vm_compute; discriminate).
  split; [exact demo_world_healthy|]. split; [reflexivity|].
  split; [reflexivity|]. split; [exact Hne|].
  destruct (@ingest_multiple_contracts_duplicate demo_env (txt "A.sol")
              (txt "B.sol") demo_contract demo_world demo_world_healthy
              eq_refl eq_refl Hne)
    as (msg1 & msg2 & md & pats & w' & Hrun & _).
  do 2 eexists. exists w'. exact Hrun.
Defined.

Lemma search_contracts_hits_witness :
  vector_store demo_world = true
  /\ failing (pc demo_world) SimilaritySearch = None
  /\ exists hits w',
       search_contracts demo_env (txt "owner") (Some 0) demo_world = (Ok hits, w')
       /\ calls w' = [CallSimilaritySearch (txt "owner") 5 None].
Proof.
  split; [reflexivity|]. split; [reflexivity|].
  destruct (@search_contracts_hits demo_env (txt "owner") (Some 0) demo_world
              eq_refl eq_refl) as (hits & w' & Hrun & Hcalls & _).
  exists hits, w'. split; [exact Hrun|exact Hcalls].
Defined.

Lemma get_contract_stats_outcomes_witness :
  vector_store demo_world = true
  /\ get_contract_stats demo_env demo_stats_down demo_world
     = (Ok (StatsError (txt "Failed to get stats: timed out")), demo_world).
Proof.
  split; [reflexivity|].
  destruct (get_contract_stats_outcomes demo_env demo_stats_down demo_world)
    as (Hstarted & _).
  destruct (Hstarted eq_refl) as (r & Hrun & Hr).
  simpl in Hr. rewrite Hrun, Hr. reflexivity.
Defined.

Lemma chat_takes_retrieval_error_as_context_witness :
  vector_store demo_world_search_down = true
  /\ failing (pc demo_world_search_down) SimilaritySearch
     = Some (txt "503 Service Unavailable")
  /\ exists reply stamp w',
       chat demo_env (txt "Is withdraw() safe?") true demo_world_search_down
       = (Ok (ChatOk reply true stamp), w').
Proof.
  split; [reflexivity|]. split; [reflexivity|].
  destruct (@chat_takes_retrieval_error_as_context demo_env
              (txt "Is withdraw() safe?") demo_world_search_down
              (txt "503 Service Unavailable") eq_refl eq_refl)
    as (res & w' & Hrun & _ & Hres).
  cbv zeta in Hres. simpl ainvoke in Hres. rewrite Hres in Hrun.
  do 2 eexists. exists w'. exact Hrun.
Defined.

Lemma analyses_ignore_history_witness :
  vector_store demo_world = true
  /\ exists res w',
       analyze_contract_security demo_env demo_timestamp demo_contract demo_world
       = (Ok res, w')
       /\ conversation_history w' = conversation_history demo_world.
Proof.
  split; [reflexivity|].
  destruct (analyses_ignore_history demo_env demo_timestamp) as (_ & _ & Hana).
  destruct (Hana demo_contract demo_world eq_refl) as (ctx & res & w' & Hrun & Hh & _).
  exists res, w'. split; [exact Hrun|exact Hh].
Defined.

Lemma analyses_use_the_context_template_without_context_witness :
  healthy demo_world
  /\ vectors (pc demo_world) = []
  /\ exists res w',
       suggest_improvements demo_env demo_contract demo_world = (Ok res, w')
       /\ llm_requests (calls w')
          = [[SystemMessage (system_template_of NO_CONTEXT);
              HumanMessage (human_message_of (improvement_query demo_contract))]].
Proof.
  split; [exact demo_world_healthy|]. split; [reflexivity|].
  destruct (@analyses_use_the_context_template_without_context demo_env
              demo_contract demo_world demo_world_healthy eq_refl)
    as (res & w' & Hrun & Hl & _).
  exists res, w'. split; [exact Hrun|exact Hl].
Defined.

Lemma analysis_leaves_the_contract_ingested_witness :
  healthy demo_world
  /\ hash_stored (md5_hexdigest demo_env demo_contract) demo_world = false
  /\ split_text demo_env demo_contract <> []
  /\ exists res w' msg w'',
       analyze_contract_security demo_env demo_timestamp demo_contract demo_world
       = (Ok res, w')
       /\ ingest_contract demo_env (txt "Vault.sol") demo_contract w'
          = (Ok (Skipped msg (md5_hexdigest demo_env demo_contract)), w'').
Proof.
  assert (Hne : split_text demo_env demo_contract <> [])
    by (vm_compute; discriminate).
  split; [exact demo_world_healthy|]. split; [reflexivity|]. split; [exact Hne|].
  destruct (@analysis_leaves_the_contract_ingested demo_env demo_timestamp
              demo_contract demo_world demo_world_healthy eq_refl Hne)
    as (res & docs & w' & Hrun & _ & _ & _ & Hskip).
  destruct (Hskip (txt "Vault.sol")) as (msg & w'' & Hing & _).
  exists res, w', msg, w''. split; [exact Hrun|exact Hing].
Defined.

Lemma conversation_summary_follows_history_witness :
  let run := chat demo_env (txt "Is withdraw() safe?") false demo_world in
  exists reply used stamp after,
    fst run = Ok (ChatOk reply used stamp)
    /\ fst (get_conversation_summary demo_env (snd run)) = Ok after
    /\ message_count after = 2.
Proof.
  cbv zeta.
  assert (Hrun : exists reply used stamp,
             chat demo_env (txt "Is withdraw() safe?") false demo_world
             = (Ok (ChatOk reply used stamp),
                snd (chat demo_env (txt "Is withdraw() safe?") false demo_world))).
  { do 3 eexists. rewrite (surjective_pairing (chat _ _ _ _)) at 1.
    f_equal. vm_compute. reflexivity. }
  destruct Hrun as (reply & used & stamp & Hrun).
  destruct (conversation_summary_follows_history demo_env) as (Hgrow & _).
  destruct (Hgrow _ _ _ _ _ reply used stamp Hrun eq_refl)
    as (before & after & Hb & Ha & Hcount & _).
  exists reply, used, stamp, after.
  split; [rewrite Hrun; reflexivity|]. split; [exact Ha|].
  rewrite Hcount. vm_compute in Hb. injection Hb as <-. reflexivity.
Defined.

Lemma rate_limiter_keeps_at_most_100_witness :
  (forall c, length (Main.requests_of demo_counts c) <= 100)
  /\ forall c,
       length (Main.requests_of
                 (snd (Main.serve demo_later demo_hour_before
                         [(4000, txt "10.0.0.1"); (4001, txt "10.0.0.2")]
                         demo_counts)) c) <= 100.
Proof.
  assert (Hinv : forall c, length (Main.requests_of demo_counts c) <= 100).
  { intros c. unfold Main.requests_of, demo_counts.
    destruct (str_eqb c (txt "10.0.0.1")); simpl; lia. }
  split; [exact Hinv|].
  exact (@MainFacts.rate_limiter_keeps_at_most_100 nat demo_later
           demo_hour_before _ demo_counts Hinv).
Defined.

Lemma check_rate_limit_step_witness :
  Main.recent demo_later demo_hour_before 4000 (txt "10.0.0.1") demo_counts
  = [3000]
  /\ Main.requests_of
       (snd (Main.check_rate_limit demo_later demo_hour_before 4000
               (txt "10.0.0.1") demo_counts)) (txt "10.0.0.1")
     = [3000; 4000].
Proof.
  assert (Hrecent : Main.recent demo_later demo_hour_before 4000
                      (txt "10.0.0.1") demo_counts = [3000])
    by (vm_compute; reflexivity).
  split; [exact Hrecent|].
  pose proof (@MainFacts.check_rate_limit_step nat demo_later demo_hour_before
                4000 (txt "10.0.0.1") demo_counts) as Hstep.
  cbv zeta in Hstep.
  destruct (Main.check_rate_limit demo_later demo_hour_before 4000
              (txt "10.0.0.1") demo_counts) as [allowed m'].
  destruct Hstep as (Hall & Hreq & _).
  cbn [snd]. rewrite Hreq, Hall, Hrecent. reflexivity.
Defined.


Lemma validate_file_accepts_any_letter_case_witness :
  Main.str_lower (txt ".SOL") = txt ".sol"
  /\ Main.validate_file demo_megabytes demo_upload demo_settings = None.
Proof.
  split; [reflexivity|].
  apply (@EndpointFacts.validate_file_accepts_any_letter_case demo_megabytes
           demo_upload demo_settings (txt "Vault") (txt "SOL")).
  - reflexivity.
  - vm_compute. intuition discriminate.
  - vm_compute. intuition discriminate.
  - reflexivity.
  - vm_compute. lia.
  - left. reflexivity.
Defined.

Lemma validate_file_rejections_witness :
  Config.max_file_size demo_settings < Main.size demo_upload_too_big
  /\ Main.validate_file demo_megabytes demo_upload_too_big demo_settings
     = Some (Main.HTTPException 413
               (txt "File too large. Maximum size: 4096 bytesMB"))
  /\ Main.validate_file demo_megabytes demo_upload_hidden demo_settings
     = Some (Main.HTTPException 400
               (txt "Invalid file type. Allowed: .sol, .txt")).
Proof.
  assert (Hbig : Config.max_file_size demo_settings
                 < Main.size demo_upload_too_big) by (vm_compute; lia).
  split; [exact Hbig|]. split.
  - destruct (EndpointFacts.validate_file_rejections demo_megabytes
                demo_upload_too_big demo_settings) as (Hlarge & _).
    rewrite (Hlarge Hbig). reflexivity.
  - destruct (EndpointFacts.validate_file_rejections demo_megabytes
                demo_upload_hidden demo_settings) as (_ & Htype).
    rewrite Htype.
    + reflexivity.
    + vm_compute. lia.
    + vm_compute. intuition discriminate.
    + right. exists [], (txt "sol").
      split; [reflexivity|]. split; [vm_compute; intuition discriminate|].
      split; [vm_compute; intuition discriminate|reflexivity].
Defined.

Lemma upload_contract_statuses_witness :
  Config.max_file_size demo_settings < Main.size demo_upload_too_big
  /\ Main.upload_contract demo_env demo_http_str demo_megabytes
       demo_upload_too_big demo_settings demo_world
     = (Main.Fail
          (Main.HTTPException 500
             (txt "Upload failed: 413: File too large. Maximum size: 4096 bytesMB")),
        demo_world)
  /\ exists r w',
       Main.upload_contract demo_env demo_http_str demo_megabytes demo_upload
         demo_settings demo_world = (Main.Respond r, w')
       /\ Main.up_success r = true
       /\ Main.up_file_hash r = Some (md5_hexdigest demo_env demo_contract).
Proof.
  assert (Hbig : Config.max_file_size demo_settings
                 < Main.size demo_upload_too_big) by (vm_compute; lia).
  split; [exact Hbig|]. split.
  - destruct (EndpointFacts.upload_contract_statuses demo_env demo_http_str
                demo_megabytes demo_upload_too_big demo_settings demo_world)
      as (Hlarge & _).
    rewrite (Hlarge Hbig). reflexivity.
  - destruct (EndpointFacts.upload_contract_statuses demo_env demo_http_str
                demo_megabytes demo_upload demo_settings demo_world)
      as (_ & _ & _ & Hok).
    destruct (Main.upload_contract demo_env demo_http_str demo_megabytes
                demo_upload demo_settings demo_world) as [[r|f] w'] eqn:Hrun.
    + destruct (Hok r w' eq_refl) as (Hs & _ & content & Hdec & Hhash).
      exists r, w'. split; [reflexivity|]. split; [exact Hs|].
      simpl in Hdec. injection Hdec as <-. exact Hhash.
    + vm_compute in Hrun. discriminate Hrun.
Defined.

Lemma search_endpoint_statuses_witness :
  strip (txt "  ") = []
  /\ Main.search_contracts demo_env demo_http_str (txt "  ") 3 demo_world
     = (Main.Fail
          (Main.HTTPException 500
             (txt "Search failed: 400: Query cannot be empty")), demo_world)
  /\ strip (txt "owner") <> []
  /\ vector_store demo_world_search_down = true
  /\ failing (pc demo_world_search_down) SimilaritySearch
     = Some (txt "503 Service Unavailable")
  /\ (exists w',
        Main.search_contracts demo_env demo_http_str (txt "owner") 3
          demo_world_search_down
        = (Main.Fail
             (Main.HTTPException 500
                (txt "Search failed: Search failed: 503 Service Unavailable")),
           w'))
  /\ length (vectors (pc demo_world_stocked)) = 19
  /\ (exists r w',
        Main.search_contracts demo_env demo_http_str (txt "owner") 3
          demo_world_stocked
        = (Main.Respond r, w')
        /\ Main.sr_count r <= 3)
  /\ exists r w',
       Main.search_contracts demo_env demo_http_str (txt "owner") 0
         demo_world_stocked
       = (Main.Respond r, w')
       /\ Main.sr_count r = 5
       /\ calls w'
          = calls demo_world_stocked
            ++ [CallSimilaritySearch (txt "owner") 5 None].
Proof.
  assert (Hne : strip (txt "owner") <> []) by (vm_compute; discriminate).
  assert (Hvs : vector_store demo_world_stocked = true)
    by (vm_compute; reflexivity).
  assert (Hup : failing (pc demo_world_stocked) SimilaritySearch = None)
    by (vm_compute; reflexivity).
  split; [reflexivity|]. split.
  { destruct (EndpointFacts.search_endpoint_statuses demo_env demo_http_str
                (txt "  ") 3 demo_world) as (Hempty & _).
    rewrite (Hempty eq_refl). reflexivity. }
  split; [exact Hne|]. split; [reflexivity|]. split; [reflexivity|]. split.
  { destruct (EndpointFacts.search_endpoint_statuses demo_env demo_http_str
                (txt "owner") 3 demo_world_search_down) as (_ & Hdown & _).
    destruct (Hdown (txt "503 Service Unavailable") Hne eq_refl eq_refl)
      as (w' & Hrun).
    exists w'. exact Hrun. }
  split; [vm_compute; reflexivity|]. split.
  { destruct (EndpointFacts.search_endpoint_statuses demo_env demo_http_str
                (txt "owner") 3 demo_world_stocked) as (_ & _ & Hok).
    destruct (Hok Hne Hvs Hup) as (r & w' & Hrun & _ & _ & _ & Hle & _).
    exists r, w'. split; [exact Hrun|]. apply Hle. discriminate. }
  destruct (EndpointFacts.search_endpoint_statuses demo_env demo_http_str
              (txt "owner") 0 demo_world_stocked) as (_ & _ & Hok).
  destruct (Hok Hne Hvs Hup) as (r & w' & Hrun & _ & Hcount & Hcalls & _).
  exists r, w'. split; [exact Hrun|]. split; [|exact Hcalls].
  rewrite Hcount. vm_compute in Hrun. injection Hrun as <- _. reflexivity.
Defined.

Lemma chat_endpoint_always_responds_witness :
  exists r w',
    Main.chat_with_bot demo_env (txt "Is withdraw() safe?") true demo_world
    = (Main.Respond r, w')
    /\ Main.success r = true
    /\ exists reply,
         conversation_history w'
         = [HumanMessage (txt "Is withdraw() safe?"); AIMessage reply].
Proof.
  destruct (EndpointFacts.chat_endpoint_always_responds demo_env
              (txt "Is withdraw() safe?") true demo_world)
    as (r & w' & Hrun & Hok & _).
  assert (Hs : Main.success r = true).
  { vm_compute in Hrun. injection Hrun as <- _. reflexivity. }
  destruct (Hok Hs) as (_ & reply & _ & Hh).
  exists r, w'. split; [exact Hrun|]. split; [exact Hs|].
  exists reply. exact Hh.
Defined.

Lemma analyze_endpoint_statuses_witness :
  vector_store demo_world = true
  /\ (exists reply stamp,
        fst (Main.analyze_contract demo_env demo_http_str demo_timestamp
               demo_contract demo_world)
        = Main.Respond (AnalysisOk reply stamp
                          (md5_hexdigest demo_env demo_contract)))
  /\ exists e,
       fst (Main.analyze_contract demo_env_llm_down demo_http_str demo_timestamp
              demo_contract demo_world)
       = Main.Fail (Main.HTTPException 500
                      (txt "Analysis failed: 400: Analysis failed: " ++ e)).
Proof.
  split; [reflexivity|]. split.
  - destruct (@EndpointFacts.analyze_endpoint_statuses demo_env demo_http_str
                demo_timestamp demo_contract demo_world eq_refl)
      as (ctx & w' & _ & _ & Hres).
    rewrite Hres. simpl ainvoke. do 2 eexists. reflexivity.
  - destruct (@EndpointFacts.analyze_endpoint_statuses demo_env_llm_down
                demo_http_str demo_timestamp demo_contract demo_world eq_refl)
      as (ctx & w' & _ & _ & Hres).
    rewrite Hres. simpl ainvoke. eexists. reflexivity.
Defined.

Lemma health_check_reports_healthy_once_started_witness :
  vector_store demo_world = true
  /\ Main.health_check demo_env demo_stats_down demo_world
     = (Main.Healthy (now_isoformat demo_env) (txt "error") (txt "error"),
        demo_world)
  /\ vector_store demo_world_unstarted_down = false
  /\ failing (pc demo_world_unstarted_down) ListIndexes
     = Some (txt "401 Unauthorized")
  /\ fst (Main.health_check demo_env demo_stats demo_world_unstarted_down)
     = Main.Unhealthy503
         (txt "Failed to initialize vector store: 401 Unauthorized")
         (now_isoformat demo_env).
Proof.
  split; [reflexivity|]. split.
  - destruct (EndpointFacts.health_check_reports_healthy_once_started demo_env
                demo_stats_down demo_world) as (Hup & _).
    rewrite (Hup eq_refl). reflexivity.
  - split; [reflexivity|]. split; [reflexivity|].
    destruct (EndpointFacts.health_check_reports_healthy_once_started demo_env
                demo_stats demo_world_unstarted_down) as (_ & Hdown).
    rewrite (Hdown (txt "401 Unauthorized") eq_refl eq_refl). reflexivity.
Defined.

